(** * webclaw CLI: a shallow embedding of the bootstrap script

    The script (packages/webclaw, the [#!/usr/bin/env node] entry point) is
    embedded function by function.  Pure helpers ([parseCliArgs], [parsePort],
    the dev-script rewrite) are Rocq functions; code that touches the file
    system, the standard streams or child processes runs in a small
    state-and-exception monad [M] over a [world]. *)

From Stdlib Require Import ZArith QArith Qcanon Ascii String List Bool Lia.
From Stdlib Require Import DecimalString.
From stdpp Require Import base gmap sets list strings.

Set Warnings "-register-all".

Local Open Scope string_scope.
Local Open Scope list_scope.
Local Open Scope Z_scope.

(** ** JavaScript string primitives used by the script

    Strings are sequences of 8-bit code units; every literal the script
    compares against is ASCII. *)
Module JsString.

(** [s.startsWith(p)] *)
Fixpoint startsWith (s p : string) : bool :=
  match p with
  | EmptyString => true
  | String c p' =>
      match s with
      | EmptyString => false
      | String d s' => Ascii.eqb c d && startsWith s' p'
      end
  end.

(** [s.includes(p)] *)
Fixpoint includes (s p : string) : bool :=
  startsWith s p ||
  match s with
  | EmptyString => false
  | String _ s' => includes s' p
  end.

(** [s.indexOf(c)] for a one-character needle; [None] stands for [-1]. *)
Fixpoint indexOf (s : string) (c : ascii) : option nat :=
  match s with
  | EmptyString => None
  | String d s' =>
      if Ascii.eqb d c then Some O
      else match indexOf s' c with
           | Some i => Some (S i)
           | None => None
           end
  end.

(** [s.slice(0, n)] *)
Fixpoint take (n : nat) (s : string) : string :=
  match n, s with
  | S n', String c s' => String c (take n' s')
  | _, _ => EmptyString
  end.

(** [s.slice(n)] *)
Fixpoint drop (n : nat) (s : string) : string :=
  match n, s with
  | S n', String _ s' => drop n' s'
  | _, _ => s
  end.

(** [lines.join(sep)] *)
Fixpoint join (sep : string) (l : list string) : string :=
  match l with
  | [] => EmptyString
  | [x] => x
  | x :: l' => x ++ sep ++ join sep l'
  end.

(** [s.split(sep)] for a one-character separator; [cur] is the piece
    being read. *)
Fixpoint splitAux (sep : ascii) (s : string) (cur : string) : list string :=
  match s with
  | EmptyString => [cur]
  | String c s' =>
      if Ascii.eqb c sep then cur :: splitAux sep s' EmptyString
      else splitAux sep s' (cur ++ String c EmptyString)
  end.

Definition split (sep : ascii) (s : string) : list string :=
  splitAux sep s EmptyString.

(** A string is truthy when it is not empty. *)
Definition truthy (s : string) : bool :=
  match s with EmptyString => false | _ => true end.

End JsString.

(** ** Argument parser *)
Module Cli.
Import JsString.

Record ParsedArgs := mkParsed {
  flags : gset string;
  values : gmap string string;
  positionals : list string
}.

Definition optionsWithValues : list string :=
  ["--project-name"; "--gateway-url"; "--gateway-token";
   "--gateway-password"; "--port"].

(** [optionsWithValues.has(arg)] *)
Definition isValueOption (arg : string) : bool :=
  existsb (String.eqb arg) optionsWithValues.

Definition addFlag (arg : string) (acc : ParsedArgs) : ParsedArgs :=
  mkParsed ({[arg]} ∪ flags acc) (values acc) (positionals acc).

Definition setValue (key value : string) (acc : ParsedArgs) : ParsedArgs :=
  mkParsed (flags acc) (<[key := value]> (values acc)) (positionals acc).

Definition pushPositional (arg : string) (acc : ParsedArgs) : ParsedArgs :=
  mkParsed (flags acc) (values acc) (positionals acc ++ [arg]).

(** The body of the [for] loop; [args] is the part of the argument array
    from [index] on, so that [index += 1] inside the body is a recursive
    call on the tail of the tail. *)
Fixpoint parseLoop (args : list string) (acc : ParsedArgs) : ParsedArgs :=
  match args with
  | [] => acc
  | arg :: rest =>
      if negb (startsWith arg "-") then parseLoop rest (pushPositional arg acc)
      else if String.eqb arg "-h" || String.eqb arg "--help"
      then parseLoop rest (addFlag arg acc)
      else if negb (startsWith arg "--") then parseLoop rest (addFlag arg acc)
      else
        match indexOf arg "="%char with
        | Some equalIndex =>
            parseLoop rest
              (setValue (take equalIndex arg) (drop (S equalIndex) arg) acc)
        | None =>
            match rest with
            | nextArg :: rest' =>
                if isValueOption arg && truthy nextArg
                   && negb (startsWith nextArg "-")
                then parseLoop rest' (setValue arg nextArg acc)
                else parseLoop rest (addFlag arg acc)
            | [] => parseLoop rest (addFlag arg acc)
            end
        end
  end.

Definition emptyParsed : ParsedArgs := mkParsed ∅ ∅ [].

Definition parseCliArgs (args : list string) : ParsedArgs :=
  parseLoop args emptyParsed.

End Cli.

(** ** Paths

  Every path the script handles is absolute and normalised: it is either
  [process.cwd()], [os.tmpdir()] or the installation root, or it is built
  from one of these with [path.join] and literal names, or it comes out of
  [path.resolve].  A path is therefore held as the list of its segments
  below the root; [toString] gives back the POSIX string. *)
Module Path.
Import JsString.

Definition path := list string.

Definition toString (p : path) : string :=
  String "/" (join "/" p).

(** [path.join(p, name)] for a literal segment [name] *)
Definition join1 (p : path) (name : string) : path := p ++ [name].

(** [path.dirname(p)] *)
Definition dirname (p : path) : path := removelast p.

Definition segments (s : string) : list string := split "/" s.

(** Normalisation step of [path.resolve]: empty segments and ['.'] are
    dropped, ['..'] removes the last segment (the root is its own parent). *)
Definition pushSegment (acc : path) (seg : string) : path :=
  if String.eqb seg "" || String.eqb seg "." then acc
  else if String.eqb seg ".." then removelast acc
  else acc ++ [seg].

(** [path.resolve(base, raw)] for an absolute normalised [base] *)
Definition resolve (base : path) (raw : string) : path :=
  fold_left pushSegment (segments raw)
    (if startsWith raw "/" then [] else base).

Fixpoint stripCommon (a b : path) : path * path :=
  match a, b with
  | x :: a', y :: b' => if String.eqb x y then stripCommon a' b' else (a, b)
  | _, _ => (a, b)
  end.

(** [path.relative(from, to)] *)
Definition relative (from to : path) : string :=
  let '(up, down) := stripCommon from to in
  join "/" (List.map (fun _ => "..") up ++ down).

Definition eqb (p q : path) : bool :=
  if decide (p = q) then true else false.

End Path.

(** ** File system

  A directory is an association list from entry names to nodes, in the
  order [readdir] reports them; the first binding of a name is the one
  that counts.  There are no permissions, links or quotas: an operation
  fails only for the structural reasons below. *)
Module Fs.
Export Path.

Inductive node :=
| File (data : string)
| Dir (entries : list (string * node)).

Inductive errno := ENOENT | ENOTDIR | EISDIR | EEXIST | EBUSY.

Inductive result (A : Type) :=
| Ok (a : A)
| Err (e : errno).
Arguments Ok {A} a.
Arguments Err {A} e.

Fixpoint getEntry (name : string) (es : list (string * node)) : option node :=
  match es with
  | [] => None
  | (k, n) :: es' => if String.eqb k name then Some n else getEntry name es'
  end.

(** Rebinds the first entry called [name], or adds one at the end. *)
Fixpoint setEntry (name : string) (n : node) (es : list (string * node))
  : list (string * node) :=
  match es with
  | [] => [(name, n)]
  | (k, m) :: es' =>
      if String.eqb k name then (k, n) :: es'
      else (k, m) :: setEntry name n es'
  end.

Definition removeEntry (name : string) (es : list (string * node))
  : list (string * node) :=
  List.filter (fun e => negb (String.eqb (fst e) name)) es.

Fixpoint lookup (p : path) (n : node) : option node :=
  match p with
  | [] => Some n
  | name :: p' =>
      match n with
      | File _ => None
      | Dir es =>
          match getEntry name es with
          | Some c => lookup p' c
          | None => None
          end
      end
  end.

Definition isDirectory (n : node) : bool :=
  match n with Dir _ => true | File _ => false end.

(** Applies [f] to the entries of the directory at [p]. *)
Fixpoint alterDir (p : path)
    (f : list (string * node) -> result (list (string * node)))
    (n : node) {struct p} : result node :=
  match n with
  | File _ => Err ENOTDIR
  | Dir es =>
      match p with
      | [] => match f es with Ok es' => Ok (Dir es') | Err e => Err e end
      | name :: p' =>
          match getEntry name es with
          | None => Err ENOENT
          | Some c =>
              match alterDir p' f c with
              | Ok c' => Ok (Dir (setEntry name c' es))
              | Err e => Err e
              end
          end
      end
  end.

(** [mkdir -p]: creates every missing directory on the way to [p]. *)
Fixpoint mkdirp (p : path) (n : node) {struct p} : result node :=
  match p with
  | [] => match n with Dir _ => Ok n | File _ => Err EEXIST end
  | name :: p' =>
      match n with
      | File _ => Err ENOTDIR
      | Dir es =>
          let child := match getEntry name es with
                       | Some c => c
                       | None => Dir []
                       end in
          match mkdirp p' child with
          | Ok c' => Ok (Dir (setEntry name c' es))
          | Err e => Err e
          end
      end
  end.

(** Splits a path into its parent and its last segment. *)
Fixpoint unsnoc (p : path) : option (path * string) :=
  match p with
  | [] => None
  | [x] => Some ([], x)
  | x :: p' =>
      match unsnoc p' with
      | Some (d, l) => Some (x :: d, l)
      | None => None
      end
  end.

(** Writing a regular file: the parent must be a directory and the name
    must not be bound to a directory. *)
Definition putFile (p : path) (data : string) (n : node) : result node :=
  match unsnoc p with
  | None => Err EISDIR
  | Some (parent, name) =>
      alterDir parent
        (fun es => match getEntry name es with
                   | Some (Dir _) => Err EISDIR
                   | _ => Ok (setEntry name (File data) es)
                   end) n
  end.

Definition getFile (p : path) (n : node) : result string :=
  match lookup p n with
  | Some (File data) => Ok data
  | Some (Dir _) => Err EISDIR
  | None => Err ENOENT
  end.

(** [rm -rf p]: a missing path is not an error. *)
Definition remove (p : path) (n : node) : result node :=
  match unsnoc p with
  | None => Err EBUSY
  | Some (parent, name) =>
      match alterDir parent (fun es => Ok (removeEntry name es)) n with
      | Err ENOENT => Ok n
      | r => r
      end
  end.

(** Creating one new directory; the name must be free. *)
Definition mkdir1 (p : path) (n : node) : result node :=
  match unsnoc p with
  | None => Err EEXIST
  | Some (parent, name) =>
      alterDir parent
        (fun es => match getEntry name es with
                   | Some _ => Err EEXIST
                   | None => Ok (setEntry name (Dir []) es)
                   end) n
  end.

End Fs.

(** ** Numbers

  A JavaScript number is a binary64 value.  Finite values are held as the
  reduced rational they denote (the sign of zero is not kept: no code
  below can tell the two zeros apart). *)
Module JsNumber.
Import JsString.

Inductive number :=
| NaN
| Infinity (negative : bool)
| Finite (q : Q).

Definition ofZ (z : Z) : number := Finite (inject_Z z).

(** [floor (log2 (n / d))] for positive [n] and [d] *)
Definition floorLog2 (n d : Z) : Z :=
  let e0 := Z.log2 n - Z.log2 d in
  let reaches :=
    if 0 <=? e0 then d * 2 ^ e0 <=? n else d <=? n * 2 ^ (- e0) in
  if reaches then e0 else e0 - 1.

(** [n / d] rounded to the nearest integer, ties to even *)
Definition roundHalfEven (n d : Z) : Z :=
  let q := n / d in
  let r := n mod d in
  if 2 * r <? d then q
  else if d <? 2 * r then q + 1
  else if Z.even q then q else q + 1.

(** The binary64 value nearest to [n / d], for [0 <= n] and [0 < d]:
    53 significant bits, least exponent -1074, overflow to infinity. *)
Definition roundDouble (n d : Z) : number :=
  if n =? 0 then Finite 0
  else
    let e := floorLog2 n d in
    let u := Z.max (e - 52) (-1074) in
    if 0 <=? u then
      let m := roundHalfEven n (d * 2 ^ u) in
      if 2 ^ 1024 <=? m * 2 ^ u then Infinity false
      else Finite (inject_Z (m * 2 ^ u))
    else
      let m := roundHalfEven (n * 2 ^ (- u)) d in
      Finite (Qred (Qmake m (Z.to_pos (2 ^ (- u))))).

Definition negate (x : number) : number :=
  match x with
  | NaN => NaN
  | Infinity b => Infinity (negb b)
  | Finite q => Finite (Qred (Qopp q))
  end.

(** [\s] and the white space [Number] trims, on 8-bit code units:
    TAB, LF, VT, FF, CR, SP and NBSP. *)
Definition isSpace (c : ascii) : bool :=
  let n := N_of_ascii c in
  (((9 <=? n) && (n <=? 13)) || (n =? 32) || (n =? 160))%N.

(** [\d] *)
Definition isDigit (c : ascii) : bool :=
  let n := N_of_ascii c in ((48 <=? n) && (n <=? 57))%N.

Definition digitValue (c : ascii) : option Z :=
  let n := Z.of_N (N_of_ascii c) in
  if (48 <=? n) && (n <=? 57) then Some (n - 48)
  else if (97 <=? n) && (n <=? 102) then Some (n - 87)
  else if (65 <=? n) && (n <=? 70) then Some (n - 55)
  else None.

Definition digitIn (base : Z) (c : ascii) : option Z :=
  match digitValue c with
  | Some d => if d <? base then Some d else None
  | None => None
  end.

(** Reads the longest run of digits of [base]; returns the accumulated
    value, the number of digits read and the rest of the string. *)
Fixpoint readDigits (base : Z) (s : string) (acc : Z) (count : nat)
  : Z * nat * string :=
  match s with
  | EmptyString => (acc, count, s)
  | String c s' =>
      match digitIn base c with
      | Some d => readDigits base s' (acc * base + d) (S count)
      | None => (acc, count, s)
      end
  end.

Fixpoint trimStart (s : string) : string :=
  match s with
  | EmptyString => s
  | String c s' => if isSpace c then trimStart s' else s
  end.

Fixpoint trimEnd (s : string) : string :=
  match s with
  | EmptyString => s
  | String c s' =>
      match trimEnd s' with
      | EmptyString => if isSpace c then EmptyString else String c EmptyString
      | t => String c t
      end
  end.

(** [s.trim()] *)
Definition trim (s : string) : string := trimEnd (trimStart s).

(** [0x], [0o] and [0b] literals (no sign allowed) *)
Definition nonDecimalLiteral (s : string) : option Z :=
  match s with
  | String "0" (String p body) =>
      let base :=
        if Ascii.eqb p "x" || Ascii.eqb p "X" then Some 16
        else if Ascii.eqb p "o" || Ascii.eqb p "O" then Some 8
        else if Ascii.eqb p "b" || Ascii.eqb p "B" then Some 2
        else None in
      match base with
      | Some b =>
          match readDigits b body 0 O with
          | (v, S _, EmptyString) => Some v
          | _ => None
          end
      | None => None
      end
  | _ => None
  end.

(** The exponent part: [e] or [E], an optional sign, at least one digit,
    and nothing after it.  An absent exponent part is exponent 0. *)
Definition exponentPart (s : string) : option Z :=
  match s with
  | EmptyString => Some 0
  | String c s' =>
      if Ascii.eqb c "e" || Ascii.eqb c "E" then
        let '(neg, body) :=
          match s' with
          | String "-" b => (true, b)
          | String "+" b => (false, b)
          | _ => (false, s')
          end in
        match readDigits 10 body 0 O with
        | (v, S _, EmptyString) => Some (if neg then - v else v)
        | _ => None
        end
      else None
  end.

(** An unsigned decimal literal, as the pair numerator/denominator of
    its exact value; [None] when the string is no such literal. *)
Definition unsignedDecimal (s : string) : option (Z * Z) :=
  let '(i, ni, r1) := readDigits 10 s 0 O in
  let '(m, nf, r2) :=
    match r1 with
    | String "." r => readDigits 10 r i O
    | _ => (i, O, r1)
    end in
  match (ni + nf)%nat with
  | O => None
  | S _ =>
      match exponentPart r2 with
      | Some e =>
          let k := e - Z.of_nat nf in
          if 0 <=? k then Some (m * 10 ^ k, 1) else Some (m, 10 ^ (- k))
      | None => None
      end
  end.

Definition decimalLiteral (s : string) : number :=
  let '(neg, body) :=
    match s with
    | String "-" b => (true, b)
    | String "+" b => (false, b)
    | _ => (false, s)
    end in
  let magnitude :=
    if String.eqb body "Infinity" then Infinity false
    else match unsignedDecimal body with
         | Some (n, d) => roundDouble n d
         | None => NaN
         end in
  if neg then negate magnitude else magnitude.

(** [Number(s)] for a string [s] *)
Definition stringToNumber (s : string) : number :=
  let t := trim s in
  match t with
  | EmptyString => Finite 0
  | _ =>
      match nonDecimalLiteral t with
      | Some v => roundDouble v 1
      | None => decimalLiteral t
      end
  end.

(** The values [parsePort] receives: a string typed by the user or taken
    from the command line, or a number (the built-in default). *)
Inductive jsval :=
| VString (s : string)
| VNumber (n : number).

(** [Number(value)] *)
Definition Number (v : jsval) : number :=
  match v with
  | VString s => stringToNumber s
  | VNumber n => n
  end.

(** [Number.isInteger(x)] *)
Definition isInteger (x : number) : bool :=
  match x with
  | Finite q => Pos.eqb (Qden (Qred q)) 1
  | _ => false
  end.

(** [x < y] and [x > y]; comparisons with [NaN] are false. *)
Definition lt (x y : number) : bool :=
  match x, y with
  | NaN, _ | _, NaN => false
  | Infinity true, Infinity true => false
  | Infinity true, _ => true
  | _, Infinity true => false
  | Infinity false, _ => false
  | _, Infinity false => true
  | Finite a, Finite b =>
      match Qcompare a b with Lt => true | _ => false end
  end.

Definition gt (x y : number) : bool := lt y x.

(** [`${x}`] for an integral [x] below [10^21] in magnitude, which is
    decimal notation; other values print as the host prints them. *)
Definition toStringWith (other : number -> string) (x : number) : string :=
  match x with
  | Finite q =>
      if Pos.eqb (Qden (Qred q)) 1 && (Z.abs (Qnum (Qred q)) <? 10 ^ 21)
      then NilZero.string_of_int (Z.to_int (Qnum (Qred q)))
      else other x
  | _ => other x
  end.

End JsNumber.

(** ** Port validation *)
Module Port.
Import JsNumber.

Definition parsePort (value : jsval) (fallback : number) : number :=
  let parsed := Number value in
  if negb (isInteger parsed) || lt parsed (ofZ 1) || gt parsed (ofZ 65535)
  then fallback
  else parsed.

End Port.


(** ** JSON values, as [JSON.parse] returns them *)
Module Json.
Import JsNumber.

Inductive json :=
| JNull
| JBool (b : bool)
| JNumber (n : number)
| JString (s : string)
| JArray (items : list json)
| JObject (fields : list (string * json)).

Fixpoint getField (k : string) (fields : list (string * json)) : option json :=
  match fields with
  | [] => None
  | (k', v) :: rest => if String.eqb k' k then Some v else getField k rest
  end.

Fixpoint setField (k : string) (v : json) (fields : list (string * json))
  : list (string * json) :=
  match fields with
  | [] => [(k, v)]
  | (k', v') :: rest =>
      if String.eqb k' k then (k', v) :: rest
      else (k', v') :: setField k v rest
  end.

(** [o.k]; [None] is [undefined].  Reading a property of [null] throws and
    is handled by the caller. *)
Definition getProp (o : json) (k : string) : option json :=
  match o with
  | JObject fields => getField k fields
  | _ => None
  end.

Definition isTruthy (v : option json) : bool :=
  match v with
  | None | Some JNull => false
  | Some (JBool b) => b
  | Some (JNumber NaN) => false
  | Some (JNumber (Finite q)) => negb (Qeq_bool q 0)
  | Some (JNumber (Infinity _)) => true
  | Some (JString s) => JsString.truthy s
  | Some (JArray _) | Some (JObject _) => true
  end.

End Json.

(** ** The process: world state, outcomes and the host *)
Module Process.
Export Fs.
Import JsString JsNumber Json.

Inductive error :=
| SystemError (code : errno) (syscall : string) (p : path)
| SpawnError (message : string)
| SyntaxError (message : string)
| TypeError (message : string).

Definition errnoText (e : errno) : string :=
  match e with
  | ENOENT => "ENOENT: no such file or directory"
  | ENOTDIR => "ENOTDIR: not a directory"
  | EISDIR => "EISDIR: illegal operation on a directory"
  | EEXIST => "EEXIST: file already exists"
  | EBUSY => "EBUSY: resource busy or locked"
  end.

(** [error.message] *)
Definition errorMessage (e : error) : string :=
  match e with
  | SystemError code syscall p =>
      (errnoText code ++ ", " ++ syscall ++ " '" ++ toString p ++ "'")%string
  | SpawnError m | SyntaxError m | TypeError m => m
  end.

(** File-system mutations and child processes, in the order the process
    issued them (whether or not they succeeded). *)
Inductive call :=
| MkdirCall (p : path)
| CopyFileCall (src dst : path)
| WriteFileCall (p : path) (data : string)
| RmCall (p : path)
| MkdtempCall (prefix : path)
| SpawnCall (command : string) (args : list string) (cwd : path).

Record world := mkWorld {
  fs : node;
  stdout : list string;
  stderr : list string;
  calls : list call;
  asked : nat
}.

(** How a computation ends: it returns, it throws, the process exits
    ([process.exit]), or the recursion budget of the model runs out. *)
Inductive outcome (A : Type) :=
| Ret (a : A)
| Throw (e : error)
| Exit (code : Z)
| OutOfFuel.
Arguments Ret {A} a.
Arguments Throw {A} e.
Arguments Exit {A} code.
Arguments OutOfFuel {A}.

Definition M (A : Type) : Type := world -> outcome A * world.

Definition ret {A} (a : A) : M A := fun w => (Ret a, w).

Definition bind {A B} (m : M A) (k : A -> M B) : M B :=
  fun w =>
    match m w with
    | (Ret a, w') => k a w'
    | (Throw e, w') => (Throw e, w')
    | (Exit c, w') => (Exit c, w')
    | (OutOfFuel, w') => (OutOfFuel, w')
    end.

Definition throw {A} (e : error) : M A := fun w => (Throw e, w).

(** [process.exit(code)] *)
Definition exit {A} (code : Z) : M A := fun w => (Exit code, w).

Declare Scope script_scope.
Delimit Scope script_scope with script.
Notation "x <- m ;; k" := (bind m (fun x => k))
  (at level 100, m at next level, right associativity) : script_scope.
Notation "m ;; k" := (bind m (fun _ => k))
  (at level 100, right associativity) : script_scope.
Local Open Scope script_scope.

(** [try { body } finally { cleanup }]: the cleanup runs when the body
    returns or throws; [process.exit] does not run it. *)
Definition finally {A} (body : M A) (cleanup : M unit) : M A :=
  fun w =>
    match body w with
    | (Ret a, w1) => (cleanup ;; ret a) w1
    | (Throw e, w1) => (cleanup ;; throw e) w1
    | r => r
    end.

Fixpoint forEach {A} (l : list A) (body : A -> M unit) : M unit :=
  match l with
  | [] => ret tt
  | x :: l' => body x ;; forEach l' body
  end.

Definition when (b : bool) (m : M unit) : M unit :=
  if b then m else ret tt.

(** [process.stdout.write] and [process.stderr.write] *)
Definition writeStdout (s : string) : M unit :=
  fun w => (Ret tt, mkWorld (fs w) (stdout w ++ [s]) (stderr w) (calls w) (asked w)).

Definition writeStderr (s : string) : M unit :=
  fun w => (Ret tt, mkWorld (fs w) (stdout w) (stderr w ++ [s]) (calls w) (asked w)).

Definition logCall (c : call) : M unit :=
  fun w => (Ret tt, mkWorld (fs w) (stdout w) (stderr w) (calls w ++ [c]) (asked w)).

Definition withFs (f : node) (w : world) : world :=
  mkWorld f (stdout w) (stderr w) (calls w) (asked w).

(** Runs a file-system update after logging it. *)
Definition mutate (c : call) (syscall : string) (p : path)
    (f : node -> result node) : M unit :=
  logCall c ;;
  fun w =>
    match f (fs w) with
    | Ok n => (Ret tt, withFs n w)
    | Err e => (Throw (SystemError e syscall p), w)
    end.

(** [fs.existsSync] *)
Definition existsSync (p : path) : M bool :=
  fun w => (Ret (match lookup p (fs w) with Some _ => true | None => false end), w).

(** [fs.readdirSync(p, { withFileTypes: true })]: names with
    [entry.isDirectory()] *)
Definition readdirTypesSync (p : path) : M (list (string * bool)) :=
  fun w =>
    match lookup p (fs w) with
    | Some (Dir es) => (Ret (List.map (fun e => (fst e, isDirectory (snd e))) es), w)
    | Some (File _) => (Throw (SystemError ENOTDIR "scandir" p), w)
    | None => (Throw (SystemError ENOENT "scandir" p), w)
    end.

(** [fs.readdirSync(p)] *)
Definition readdirSync (p : path) : M (list string) :=
  entries <- readdirTypesSync p ;; ret (List.map fst entries).

(** [fs.mkdirSync(p, { recursive: true })] *)
Definition mkdirSync (p : path) : M unit :=
  mutate (MkdirCall p) "mkdir" p (mkdirp p).

(** [fs.readFileSync(p, 'utf8')] *)
Definition readFileSync (p : path) : M string :=
  fun w =>
    match getFile p (fs w) with
    | Ok data => (Ret data, w)
    | Err e => (Throw (SystemError e "open" p), w)
    end.

(** [fs.writeFileSync(p, data)] *)
Definition writeFileSync (p : path) (data : string) : M unit :=
  mutate (WriteFileCall p data) "open" p (putFile p data).

(** [fs.copyFileSync(src, dst)] *)
Definition copyFileSync (src dst : path) : M unit :=
  mutate (CopyFileCall src dst) "copyfile" src
    (fun n => match getFile src n with
              | Ok data => putFile dst data n
              | Err e => Err e
              end).

(** [fs.rmSync(p, { recursive: true, force: true })] *)
Definition rmSync (p : path) : M unit :=
  mutate (RmCall p) "rm" p (remove p).

Record SpawnResult := mkSpawn {
  spawnError : option error;
  spawnStatus : option Z
}.

(** What the script takes from its environment.  Child processes, the
    terminal and the JSON codec are outside the script; each theorem holds
    whatever they do. *)
Class Host := {
  (** [process.cwd()] *)
  cwd : path;
  (** [os.tmpdir()] *)
  tmpdir : path;
  (** [__dirname] *)
  scriptDir : path;
  stdinIsTTY : bool;
  stdoutIsTTY : bool;
  (** [process.versions.node] *)
  nodeVersion : string;
  (** [spawnSync(command, args, { cwd })]: the result object and the file
      system the child leaves behind *)
  runChild : string -> list string -> path -> node -> SpawnResult * node;
  (** the random suffix [mkdtemp] picks *)
  mkdtempSuffix : node -> string;
  (** the line read for the [n]-th question of the process *)
  readAnswer : nat -> string -> outcome string;
  JSON_parse : string -> error + json;
  JSON_stringify : json -> string;
  (** [String(x)] for a number that is not a small integer *)
  numberToStringOther : number -> string
}.

End Process.

(** ** The script *)
Module Script.
Export Process.
Import JsString JsNumber Json Cli Port.
Local Open Scope script_scope.

(** The line feed the script writes as [\n]. *)
Definition nl : string := String "010"%char EmptyString.

Definition REPO_URL : string := "https://github.com/ibelick/webclaw".

(** [s.toLowerCase()] on 8-bit code units *)
Definition lowerChar (c : ascii) : ascii :=
  let n := N_of_ascii c in
  if (((65 <=? n) && (n <=? 90))
      || ((192 <=? n) && (n <=? 222) && negb (n =? 215)))%N
  then ascii_of_N (n + 32) else c.

Fixpoint toLowerCase (s : string) : string :=
  match s with
  | EmptyString => EmptyString
  | String c s' => String (lowerChar c) (toLowerCase s')
  end.

(** [a || b] for an optional string [a]: [undefined] and the empty string
    are falsy. *)
Definition orElse {A} (inj : string -> A) (a : option string) (b : A) : A :=
  match a with
  | Some s => if truthy s then inj s else b
  | None => b
  end.

Definition dropWhile (f : ascii -> bool) : string -> string :=
  fix go (s : string) : string :=
    match s with
    | EmptyString => s
    | String c s' => if f c then go s' else s
    end.

(** The regular expression [/--port\s+\d+/] tried at the start of [s]:
    the rest of [s] after the match, if it matches there.  Both
    quantifiers are greedy and white space and digits are disjoint, so the
    match is the longest run of each. *)
Definition matchPortAt (s : string) : option string :=
  if startsWith s "--port" then
    let afterName := drop 6 s in
    let afterSpace := dropWhile isSpace afterName in
    if (String.length afterSpace <? String.length afterName)%nat then
      let afterDigits := dropWhile isDigit afterSpace in
      if (String.length afterDigits <? String.length afterSpace)%nat
      then Some afterDigits
      else None
    else None
  else None.

(** [s.replace(/--port\s+\d+/, replacement)]: the leftmost match only.
    The replacement is [--port] and a number, so it holds no [$] pattern. *)
Fixpoint replacePort (s : string) (replacement : string) : string :=
  match matchPortAt s with
  | Some rest => (replacement ++ rest)%string
  | None =>
      match s with
      | EmptyString => EmptyString
      | String c s' => String c (replacePort s' replacement)
      end
  end.

Record EnvValues := mkEnv {
  gatewayUrl : string;
  gatewayToken : string;
  gatewayPassword : string
}.

Record BootstrapConfig := mkConfig {
  projectName : string;
  envValues : EnvValues;
  port : number;
  autoStart : bool
}.

Inductive projectMode := monorepo | single.

(** The [lines] array of [writeEnvFile] *)
Definition envLines (env : EnvValues) : list string :=
  let lines :=
    [("CLAWDBOT_GATEWAY_URL=" ++ gatewayUrl env)%string;
     ("CLAWDBOT_GATEWAY_TOKEN=" ++ gatewayToken env)%string] in
  if (0 <? String.length (gatewayPassword env))%nat
  then lines ++ [("CLAWDBOT_GATEWAY_PASSWORD=" ++ gatewayPassword env)%string]
  else lines.

(** The text [writeEnvFile] hands to [fs.writeFileSync] *)
Definition envFileText (env : EnvValues) : string :=
  (join nl (envLines env) ++ nl)%string.

Section WithHost.
Context {H : Host}.

(** [path.resolve(__dirname, '..', '..', '..')] *)
Definition LOCAL_TEMPLATE_ROOT : path :=
  removelast (removelast (removelast scriptDir)).

(** [`${port}`] *)
Definition numberToString (x : number) : string :=
  toStringWith numberToStringOther x.

(** Lines 274-281 of [setDevPort]: the new value of [scripts.dev] *)
Definition patchDevScript (dev : string) (port : number) : string :=
  if includes dev "--port"
  then replacePort dev ("--port " ++ numberToString port)
  else (dev ++ " --port " ++ numberToString port)%string.

Definition printBanner : M unit :=
  writeStdout ("              ▄▄          ▄▄               " ++ nl) ;;
  writeStdout ("              ██          ██               " ++ nl) ;;
  writeStdout ("██   ██ ▄█▀█▄ ████▄ ▄████ ██  ▀▀█▄ ██   ██ " ++ nl) ;;
  writeStdout ("██ █ ██ ██▄█▀ ██ ██ ██    ██ ▄█▀██ ██ █ ██ " ++ nl) ;;
  writeStdout (" ██▀██  ▀█▄▄▄ ████▀ ▀████ ██ ▀█▄██  ██▀██ " ++ nl ++ nl) ;;
  writeStdout ("Fast web client for OpenClaw" ++ nl) ;;
  writeStdout ("https://webclaw.dev/" ++ nl ++ nl).

Definition printHelp : M unit :=
  writeStdout ("webclaw CLI" ++ nl ++ nl) ;;
  writeStdout ("Usage:" ++ nl) ;;
  writeStdout ("  webclaw                 Create and start a new project" ++ nl) ;;
  writeStdout ("  webclaw init [dir]      Initialize a new project (legacy)" ++ nl) ;;
  writeStdout ("  webclaw dev             Run development server" ++ nl) ;;
  writeStdout ("  webclaw build           Build project" ++ nl) ;;
  writeStdout ("  webclaw preview         Preview production build" ++ nl) ;;
  writeStdout ("  webclaw test            Run tests" ++ nl) ;;
  writeStdout ("  webclaw lint            Run lint" ++ nl) ;;
  writeStdout ("  webclaw doctor          Validate local setup" ++ nl) ;;
  writeStdout (nl ++ "Options:" ++ nl) ;;
  writeStdout ("  --project-name <name>   Project directory name" ++ nl) ;;
  writeStdout ("  --gateway-url <url>     CLAWDBOT_GATEWAY_URL value" ++ nl) ;;
  writeStdout ("  --gateway-token <token> CLAWDBOT_GATEWAY_TOKEN value" ++ nl) ;;
  writeStdout ("  --gateway-password <pw> CLAWDBOT_GATEWAY_PASSWORD value" ++ nl) ;;
  writeStdout ("  --port <port>           Dev server port" ++ nl) ;;
  writeStdout ("  --yes                   Accept defaults (non-interactive)" ++ nl) ;;
  writeStdout ("  --no-start              Do not auto-run install + dev" ++ nl) ;;
  writeStdout ("  --force                 Allow init in non-empty directory" ++ nl) ;;
  writeStdout ("  --skip-env              Skip .env.local setup prompts" ++ nl) ;;
  writeStdout ("  -h, --help              Show help" ++ nl).

(** [spawnSync(command, args, { cwd })] *)
Definition spawnSync (command : string) (args : list string) (dir : path)
  : M SpawnResult :=
  logCall (SpawnCall command args dir) ;;
  fun w =>
    let '(r, n) := runChild command args dir (fs w) in (Ret r, withFs n w).

Definition runCommand (command : string) (args : list string) (dir : path)
  : M unit :=
  result <- spawnSync command args dir ;;
  match spawnError result with
  | Some e => throw e
  | None =>
      match spawnStatus result with
      | Some status => if negb (status =? 0) then exit status else ret tt
      | None => ret tt
      end
  end.

Definition detectPackageManager (dir : path) : M string :=
  pnpm <- existsSync (join1 dir "pnpm-lock.yaml") ;;
  if pnpm then ret "pnpm"
  else
    yarn <- existsSync (join1 dir "yarn.lock") ;;
    if yarn then ret "yarn" else ret "npm".

Definition detectProjectRoot (dir : path) : M (option (projectMode * path)) :=
  let appDir := join1 (join1 dir "apps") "webclaw" in
  let appPackage := join1 appDir "package.json" in
  inApp <- existsSync appPackage ;;
  if inApp then ret (Some (monorepo, appDir))
  else
    let packagePath := join1 dir "package.json" in
    atRoot <- existsSync packagePath ;;
    if atRoot then ret (Some (single, dir)) else ret None.

Definition runProjectScript (scriptName : string) : M unit :=
  detected <- detectProjectRoot cwd ;;
  match detected with
  | None =>
      writeStderr ("No WebClaw project found in this directory. Run `npx webclaw` first." ++ nl) ;;
      exit 1
  | Some (mode, appDir) =>
      packageManager <- detectPackageManager cwd ;;
      match mode with
      | monorepo =>
          if String.eqb packageManager "pnpm"
          then runCommand "pnpm" ["-C"; "apps/webclaw"; scriptName] cwd
          else runCommand packageManager ["run"; scriptName] appDir
      | single => runCommand packageManager ["run"; scriptName] appDir
      end
  end.

Definition ensureDir (targetDir : path) : M unit :=
  present <- existsSync targetDir ;;
  if negb present then mkdirSync targetDir else ret tt.

(** The entry names [copyDir] skips *)
Definition copySkipped (name : string) : bool :=
  existsb (String.eqb name)
    ["node_modules"; ".git"; ".env.local"; ".openclaw"; ".webclaw";
     ".tanstack"; ".DS_Store"].

(** [copyDir] re-reads the file system at every level while it writes to
    it, so its recursion is bounded by [fuel] here. *)
Fixpoint copyDir (fuel : nat) (sourceDir targetDir : path) : M unit :=
  match fuel with
  | O => fun w => (OutOfFuel, w)
  | S fuel' =>
      ensureDir targetDir ;;
      entries <- readdirTypesSync sourceDir ;;
      forEach entries (fun entry =>
        let '(name, isDir) := entry in
        if copySkipped name then ret tt
        else
          let sourcePath := join1 sourceDir name in
          let targetPath := join1 targetDir name in
          if isDir then copyDir fuel' sourcePath targetPath
          else copyFileSync sourcePath targetPath)
  end.

Definition isDirEmpty (targetDir : path) : M bool :=
  present <- existsSync targetDir ;;
  if negb present then ret true
  else
    names <- readdirSync targetDir ;;
    let files :=
      List.filter
        (fun file => negb (String.eqb file ".DS_Store")
                     && negb (String.eqb file ".git")) names in
    ret (Nat.eqb (length files) 0).

Definition cloneRepo (targetDir : path) : M unit :=
  runCommand "git" ["clone"; "--depth"; "1"; REPO_URL; toString targetDir] cwd.

Definition getLocalTemplateSource : M (option path) :=
  let rootPackage := join1 LOCAL_TEMPLATE_ROOT "package.json" in
  let appPackage :=
    join1 (join1 (join1 LOCAL_TEMPLATE_ROOT "apps") "webclaw") "package.json" in
  hasRoot <- existsSync rootPackage ;;
  hasApp <- (if hasRoot then existsSync appPackage else ret false) ;;
  if negb hasRoot || negb hasApp then ret None
  else ret (Some LOCAL_TEMPLATE_ROOT).

(** [fs.mkdtempSync(prefix)]: a fresh directory whose name is the last
    segment of [prefix] followed by a random suffix *)
Definition mkdtempSync (prefix : path) : M path :=
  fun w =>
    let created :=
      match unsnoc prefix with
      | Some (parent, stem) => parent ++ [(stem ++ mkdtempSuffix (fs w))%string]
      | None => []
      end in
    (mutate (MkdtempCall prefix) "mkdtemp" created (mkdir1 created) ;;
     ret created) w.

Definition populateTemplate (fuel : nat) (targetDir : path)
    (isCurrentDir : bool) : M unit :=
  localTemplateSource <- getLocalTemplateSource ;;
  match localTemplateSource with
  | Some source =>
      if negb isCurrentDir then copyDir fuel source targetDir
      else copyDir fuel source targetDir
  | None =>
      if negb isCurrentDir then cloneRepo targetDir
      else
        tempRoot <- mkdtempSync (join1 tmpdir "webclaw-") ;;
        let tempCloneDir := join1 tempRoot "repo" in
        cloneRepo tempCloneDir ;;
        copyDir fuel tempCloneDir targetDir ;;
        rmSync tempRoot
  end.

Definition ensureGitRepository (targetDir : path) : M unit :=
  hasGit <- existsSync (join1 targetDir ".git") ;;
  if hasGit then ret tt
  else
    result <- spawnSync "git" ["init"] targetDir ;;
    match spawnStatus result with
    | Some 0 => writeStdout ("Initialized git repository" ++ nl)
    | _ => ret tt
    end.

Definition resolveEnvFile (targetDir : path) : M path :=
  let monorepoEnv :=
    join1 (join1 (join1 targetDir "apps") "webclaw") ".env.local" in
  nested <- existsSync (join1 (join1 targetDir "apps") "webclaw") ;;
  if nested then ret monorepoEnv else ret (join1 targetDir ".env.local").

(** [rl.question(q)]: the prompt goes to the output stream, the answer is
    the next line the terminal delivers. *)
Definition rlQuestion (q : string) : M string :=
  writeStdout q ;;
  fun w =>
    (readAnswer (asked w) q,
     mkWorld (fs w) (stdout w) (stderr w) (calls w) (S (asked w))).

(** [rl.close()] *)
Definition rlClose : M unit := ret tt.

Definition askQuestion (question : string) : M string :=
  answer <- rlQuestion question ;; ret (trim answer).

Definition setProp (o : json) (k : string) (v : json) : json :=
  match o with
  | JObject fields => JObject (setField k v fields)
  | _ => o
  end.

Definition setDevPort (targetDir : path) (port : number) : M unit :=
  nested <- existsSync (join1 (join1 targetDir "apps") "webclaw") ;;
  let appPackagePath :=
    if nested
    then join1 (join1 (join1 targetDir "apps") "webclaw") "package.json"
    else join1 targetDir "package.json" in
  present <- existsSync appPackagePath ;;
  if negb present then ret tt
  else
    text <- readFileSync appPackagePath ;;
    match JSON_parse text with
    | inl e => throw e
    | inr JNull =>
        throw (TypeError "Cannot read properties of null (reading 'scripts')")
    | inr packageJson =>
        let scripts := getProp packageJson "scripts" in
        if negb (isTruthy scripts) then ret tt
        else
          match scripts with
          | Some (JObject fields) =>
              match getField "dev" fields with
              | Some (JString dev) =>
                  let scripts' :=
                    JObject (setField "dev"
                               (JString (patchDevScript dev port)) fields) in
                  writeFileSync appPackagePath
                    (JSON_stringify (setProp packageJson "scripts" scripts')
                     ++ nl)
              | _ => ret tt
              end
          | _ => ret tt
          end
    end.

Definition writeEnvFile (targetDir : path) (env : EnvValues) : M unit :=
  envFile <- resolveEnvFile targetDir ;;
  ensureDir (dirname envFile) ;;
  writeFileSync envFile (envFileText env) ;;
  writeStdout ("Wrote " ++ toString envFile ++ nl ++ nl).

Definition isYes (answer : string) : bool :=
  String.eqb (toLowerCase answer) "y" || String.eqb (toLowerCase answer) "yes".

Definition maybeSetupEnv (targetDir : path) (options : gset string)
    (env : option EnvValues) : M unit :=
  if bool_decide ("--skip-env" ∈ options) then ret tt
  else
    match env with
    | Some values => writeEnvFile targetDir values
    | None =>
        if negb stdinIsTTY || negb stdoutIsTTY then ret tt
        else
          envFile <- resolveEnvFile targetDir ;;
          finally
            (createAnswer <- askQuestion
               ("Create " ++ toString envFile ++ " now? [Y/n]: ") ;;
             let shouldCreate :=
               Nat.eqb (String.length createAnswer) 0 || isYes createAnswer in
             if negb shouldCreate then
               writeStdout
                 ("Skipping env file. Create it later at " ++ toString envFile
                  ++ " with:" ++ nl ++ "CLAWDBOT_GATEWAY_URL=..." ++ nl
                  ++ "CLAWDBOT_GATEWAY_TOKEN=..." ++ nl ++ nl)
             else
               present <- existsSync envFile ;;
               keep <-
                 (if present then
                    overwriteAnswer <- askQuestion
                      (toString envFile ++ " already exists. Overwrite? [y/N]: ") ;;
                    if negb (isYes overwriteAnswer) then
                      writeStdout ("Keeping existing " ++ toString envFile
                                   ++ nl ++ nl) ;;
                      ret true
                    else ret false
                  else ret false) ;;
               if keep then ret tt
               else
                 url <- askQuestion "CLAWDBOT_GATEWAY_URL: " ;;
                 token <- askQuestion "CLAWDBOT_GATEWAY_TOKEN: " ;;
                 writeEnvFile targetDir (mkEnv url token ""))
            rlClose
    end.

Definition installDependencies (targetDir : path) : M unit :=
  packageManager <- detectPackageManager targetDir ;;
  if String.eqb packageManager "yarn"
  then runCommand "yarn" ["install"] targetDir
  else runCommand packageManager ["install"] targetDir.

Definition startProject (targetDir : path) : M unit :=
  packageManager <- detectPackageManager targetDir ;;
  runCommand packageManager ["run"; "dev"] targetDir.

(** Lines 403-408 of [initProject]: the forced clean-up of the target *)
Definition clearTarget (targetDir : path) : M unit :=
  entries <- readdirSync targetDir ;;
  forEach entries (fun entry =>
    if String.eqb entry ".git" then ret tt
    else rmSync (join1 targetDir entry)).

(** Lines 414-436 of [initProject]: what follows the template step *)
Definition finishInit (targetDir : path) (options : gset string)
    (bootstrapConfig : option BootstrapConfig) : M unit :=
  ensureGitRepository targetDir ;;
  match bootstrapConfig with
  | Some config => setDevPort targetDir (port config)
  | None => ret tt
  end ;;
  maybeSetupEnv targetDir options (option_map envValues bootstrapConfig) ;;
  writeStdout (nl ++ "WebClaw project created at " ++ toString targetDir
               ++ nl ++ nl) ;;
  let nextSteps :=
    writeStdout ("Next steps:" ++ nl) ;;
    writeStdout
      ("  cd " ++ (let r := relative cwd targetDir in
                   if truthy r then r else ".") ++ nl) ;;
    writeStdout ("  pnpm install" ++ nl) ;;
    writeStdout ("  pnpm dev" ++ nl ++ nl) in
  match bootstrapConfig with
  | Some config =>
      if autoStart config then
        writeStdout ("Installing dependencies..." ++ nl) ;;
        installDependencies targetDir ;;
        writeStdout ("Starting WebClaw on port " ++ numberToString (port config)
                     ++ "..." ++ nl ++ nl) ;;
        startProject targetDir
      else nextSteps
  | None => nextSteps
  end.

(** Lines 410-436 of [initProject]: the template step (lines 410-412) and
    what follows it *)
Definition provision (fuel : nat) (targetDir : path) (isCurrentDir : bool)
    (options : gset string) (bootstrapConfig : option BootstrapConfig)
  : M unit :=
  hasGit <- existsSync (join1 targetDir ".git") ;;
  empty <- (if negb hasGit then isDirEmpty targetDir else ret false) ;;
  when (negb hasGit && empty) (populateTemplate fuel targetDir isCurrentDir) ;;
  finishInit targetDir options bootstrapConfig.

(** The two guard messages of [initProject] *)
Definition notEmptyMessage (targetDir : path) : string :=
  ("Target directory is not empty. Use --force to continue: "
   ++ toString targetDir ++ nl)%string.

Definition refuseCwdMessage : string :=
  ("Refusing to overwrite current directory. Use an empty directory for init."
   ++ nl)%string.

Definition initProject (fuel : nat) (rawTarget : option string)
    (options : gset string) (bootstrapConfig : option BootstrapConfig)
  : M unit :=
  when (match bootstrapConfig with None => true | Some _ => false end)
    printBanner ;;
  let targetDir :=
    resolve cwd (match rawTarget with Some t => t | None => "." end) in
  let force := bool_decide ("--force" ∈ options) in
  let isCurrentDir := Path.eqb targetDir cwd in
  ensureDir targetDir ;;
  blocked <- (if negb force
              then empty <- isDirEmpty targetDir ;; ret (negb empty)
              else ret false) ;;
  if blocked then writeStderr (notEmptyMessage targetDir) ;; exit 1
  else
    refused <- (if force
                then empty <- isDirEmpty targetDir ;;
                     ret (negb empty && isCurrentDir)
                else ret false) ;;
    if refused then writeStderr refuseCwdMessage ;; exit 1
    else
      clearing <- (if force
                   then empty <- isDirEmpty targetDir ;;
                        ret (negb empty && negb isCurrentDir)
                   else ret false) ;;
      when clearing (clearTarget targetDir) ;;
      provision fuel targetDir isCurrentDir options bootstrapConfig.

Definition askBootstrapConfig (defaultProjectName : option string)
    (parsedArgs : ParsedArgs) : M BootstrapConfig :=
  let nonInteractive :=
    bool_decide ("--yes" ∈ flags parsedArgs)
    || negb stdinIsTTY || negb stdoutIsTTY in
  let initialProjectName :=
    orElse id (values parsedArgs !! "--project-name")
      (orElse id defaultProjectName "webclaw") in
  let initialGatewayUrl :=
    orElse id (values parsedArgs !! "--gateway-url") "ws://127.0.0.1:18789" in
  let initialGatewayToken :=
    orElse id (values parsedArgs !! "--gateway-token") "" in
  let initialGatewayPassword :=
    orElse id (values parsedArgs !! "--gateway-password") "" in
  let initialPort :=
    parsePort (orElse VString (values parsedArgs !! "--port")
                 (VNumber (ofZ 3000))) (ofZ 3000) in
  let autoStart := negb (bool_decide ("--no-start" ∈ flags parsedArgs)) in
  if nonInteractive then
    ret (mkConfig initialProjectName
           (mkEnv initialGatewayUrl initialGatewayToken initialGatewayPassword)
           initialPort autoStart)
  else
    finally
      (projectNameInput <- askQuestion
         ("Project name [" ++ initialProjectName ++ "]: ") ;;
       let projectName := orElse id (Some projectNameInput) initialProjectName in
       gatewayUrlInput <- askQuestion
         ("CLAWDBOT_GATEWAY_URL [" ++ initialGatewayUrl ++ "]: ") ;;
       let gatewayUrl := orElse id (Some gatewayUrlInput) initialGatewayUrl in
       gatewayTokenInput <- askQuestion "CLAWDBOT_GATEWAY_TOKEN (optional): " ;;
       gatewayPasswordInput <- askQuestion
         "CLAWDBOT_GATEWAY_PASSWORD (optional): " ;;
       portInput <- askQuestion
         ("Port [" ++ numberToString initialPort ++ "]: ") ;;
       let port :=
         parsePort (orElse VString (Some portInput) (VNumber initialPort))
           initialPort in
       ret (mkConfig projectName
              (mkEnv gatewayUrl
                 (orElse id (Some gatewayTokenInput) initialGatewayToken)
                 (orElse id (Some gatewayPasswordInput) initialGatewayPassword))
              port autoStart))
      rlClose.

Definition doctor : M unit :=
  let nodeMajor :=
    Number (orElse VString (head (split "." nodeVersion)) (VNumber (ofZ 0))) in
  result <- spawnSync "pnpm" ["--version"] cwd ;;
  let hasPnpm := match spawnStatus result with Some 0 => true | _ => false end in
  let issues :=
    (if lt nodeMajor (ofZ 20) then ["Node.js >= 20 is required."] else [])
    ++ (if negb hasPnpm
        then ["pnpm is recommended but was not found in PATH."] else []) in
  match issues with
  | [] => writeStdout ("Environment looks good." ++ nl)
  | _ =>
      forEach issues (fun issue => writeStderr ("- " ++ issue ++ nl)) ;;
      exit 1
  end.

Definition isProjectScript (command : string) : bool :=
  existsb (String.eqb command) ["dev"; "build"; "preview"; "test"; "lint"].

Definition main (fuel : nat) (args : list string) : M unit :=
  let parsedArgs := parseCliArgs args in
  let options := flags parsedArgs in
  let command := orElse Some (head (positionals parsedArgs)) None in
  if bool_decide ("-h" ∈ options) || bool_decide ("--help" ∈ options)
  then printHelp
  else
    match command with
    | None =>
        printBanner ;;
        bootstrapConfig <- askBootstrapConfig None parsedArgs ;;
        initProject fuel (Some (projectName bootstrapConfig)) options
          (Some bootstrapConfig)
    | Some command =>
        if String.eqb command "init" then
          initProject fuel (positionals parsedArgs !! 1%nat) options None
        else if String.eqb command "doctor" then doctor
        else if isProjectScript command then runProjectScript command
        else
          writeStderr ("Unknown command: " ++ command ++ nl ++ nl) ;;
          printHelp ;;
          exit 1
    end.

(** [main().catch(...)]: an error that reaches the top is printed and the
    process exits with status 1. *)
Definition program (fuel : nat) (args : list string) : M unit :=
  fun w =>
    match main fuel args w with
    | (Throw error, w') => (writeStderr (errorMessage error ++ nl) ;; exit 1) w'
    | r => r
    end.

End WithHost.
End Script.

(** ** Vocabulary of the statements *)
Module Spec.
Import Script.
Import JsString JsNumber Json Cli Port.
Local Open Scope script_scope.

(** The entry names [isDirEmpty] does not count *)
Definition ignoredName (name : string) : bool :=
  String.eqb name ".DS_Store" || String.eqb name ".git".

(** [c] occurs in [s] *)
Fixpoint hasChar (c : ascii) (s : string) : bool :=
  match s with
  | EmptyString => false
  | String d s' => Ascii.eqb d c || hasChar c s'
  end.

(** The directory [writeEnvFile] writes into *)
Definition envDirOf (targetDir : path) (root : node) : path :=
  match lookup (join1 (join1 targetDir "apps") "webclaw") root with
  | Some _ => join1 (join1 targetDir "apps") "webclaw"
  | None => targetDir
  end.

(** What [printBanner] writes *)
Definition bannerLines : list string :=
  [("              ▄▄          ▄▄               " ++ nl)%string;
   ("              ██          ██               " ++ nl)%string;
   ("██   ██ ▄█▀█▄ ████▄ ▄████ ██  ▀▀█▄ ██   ██ " ++ nl)%string;
   ("██ █ ██ ██▄█▀ ██ ██ ██    ██ ▄█▀██ ██ █ ██ " ++ nl)%string;
   (" ██▀██  ▀█▄▄▄ ████▀ ▀████ ██ ▀█▄██  ██▀██ " ++ nl ++ nl)%string;
   ("Fast web client for OpenClaw" ++ nl)%string;
   ("https://webclaw.dev/" ++ nl ++ nl)%string].

(** What [initProject] writes before it looks at the target: the banner,
    unless a bootstrap configuration was handed in. *)
Definition bannerOutput (bootstrapConfig : option BootstrapConfig)
  : list string :=
  match bootstrapConfig with
  | None => bannerLines
  | Some _ => []
  end.

(** The manifest [setDevPort] patches *)
Definition manifestPathOf (targetDir : path) (root : node) : path :=
  match lookup (join1 (join1 targetDir "apps") "webclaw") root with
  | Some _ => join1 (join1 (join1 targetDir "apps") "webclaw") "package.json"
  | None => join1 targetDir "package.json"
  end.

(** [/--port\s+\d+/.test(s)] *)
Fixpoint hasPortMatch (s : string) : bool :=
  match matchPortAt s with
  | Some _ => true
  | None =>
      match s with
      | EmptyString => false
      | String _ s' => hasPortMatch s'
      end
  end.

(** The dev script of a parsed manifest, when it is a string *)
Definition devScriptOf (packageJson : json) : option string :=
  if isTruthy (getProp packageJson "scripts") then
    match getProp packageJson "scripts" with
    | Some scripts =>
        match getProp scripts "dev" with
        | Some (JString dev) => Some dev
        | _ => None
        end
    | None => None
    end
  else None.

(** The world once [initProject] has written its banner *)
Definition afterBanner (bootstrapConfig : option BootstrapConfig) (w : world)
  : world :=
  mkWorld (fs w) (stdout w ++ bannerOutput bootstrapConfig) (stderr w)
    (calls w) (asked w).

(** The target [initProject] resolves from its first argument *)
Definition targetOf {H : Host} (rawTarget : option string) : path :=
  resolve cwd (match rawTarget with Some t => t | None => "." end).



(** The invocation repeated [times] times, each run starting from the
    world the previous one left: the outcomes in order, and the last
    world. *)
Fixpoint repeatInit {H : Host} (times fuel : nat) (rawTarget : option string)
    (options : gset string) (bootstrapConfig : option BootstrapConfig)
    (w : world) : list (outcome unit) * world :=
  match times with
  | O => ([], w)
  | S times' =>
      let '(o, w1) := initProject fuel rawTarget options bootstrapConfig w in
      let '(os, w2) :=
        repeatInit times' fuel rawTarget options bootstrapConfig w1 in
      (o :: os, w2)
  end.

Definition notRm (c : call) : Prop :=
  match c with
  | RmCall _ => False
  | _ => True
  end.

(** A computation that never calls [fs.rmSync]: whatever the world, the
    calls it adds to the log hold no removal. *)
Definition rmFree {A} (m : M A) : Prop :=
  forall w, exists delta,
    calls (snd (m w)) = calls w ++ delta /\ Forall notRm delta.

(** [x] is the integer [n] *)
Definition denotes (x : number) (n : Z) : Prop :=
  match x with
  | Finite q => q == inject_Z n
  | _ => False
  end.

(** The decimal numeral of [n], with a leading [-] when negative *)
Definition decimal (n : Z) : string :=
  NilZero.string_of_int (Z.to_int n).

Definition sameNumber (x y : number) : bool :=
  match x, y with
  | NaN, NaN => true
  | Infinity a, Infinity b => Bool.eqb a b
  | Finite p, Finite q => Z.eqb (Qnum p) (Qnum q) && Pos.eqb (Qden p) (Qden q)
  | _, _ => false
  end.

(** The integers from [lo] on, [count] of them *)
Fixpoint zrangeFrom (lo : Z) (count : nat) : list Z :=
  match count with
  | O => []
  | S count' => lo :: zrangeFrom (lo + 1) count'
  end.

Definition zrange (lo count : Z) : list Z := zrangeFrom lo (Z.to_nat count).

End Spec.

(** ** Concrete hosts and worlds, for the examples *)
Module Demo.
Import Script.
Import JsString JsNumber Json Cli Port.
Local Open Scope script_scope.

Definition quote (s : string) : string :=
  (String "034"%char s ++ String "034"%char EmptyString)%string.

(** A printer in the layout of [JSON.stringify(v, null, 2)], for values
    built from objects and plain strings. *)
Fixpoint stringify (indent : string) (v : json) : string :=
  match v with
  | JNull => "null"
  | JBool b => if b then "true" else "false"
  | JNumber _ => "0"
  | JString s => quote s
  | JArray _ => "[]"
  | JObject fields =>
      let inner := ("  " ++ indent)%string in
      let fix go (l : list (string * json)) : string :=
        match l with
        | [] => EmptyString
        | (k, x) :: rest =>
            (inner ++ quote k ++ ": " ++ stringify inner x
             ++ match rest with [] => "" | _ => "," end ++ nl ++ go rest)%string
        end in
      ("{" ++ nl ++ go fields ++ indent ++ "}")%string
  end.

Definition manifestWith (dev : string) : json :=
  JObject [("name", JString "webclaw");
           ("scripts", JObject [("dev", JString dev);
                                ("build", JString "vite build")])].

(** Two manifests a template can carry: the port given as a separate
    word, and the port given in [--port=N] form. *)
Definition manifestSpaced : json := manifestWith "vite dev --port 3000".
Definition manifestEquals : json := manifestWith "vite dev --port=3000".

Definition manifestText (v : json) : string :=
  (stringify "" v ++ nl)%string.

Definition parseTable (text : string) : error + json :=
  if String.eqb text (manifestText manifestSpaced) then inr manifestSpaced
  else if String.eqb text (manifestText manifestEquals) then inr manifestEquals
  else inl (SyntaxError "Unexpected token in JSON").

(** The child processes of the examples.  [git clone] leaves a small
    project at the path it is given, [git init] leaves a [.git] directory;
    with [killed] every child dies of a signal before it does anything
    (no [error], [status] is [null]). *)
Definition childOf (killed : bool) (manifest : json)
    (command : string) (args : list string) (dir : path) (n : node)
  : SpawnResult * node :=
  if killed then (mkSpawn None None, n)
  else if String.eqb command "git" then
    match args with
    | ["init"] =>
        match mkdirp (join1 dir ".git") n with
        | Ok n' => (mkSpawn None (Some 0), n')
        | Err _ => (mkSpawn None (Some 128), n)
        end
    | [_; _; _; _; target] =>
        let p := resolve dir target in
        match mkdirp (join1 p ".git") n with
        | Ok n1 =>
            match putFile (join1 p "package.json") (manifestText manifest) n1 with
            | Ok n2 => (mkSpawn None (Some 0), n2)
            | Err _ => (mkSpawn None (Some 128), n)
            end
        | Err _ => (mkSpawn None (Some 128), n)
        end
    | _ => (mkSpawn None (Some 0), n)
    end
  else (mkSpawn None (Some 0), n).

Definition hostOf (killed : bool) (manifest : json) : Host := {|
  cwd := ["work"];
  tmpdir := ["tmp"];
  scriptDir := ["opt"; "node_modules"; "webclaw"; "bin"];
  stdinIsTTY := false;
  stdoutIsTTY := false;
  nodeVersion := "22.4.0";
  runChild := childOf killed manifest;
  mkdtempSuffix := fun _ => "Ab3xYz";
  readAnswer := fun _ _ => Ret "";
  JSON_parse := parseTable;
  JSON_stringify := stringify "";
  numberToStringOther := fun _ => "NaN"
|}.

(** Children run to completion; the template's dev script is
    [vite dev --port 3000]. *)
Definition happyHost : Host := hostOf false manifestSpaced.

(** Children run to completion; the template's dev script is
    [vite dev --port=3000]. *)
Definition equalsHost : Host := hostOf false manifestEquals.

(** Every child is killed by a signal. *)
Definition killedHost : Host := hostOf true manifestSpaced.

Definition worldOf (root : node) : world := mkWorld root [] [] [] 0.

(** [/tmp] and an empty [/work] *)
Definition emptyWork : world :=
  worldOf (Dir [("tmp", Dir []); ("work", Dir [])]).


(** [/work/demo] holds files of an earlier project and no repository. *)
Definition staleDemo : world :=
  worldOf (Dir [("tmp", Dir []);
                ("work", Dir [("demo", Dir [("old.txt", File "old");
                                            ("notes", Dir [("a", File "x")])])])]).

(** [/work] itself holds a file. *)
Definition usedWork : world :=
  worldOf (Dir [("tmp", Dir []); ("work", Dir [("old.txt", File "old")])]).

(** [/work] holds a directory under the name of a file of the template. *)
Definition conflictWork : world :=
  worldOf (Dir [("tmp", Dir []);
                ("work", Dir [("package.json", Dir [])])]).

(** [/work/app] is a project with a manifest. *)
Definition appWorld (manifest : json) : world :=
  worldOf (Dir [("work", Dir [("app", Dir [("package.json",
                                            File (manifestText manifest))])])]).

End Demo.

(** ** Vocabulary of the further properties *)
Module Laws.
Import Script Spec.
Import JsString JsNumber Json Cli Port.
Local Open Scope script_scope.

(** What [printHelp] writes *)
Definition helpLines : list string :=
  [("webclaw CLI" ++ nl ++ nl)%string;
   ("Usage:" ++ nl)%string;
   ("  webclaw                 Create and start a new project" ++ nl)%string;
   ("  webclaw init [dir]      Initialize a new project (legacy)" ++ nl)%string;
   ("  webclaw dev             Run development server" ++ nl)%string;
   ("  webclaw build           Build project" ++ nl)%string;
   ("  webclaw preview         Preview production build" ++ nl)%string;
   ("  webclaw test            Run tests" ++ nl)%string;
   ("  webclaw lint            Run lint" ++ nl)%string;
   ("  webclaw doctor          Validate local setup" ++ nl)%string;
   (nl ++ "Options:" ++ nl)%string;
   ("  --project-name <name>   Project directory name" ++ nl)%string;
   ("  --gateway-url <url>     CLAWDBOT_GATEWAY_URL value" ++ nl)%string;
   ("  --gateway-token <token> CLAWDBOT_GATEWAY_TOKEN value" ++ nl)%string;
   ("  --gateway-password <pw> CLAWDBOT_GATEWAY_PASSWORD value" ++ nl)%string;
   ("  --port <port>           Dev server port" ++ nl)%string;
   ("  --yes                   Accept defaults (non-interactive)" ++ nl)%string;
   ("  --no-start              Do not auto-run install + dev" ++ nl)%string;
   ("  --force                 Allow init in non-empty directory" ++ nl)%string;
   ("  --skip-env              Skip .env.local setup prompts" ++ nl)%string;
   ("  -h, --help              Show help" ++ nl)%string].

(** The world after writing [lines] to the output stream *)
Definition printed (lines : list string) (w : world) : world :=
  mkWorld (fs w) (stdout w ++ lines) (stderr w) (calls w) (asked w).

(** The world after writing [lines] to the error stream *)
Definition complained (lines : list string) (w : world) : world :=
  mkWorld (fs w) (stdout w) (stderr w ++ lines) (calls w) (asked w).

(** Everything in a parse result comes from the arguments: positionals
    are tokens without a leading dash, flags are dash tokens, and a value
    is bound either by a [--key=value] token or by a value-bearing option
    directly followed by its value. *)
Definition fromArgs (args : list string) (r : ParsedArgs) : Prop :=
  (forall p, In p (positionals r) -> In p args /\ startsWith p "-" = false)
  /\ (forall f, f ∈ flags r -> In f args /\ startsWith f "-" = true)
  /\ (forall k v,
        values r !! k = Some v ->
        startsWith k "--" = true
        /\ (In (k ++ "=" ++ v)%string args
            \/ (isValueOption k = true /\ truthy v = true
                /\ startsWith v "-" = false
                /\ exists pre post, args = pre ++ k :: v :: post))).

(** The world a child process leaves: its file system, and the call in
    the log *)
Definition afterChild {H : Host} (command : string) (args : list string)
    (dir : path) (w : world) : world :=
  mkWorld (snd (runChild command args dir (fs w))) (stdout w) (stderr w)
    (calls w ++ [SpawnCall command args dir]) (asked w).

(** What [detectPackageManager] answers on a file system *)
Definition packageManagerOf (dir : path) (root : node) : string :=
  match lookup (join1 dir "pnpm-lock.yaml") root with
  | Some _ => "pnpm"
  | None =>
      match lookup (join1 dir "yarn.lock") root with
      | Some _ => "yarn"
      | None => "npm"
      end
  end.

Definition noProjectMessage : string :=
  ("No WebClaw project found in this directory. Run `npx webclaw` first."
   ++ nl)%string.

(** Whatever [m] returns satisfies [Q]. *)
Definition yields {A} (m : M A) (Q : A -> Prop) : Prop :=
  forall w a w', m w = (Ret a, w') -> Q a.

(** [x] is an integer between 1 and 65535. *)
Definition validPort (x : number) : Prop :=
  exists n, 1 <= n <= 65535 /\ denotes x n.

(** The configuration the flags and the built-in defaults give, before
    any prompt: lines 442-448 and 451-460 of [askBootstrapConfig] *)
Definition flagConfig (defaultProjectName : option string)
    (parsedArgs : ParsedArgs) : BootstrapConfig :=
  mkConfig
    (orElse id (values parsedArgs !! "--project-name")
       (orElse id defaultProjectName "webclaw"))
    (mkEnv
       (orElse id (values parsedArgs !! "--gateway-url") "ws://127.0.0.1:18789")
       (orElse id (values parsedArgs !! "--gateway-token") "")
       (orElse id (values parsedArgs !! "--gateway-password") ""))
    (parsePort (orElse VString (values parsedArgs !! "--port")
                  (VNumber (ofZ 3000))) (ofZ 3000))
    (negb (bool_decide ("--no-start" ∈ flags parsedArgs))).

(** The world after [questions] were asked and answered *)
Definition asking (questions : list string) (w : world) : world :=
  mkWorld (fs w) (stdout w ++ questions) (stderr w) (calls w)
    (asked w + length questions).

(** A terminal on both streams whose user types the lines [answers], one
    per question, and empty lines after them; child processes behave as on
    [Demo.happyHost]. *)
Definition ttyHost (answers : list string) : Host := {|
  cwd := ["work"];
  tmpdir := ["tmp"];
  scriptDir := ["opt"; "node_modules"; "webclaw"; "bin"];
  stdinIsTTY := true;
  stdoutIsTTY := true;
  nodeVersion := "22.4.0";
  runChild := Demo.childOf false Demo.manifestSpaced;
  mkdtempSuffix := fun _ => "Ab3xYz";
  readAnswer := fun n _ => Ret (nth n answers "");
  JSON_parse := Demo.parseTable;
  JSON_stringify := Demo.stringify "";
  numberToStringOther := fun _ => "NaN"
|}.

(** [/work/app] is a project with an env file. *)
Definition envWorld : world :=
  Demo.worldOf
    (Dir [("work", Dir [("app", Dir [(".env.local", File "OLD=1")])])]).

(** Every call [m] adds to the log satisfies [P]. *)
Definition callsAll (P : call -> Prop) {A} (m : M A) : Prop :=
  forall w, exists delta,
    calls (snd (m w)) = calls w ++ delta /\ Forall P delta.

Definition notSkipped (rel : path) : Prop :=
  Forall (fun name => copySkipped name = false) rel.

(** A call of [copyDir sourceDir targetDir]: a directory made, or a file
    copied, at the same relative path under the two roots, no segment of
    which is a skipped name. *)
Definition mirrored (sourceDir targetDir : path) (c : call) : Prop :=
  match c with
  | MkdirCall p => exists rel, p = targetDir ++ rel /\ notSkipped rel
  | CopyFileCall src dst =>
      exists rel,
        rel <> [] /\ src = sourceDir ++ rel /\ dst = targetDir ++ rel
        /\ notSkipped rel
  | _ => False
  end.

(** Whatever exists before still exists after. *)
Definition persists (before after : node) : Prop :=
  forall q, lookup q before <> None -> lookup q after <> None.

(** What [initProject] may remove, seen from the file system [before] it
    started: with [--force], an entry of the target other than [.git]; or
    a path [<tmpdir>/webclaw-<suffix>] that did not exist before. *)
Definition removesOwn {H : Host} (targetDir : path) (force : bool)
    (before : node) (c : call) : Prop :=
  match c with
  | RmCall p =>
      (force = true
       /\ exists entry, entry <> ".git" /\ p = join1 targetDir entry)
      \/ ((exists suffix, p = join1 tmpdir ("webclaw-" ++ suffix)%string)
          /\ lookup p before = None)
  | _ => True
  end.

(** A computation that removes nothing and lets nothing vanish *)
Definition quietly {A} (m : M A) : Prop :=
  forall w,
    (exists delta, calls (snd (m w)) = calls w ++ delta /\ Forall notRm delta)
    /\ persists (fs w) (fs (snd (m w))).

(** Every call [m] adds to the log satisfies [P] of the file system [m]
    started from. *)
Definition callsFrom (P : node -> call -> Prop) {A} (m : M A) : Prop :=
  forall w, exists delta,
    calls (snd (m w)) = calls w ++ delta /\ Forall (P (fs w)) delta.

(** A computation after which every path in [Q] looks up as before *)
Definition leaves (Q : path -> Prop) {A} (m : M A) : Prop :=
  forall w q, Q q -> lookup q (fs (snd (m w))) = lookup q (fs w).

(** Two paths part ways at some segment: neither lies at or under the
    other. *)
Fixpoint apart (p q : path) : bool :=
  match p, q with
  | a :: p', b :: q' => if String.eqb a b then apart p' q' else true
  | _, _ => false
  end.

(** The entries update of [putFile] for the file [name] *)
Definition putEntry (name data : string) (es : list (string * node))
  : result (list (string * node)) :=
  match getEntry name es with
  | Some (Dir _) => Err EISDIR
  | _ => Ok (setEntry name (File data) es)
  end.

(** [p] lies at or under [dir]. *)
Definition under (dir p : path) : Prop := exists rel, p = dir ++ rel.

(** A file-system call of the script names a path inside the target
    directory or the temporary directory: the path it is asked to make,
    write or remove, the destination of a copy, the prefix of [mkdtemp].
    (What a copy reads may lie anywhere; child processes are not calls of
    the script; a recursive [mkdir] also makes the missing ancestors of
    the path it names.) *)
Definition confined {H : Host} (targetDir : path) (c : call) : Prop :=
  match c with
  | MkdirCall p | WriteFileCall p _ | RmCall p =>
      under targetDir p \/ under tmpdir p
  | CopyFileCall _ dst => under targetDir dst \/ under tmpdir dst
  | MkdtempCall prefix => under tmpdir prefix
  | SpawnCall _ _ _ => True
  end.

(** A call that starts no child process *)
Definition notSpawn (c : call) : Prop :=
  match c with
  | SpawnCall _ _ _ => False
  | _ => True
  end.

(** Whether the run ends by installing and starting the project *)
Definition autoStarts (bootstrapConfig : option BootstrapConfig) : bool :=
  match bootstrapConfig with
  | Some config => autoStart config
  | None => false
  end.

(** A child process [initProject] may start: the clone of the template
    from the current directory, [git init] in the target, and, when the
    run ends by starting the project, the package manager's [install] and
    [run dev] in the target. *)
Definition startsChild {H : Host} (targetDir : path) (auto : bool) (c : call)
  : Prop :=
  match c with
  | SpawnCall command args dir =>
      (command = "git" /\ dir = cwd
       /\ exists dest, args = ["clone"; "--depth"; "1"; REPO_URL; dest])
      \/ (command = "git" /\ dir = targetDir /\ args = ["init"])
      \/ (auto = true /\ dir = targetDir
          /\ In command ["pnpm"; "yarn"; "npm"]
          /\ (args = ["install"] \/ args = ["run"; "dev"]))
  | _ => True
  end.

(** Every character of [s] is a decimal digit. *)
Fixpoint allDigits (s : string) : bool :=
  match s with
  | EmptyString => true
  | String c s' => isDigit c && allDigits s'
  end.

(** What a finished copy from [sourceDir] to [targetDir] has done to the
    file system: every file of the source at a relative path without a
    skipped segment stands at that path under the target with the same
    content, and every file outside the target still stands with its
    content. *)
Definition copied (sourceDir targetDir : path) (before after : node) : Prop :=
  (forall rel data,
     notSkipped rel ->
     lookup (sourceDir ++ rel) before = Some (File data) ->
     lookup (targetDir ++ rel) after = Some (File data))
  /\ (forall q data,
        (forall rel, q <> targetDir ++ rel) ->
        lookup q before = Some (File data) ->
        lookup q after = Some (File data)).

(** The number of directory levels of a tree *)
Fixpoint height (n : node) : nat :=
  match n with
  | File _ => 0%nat
  | Dir es =>
      S ((fix go (l : list (string * node)) : nat :=
            match l with
            | [] => 0%nat
            | (_, c) :: l' => Nat.max (height c) (go l')
            end) es)
  end.

(** No directory of the tree holds a name twice. *)
Fixpoint tidy (n : node) : bool :=
  match n with
  | File _ => true
  | Dir es =>
      (fix go (l : list (string * node)) : bool :=
         match l with
         | [] => true
         | (k, c) :: l' =>
             negb (existsb (String.eqb k) (List.map fst l')) && tidy c && go l'
         end) es
  end.

(** The names of a directory listing that [copyDir] does not skip *)
Definition copiedNames (es : list (string * node)) : list string :=
  List.filter (fun name => negb (copySkipped name)) (List.map fst es).

(** The target can take the entries [names]: it is a directory that holds
    none of them, or it does not exist and its parent is a directory. *)
Definition receives (targetDir : path) (names : list string) (n : node)
  : Prop :=
  match lookup targetDir n with
  | Some (Dir entries) =>
      forall name, In name names -> getEntry name entries = None
  | Some (File _) => False
  | None =>
      exists parent last entries,
        targetDir = parent ++ [last] /\ lookup parent n = Some (Dir entries)
  end.

(** What writing under [targetDir] leaves alone: every path that parts
    ways with the target looks up as before, and every directory is still
    a directory. *)
Definition settled (targetDir : path) (before after : node) : Prop :=
  (forall q, apart q targetDir = true -> lookup q after = lookup q before)
  /\ (forall q entries,
        lookup q before = Some (Dir entries) ->
        exists entries', lookup q after = Some (Dir entries')).

(** A small template under [/src], with entries [copyDir] skips, and a
    target [/dst] that holds a file of its own. *)
Definition templateWorld : world :=
  Demo.worldOf
    (Dir [("src",
           Dir [("README.md", File "hello");
                ("node_modules", Dir [("x.js", File "x")]);
                ("apps",
                 Dir [("webclaw",
                       Dir [("package.json", File "{}");
                            (".env.local", File "SECRET=1")])])]);
          ("dst", Dir [("keep.txt", File "mine")])]).

End Laws.

(** * Properties *)

Import Script Spec.
Import JsString JsNumber Json Cli Port.
Local Open Scope script_scope.

(** ** The monad *)

Lemma bind_ret {A B} (a : A) (k : A -> M B) (w : world) :
  bind (ret a) k w = k a w.
Proof. reflexivity. Qed.

Lemma bind_run {A B} (m : M A) (k : A -> M B) (w w' : world) (a : A) :
  m w = (Ret a, w') -> bind m k w = k a w'.
Proof. intros E. unfold bind. now rewrite E. Qed.

Lemma bind_throw {A B} (m : M A) (k : A -> M B) (w w' : world) (e : error) :
  m w = (Throw e, w') -> bind m k w = (Throw e, w').
Proof. intros E. unfold bind. now rewrite E. Qed.

Lemma bind_exit {A B} (m : M A) (k : A -> M B) (w w' : world) (c : Z) :
  m w = (Exit c, w') -> bind m k w = (Exit c, w').
Proof. intros E. unfold bind. now rewrite E. Qed.

Lemma bind_assoc {A B C} (m : M A) (k : A -> M B) (h : B -> M C) (w : world) :
  bind (bind m k) h w = bind m (fun a => bind (k a) h) w.
Proof. unfold bind. destruct (m w) as [[a| | |] w']; reflexivity. Qed.

(** ** Emptiness check *)

Lemma no_files_forallb (names : list string) :
  Nat.eqb
    (length (List.filter
       (fun file => negb (String.eqb file ".DS_Store")
                    && negb (String.eqb file ".git")) names)) 0
  = forallb ignoredName names.
Proof.
  induction names as [|name names IH]; [reflexivity|].
  cbn [List.filter forallb]. unfold ignoredName at 1.
  destruct (String.eqb name ".DS_Store"), (String.eqb name ".git");
    cbn; try apply IH; reflexivity.
Qed.

Lemma existsSync_run (p : path) (w : world) :
  existsSync p w
  = (Ret (match lookup p (fs w) with Some _ => true | None => false end), w).
Proof. reflexivity. Qed.

Lemma isDirEmpty_missing (targetDir : path) (w : world) :
  lookup targetDir (fs w) = None -> isDirEmpty targetDir w = (Ret true, w).
Proof.
  intros E. unfold isDirEmpty, bind. rewrite existsSync_run, E. reflexivity.
Qed.

Lemma readdirSync_dir (p : path) (w : world) es :
  lookup p (fs w) = Some (Dir es) ->
  readdirSync p w = (Ret (List.map fst es), w).
Proof.
  intros E. unfold readdirSync, readdirTypesSync, bind. rewrite E.
  unfold ret. now rewrite List.map_map.
Qed.

Lemma isDirEmpty_dir (targetDir : path) (w : world) es :
  lookup targetDir (fs w) = Some (Dir es) ->
  isDirEmpty targetDir w = (Ret (forallb ignoredName (List.map fst es)), w).
Proof.
  intros E. unfold isDirEmpty.
  rewrite (bind_run _ _ _ _ _ (existsSync_run _ _)), E. cbn [negb].
  rewrite (bind_run _ _ _ _ _ (readdirSync_dir _ _ _ E)).
  unfold ret. now rewrite no_files_forallb.
Qed.

Lemma forallb_ignored_false (names : list string) (name : string) :
  In name names -> name <> ".git" -> name <> ".DS_Store" ->
  forallb ignoredName names = false.
Proof.
  intros Hin Hgit Hds.
  destruct (forallb ignoredName names) eqn:E; [|reflexivity].
  rewrite forallb_forall in E. specialize (E name Hin).
  unfold ignoredName in E. apply orb_true_iff in E.
  destruct E as [E|E]; apply String.eqb_eq in E; congruence.
Qed.

(** C9. [isDirEmpty] answers [true] for a path that does not exist, [true]
    for a directory whose entries are all called [.git] or [.DS_Store], and
    [false] for a directory that has an entry of any other name; it never
    changes the world. *)
Theorem isDirEmpty_spec (targetDir : path) (w : world) :
  (lookup targetDir (fs w) = None ->
   isDirEmpty targetDir w = (Ret true, w))
  /\ (forall es,
        lookup targetDir (fs w) = Some (Dir es) ->
        (forall name, In name (List.map fst es) ->
                      name = ".git" \/ name = ".DS_Store") ->
        isDirEmpty targetDir w = (Ret true, w))
  /\ (forall es name,
        lookup targetDir (fs w) = Some (Dir es) ->
        In name (List.map fst es) ->
        name <> ".git" -> name <> ".DS_Store" ->
        isDirEmpty targetDir w = (Ret false, w)).
Proof.
  split; [apply isDirEmpty_missing|]. split.
  - intros es E Hall. rewrite (isDirEmpty_dir _ _ _ E).
    replace (forallb ignoredName (List.map fst es)) with true; [reflexivity|].
    symmetry. apply forallb_forall. intros name Hin.
    unfold ignoredName. destruct (Hall name Hin) as [-> | ->]; reflexivity.
  - intros es name E Hin Hgit Hds. rewrite (isDirEmpty_dir _ _ _ E).
    now rewrite (forallb_ignored_false _ name).
Qed.

(** ** Git bootstrapper *)

Section GitBootstrapper.
Context {H : Host}.

Lemma spawnSync_run (command : string) (args : list string) (dir : path)
    (w : world) :
  spawnSync command args dir w
  = (Ret (fst (runChild command args dir (fs w))),
     mkWorld (snd (runChild command args dir (fs w))) (stdout w) (stderr w)
       (calls w ++ [SpawnCall command args dir]) (asked w)).
Proof.
  unfold spawnSync, bind, logCall, withFs. cbn.
  destruct (runChild command args dir (fs w)); reflexivity.
Qed.

(** C10. [ensureGitRepository] does nothing when the target already has a
    [.git] entry.  Otherwise it runs [git init] in the target, writes the
    status line exactly when the child's status is 0, and returns normally
    whatever the child did: for every target and every world the outcome is
    a normal return, never a throw or an exit. *)
Theorem ensureGitRepository_spec (targetDir : path) (w : world) :
  (lookup (join1 targetDir ".git") (fs w) <> None ->
   ensureGitRepository targetDir w = (Ret tt, w))
  /\ (lookup (join1 targetDir ".git") (fs w) = None ->
      ensureGitRepository targetDir w
      = (Ret tt,
         mkWorld (snd (runChild "git" ["init"] targetDir (fs w)))
           (stdout w
            ++ match spawnStatus (fst (runChild "git" ["init"] targetDir (fs w))) with
               | Some 0 => [("Initialized git repository" ++ nl)%string]
               | _ => []
               end)
           (stderr w)
           (calls w ++ [SpawnCall "git" ["init"] targetDir]) (asked w)))
  /\ (exists w', ensureGitRepository targetDir w = (Ret tt, w')).
Proof.
  assert (Hyes : lookup (join1 targetDir ".git") (fs w) <> None ->
                 ensureGitRepository targetDir w = (Ret tt, w)).
  { intros Hgit. unfold ensureGitRepository.
    rewrite (bind_run _ _ _ _ _ (existsSync_run _ _)).
    destruct (lookup (join1 targetDir ".git") (fs w)); [reflexivity|congruence]. }
  assert (Hno : lookup (join1 targetDir ".git") (fs w) = None ->
      ensureGitRepository targetDir w
      = (Ret tt,
         mkWorld (snd (runChild "git" ["init"] targetDir (fs w)))
           (stdout w
            ++ match spawnStatus (fst (runChild "git" ["init"] targetDir (fs w))) with
               | Some 0 => [("Initialized git repository" ++ nl)%string]
               | _ => []
               end)
           (stderr w)
           (calls w ++ [SpawnCall "git" ["init"] targetDir]) (asked w))).
  { intros Hgit. unfold ensureGitRepository.
    rewrite (bind_run _ _ _ _ _ (existsSync_run _ _)), Hgit.
    rewrite (bind_run _ _ _ _ _ (spawnSync_run _ _ _ _)).
    destruct (spawnStatus (fst (runChild "git" ["init"] targetDir (fs w))))
      as [[|p|p]|]; cbn; rewrite ?app_nil_r; reflexivity. }
  split; [exact Hyes|]. split; [exact Hno|].
  destruct (lookup (join1 targetDir ".git") (fs w)) eqn:E.
  - exists w. apply Hyes. congruence.
  - eexists. apply Hno. reflexivity.
Qed.

End GitBootstrapper.

(** ** Port validation *)

Lemma isInteger_denotes (x : number) :
  isInteger x = true <-> exists n, denotes x n.
Proof.
  destruct x as [| b | q]; unfold isInteger, denotes.
  - split; [discriminate | intros [n []]].
  - split; [discriminate | intros [n []]].
  - split.
    + intros E. apply Pos.eqb_eq in E. exists (Qnum (Qred q)).
      rewrite <- (Qred_correct q) at 1.
      destruct (Qred q) as [a b]. cbn in *. subst b. reflexivity.
    + intros [n E]. apply Pos.eqb_eq.
      rewrite (Qred_complete _ _ E), Qred_identity; [reflexivity|].
      cbn. apply Z.gcd_1_r.
Qed.

Lemma lt_finite (q : Q) (k : Z) :
  lt (Finite q) (ofZ k) = true <-> (q < inject_Z k)%Q.
Proof.
  cbn. rewrite Qlt_alt. destruct (q ?= inject_Z k)%Q; split; congruence.
Qed.

Lemma gt_finite (q : Q) (k : Z) :
  gt (Finite q) (ofZ k) = true <-> (inject_Z k < q)%Q.
Proof.
  unfold gt. cbn. rewrite Qlt_alt.
  destruct (inject_Z k ?= q)%Q; split; congruence.
Qed.

Lemma parsePort_accepts (value : jsval) (fallback : number) (n : Z) :
  denotes (Number value) n -> 1 <= n <= 65535 ->
  parsePort value fallback = Number value.
Proof.
  intros Hd Hn. unfold parsePort.
  assert (Hi : isInteger (Number value) = true)
    by (apply isInteger_denotes; eauto).
  rewrite Hi. cbn [negb orb].
  destruct (Number value) as [| b | q]; try contradiction. cbn in Hd.
  destruct (lt (Finite q) (ofZ 1)) eqn:E1.
  { apply lt_finite in E1. rewrite Hd, <- Zlt_Qlt in E1. lia. }
  destruct (gt (Finite q) (ofZ 65535)) eqn:E2.
  { apply gt_finite in E2. rewrite Hd, <- Zlt_Qlt in E2. lia. }
  reflexivity.
Qed.

Lemma parsePort_rejects (value : jsval) (fallback : number) :
  (forall n, 1 <= n <= 65535 -> ~ denotes (Number value) n) ->
  parsePort value fallback = fallback.
Proof.
  intros Hno. unfold parsePort.
  destruct (isInteger (Number value)) eqn:Hi; [|reflexivity]. cbn [negb orb].
  apply isInteger_denotes in Hi. destruct Hi as [n Hd].
  destruct (Number value) as [| b | q]; try contradiction. cbn in Hd.
  destruct (lt (Finite q) (ofZ 1)) eqn:E1; [reflexivity|].
  destruct (gt (Finite q) (ofZ 65535)) eqn:E2; [reflexivity|].
  exfalso. apply (Hno n); [|exact Hd].
  split.
  - destruct (Z_lt_le_dec n 1) as [L|L]; [|exact L].
    assert (lt (Finite q) (ofZ 1) = true); [|congruence].
    apply lt_finite. rewrite Hd, <- Zlt_Qlt. exact L.
  - destruct (Z_lt_le_dec 65535 n) as [L|L]; [|lia].
    assert (gt (Finite q) (ofZ 65535) = true); [|congruence].
    apply gt_finite. rewrite Hd, <- Zlt_Qlt. exact L.
Qed.

Lemma sameNumber_eq (x y : number) : sameNumber x y = true -> x = y.
Proof.
  destruct x as [| a | [a b]], y as [| c | [c d]]; cbn; try discriminate.
  - reflexivity.
  - intros E. apply Bool.eqb_prop in E. now subst.
  - intros E. apply andb_true_iff in E. destruct E as [E1 E2].
    apply Z.eqb_eq in E1. apply Pos.eqb_eq in E2. now subst.
Qed.

Lemma zrangeFrom_In (count : nat) (lo n : Z) :
  lo <= n < lo + Z.of_nat count -> In n (zrangeFrom lo count).
Proof.
  revert lo. induction count as [|count IH]; intros lo Hn; [lia|].
  cbn [zrangeFrom]. destruct (Z.eq_dec lo n) as [->|Hne].
  - now left.
  - right. apply IH. lia.
Qed.

Lemma zrange_In (lo count n : Z) :
  lo <= n < lo + count -> In n (zrange lo count).
Proof. intros Hn. apply zrangeFrom_In. lia. Qed.

Lemma decimal_numerals_checked :
  forallb (fun n => sameNumber (stringToNumber (decimal n)) (ofZ n))
    (zrange (-1000) 71001) = true.
Proof. vm_compute. reflexivity. Qed.

Lemma Number_decimal (n : Z) :
  -1000 <= n <= 70000 -> Number (VString (decimal n)) = ofZ n.
Proof.
  intros Hn. apply sameNumber_eq.
  pose proof decimal_numerals_checked as Hall.
  rewrite forallb_forall in Hall. apply Hall. apply zrange_In. lia.
Qed.

(** C7. Whatever the fallback, [parsePort] returns it for ["0"],
    ["65536"], ["abc"] and ["-1"], and returns 1 and 65535 for ["1"] and
    ["65535"].  In general it returns the parsed value when [Number] of the
    input is an integer between 1 and 65535, and the fallback in every
    other case.  Every decimal numeral from -1000 to 70000 parses as its
    integer, so such a numeral is accepted exactly when it lies between 1
    and 65535. *)
Theorem parsePort_spec (fallback : number) :
  parsePort (VString "0") fallback = fallback
  /\ parsePort (VString "65536") fallback = fallback
  /\ parsePort (VString "abc") fallback = fallback
  /\ parsePort (VString "-1") fallback = fallback
  /\ parsePort (VString "1") fallback = ofZ 1
  /\ parsePort (VString "65535") fallback = ofZ 65535
  /\ (forall value n,
        denotes (Number value) n -> 1 <= n <= 65535 ->
        parsePort value fallback = Number value)
  /\ (forall value,
        (forall n, 1 <= n <= 65535 -> ~ denotes (Number value) n) ->
        parsePort value fallback = fallback)
  /\ (forall n, -1000 <= n <= 70000 ->
        parsePort (VString (decimal n)) fallback
        = if (1 <=? n) && (n <=? 65535) then ofZ n else fallback).
Proof.
  repeat split; try reflexivity.
  - intros value n. exact (parsePort_accepts value fallback n).
  - intros value. exact (parsePort_rejects value fallback).
  - intros n Hn.
    destruct ((1 <=? n) && (n <=? 65535)) eqn:E.
    + apply andb_true_iff in E. destruct E as [E1 E2].
      apply Z.leb_le in E1, E2.
      rewrite (parsePort_accepts _ _ n); [apply Number_decimal; lia| |lia].
      rewrite Number_decimal by lia. cbn. reflexivity.
    + apply parsePort_rejects. intros m Hm Hd.
      rewrite Number_decimal in Hd by lia. unfold denotes, ofZ in Hd.
      assert (n = m) by (apply inject_Z_injective; exact Hd). subst m.
      apply andb_false_iff in E. destruct E as [E|E]; apply Z.leb_gt in E; lia.
Qed.

(** ** Argument parser *)

Lemma isValueOption_cases (name : string) :
  isValueOption name = true ->
  name = "--project-name" \/ name = "--gateway-url" \/ name = "--gateway-token"
  \/ name = "--gateway-password" \/ name = "--port".
Proof.
  unfold isValueOption, optionsWithValues. cbn [existsb].
  rewrite !orb_true_iff, !String.eqb_eq. intuition discriminate.
Qed.

(** A value-bearing option in front of a dash token is recorded as a flag
    and the dash token is the next one read. *)
Lemma parseLoop_bare_option (name next : string) (post : list string)
    (acc : ParsedArgs) :
  isValueOption name = true -> startsWith next "-" = true ->
  parseLoop (name :: next :: post) acc
  = parseLoop (next :: post) (addFlag name acc).
Proof.
  intros Hname Hnext.
  assert (Hstep :
    parseLoop (name :: next :: post) acc
    = if isValueOption name && truthy next && negb (startsWith next "-")
      then parseLoop post (setValue name next acc)
      else parseLoop (next :: post) (addFlag name acc)).
  { destruct (isValueOption_cases name Hname) as [->|[->|[->|[->| ->]]]];
      reflexivity. }
  now rewrite Hstep, Hnext, andb_false_r.
Qed.

(** Reading a list that is followed by a dash token never reaches into
    that token: the loop is at its start when the prefix is used up. *)
Lemma parseLoop_app_dash (x : string) (l : list string) :
  startsWith x "-" = true ->
  forall (n : nat) (pre : list string) (acc : ParsedArgs),
    (length pre <= n)%nat ->
    parseLoop (pre ++ x :: l) acc = parseLoop (x :: l) (parseLoop pre acc).
Proof.
  intros Hx. remember (x :: l) as tail eqn:Htail.
  induction n as [|n IH]; intros pre acc Hlen.
  - destruct pre; [reflexivity | cbn in Hlen; lia].
  - destruct pre as [|a pre]; [reflexivity|].
    cbn [app parseLoop]. cbn in Hlen.
    destruct (negb (startsWith a "-")); [apply IH; lia|].
    destruct (String.eqb a "-h" || String.eqb a "--help"); [apply IH; lia|].
    destruct (negb (startsWith a "--")); [apply IH; lia|].
    destruct (indexOf a "="%char); [apply IH; lia|].
    destruct pre as [|b pre]; cbn [app].
    + subst tail. rewrite Hx, andb_false_r. reflexivity.
    + cbn in Hlen.
      destruct (isValueOption a && truthy b && negb (startsWith b "-"));
        [apply IH; lia | apply (IH (b :: pre)); cbn; lia].
Qed.

(** The loop commutes with any change of the accumulator that commutes
    with its three updates. *)
Lemma parseLoop_commute (T : ParsedArgs -> ParsedArgs) :
  (forall a acc, T (addFlag a acc) = addFlag a (T acc)) ->
  (forall k v acc, T (setValue k v acc) = setValue k v (T acc)) ->
  (forall a acc, T (pushPositional a acc) = pushPositional a (T acc)) ->
  forall (n : nat) (l : list string) (acc : ParsedArgs),
    (length l <= n)%nat -> parseLoop l (T acc) = T (parseLoop l acc).
Proof.
  intros Hflag Hvalue Hpos.
  induction n as [|n IH]; intros l acc Hlen.
  - destruct l; [reflexivity | cbn in Hlen; lia].
  - destruct l as [|a l]; [reflexivity|].
    cbn [parseLoop]. cbn in Hlen.
    destruct (negb (startsWith a "-")); [rewrite <- Hpos; apply IH; lia|].
    destruct (String.eqb a "-h" || String.eqb a "--help");
      [rewrite <- Hflag; apply IH; lia|].
    destruct (negb (startsWith a "--")); [rewrite <- Hflag; apply IH; lia|].
    destruct (indexOf a "="%char); [rewrite <- Hvalue; apply IH; lia|].
    destruct l as [|b l]; [rewrite <- Hflag; reflexivity|].
    cbn in Hlen.
    destruct (isValueOption a && truthy b && negb (startsWith b "-")).
    + rewrite <- Hvalue. apply IH. lia.
    + rewrite <- Hflag. apply (IH (b :: l)). cbn. lia.
Qed.

Lemma addFlag_addFlag (a b : string) (acc : ParsedArgs) :
  addFlag a (addFlag b acc) = addFlag b (addFlag a acc).
Proof.
  unfold addFlag. cbn. f_equal.
  rewrite !(assoc_L (∪)). f_equal. apply (comm_L (∪)).
Qed.

Lemma parseLoop_addFlag (name : string) (l : list string) (acc : ParsedArgs) :
  parseLoop l (addFlag name acc) = addFlag name (parseLoop l acc).
Proof.
  apply (parseLoop_commute (addFlag name)) with (n := length l);
    [intros; apply addFlag_addFlag | reflexivity | reflexivity | lia].
Qed.

(** C5, as amended.  When a value-bearing option name is immediately
    followed by a token that starts with [-], that token is not taken as
    the option's value: the option is recorded as a bare flag, the
    occurrence adds nothing to the values map (values and positionals are
    those of the same arguments without the option token, and the flags are
    those plus the option), and the following token is the next one the
    loop classifies. *)
Theorem parseCliArgs_bare_option (pre post : list string) (name next : string) :
  isValueOption name = true -> startsWith next "-" = true ->
  parseCliArgs (pre ++ name :: next :: post)
  = parseLoop (next :: post) (addFlag name (parseLoop pre emptyParsed))
  /\ name ∈ flags (parseCliArgs (pre ++ name :: next :: post))
  /\ flags (parseCliArgs (pre ++ name :: next :: post))
     = {[name]} ∪ flags (parseCliArgs (pre ++ next :: post))
  /\ values (parseCliArgs (pre ++ name :: next :: post))
     = values (parseCliArgs (pre ++ next :: post))
  /\ positionals (parseCliArgs (pre ++ name :: next :: post))
     = positionals (parseCliArgs (pre ++ next :: post)).
Proof.
  intros Hname Hnext.
  assert (Hdash : startsWith name "-" = true).
  { destruct (isValueOption_cases name Hname) as [->|[->|[->|[->| ->]]]];
      reflexivity. }
  assert (E1 : parseCliArgs (pre ++ name :: next :: post)
               = parseLoop (next :: post)
                   (addFlag name (parseLoop pre emptyParsed))).
  { unfold parseCliArgs.
    rewrite (parseLoop_app_dash name (next :: post) Hdash (length pre))
      by reflexivity.
    now apply parseLoop_bare_option. }
  assert (E2 : parseCliArgs (pre ++ name :: next :: post)
               = addFlag name (parseCliArgs (pre ++ next :: post))).
  { rewrite E1, parseLoop_addFlag. unfold parseCliArgs.
    now rewrite (parseLoop_app_dash next post Hnext (length pre))
      by reflexivity. }
  split; [exact E1|]. rewrite E2. cbn.
  repeat split. set_solver.
Qed.

(** C5, witness: [--port] in front of [--yes]. *)
Lemma parseCliArgs_bare_option_witness :
  parseCliArgs (["init"] ++ "--port" :: "--yes" :: ["demo"])
  = parseLoop ("--yes" :: ["demo"])
      (addFlag "--port" (parseLoop ["init"] emptyParsed))
  /\ "--port" ∈ flags (parseCliArgs (["init"] ++ "--port" :: "--yes" :: ["demo"]))
  /\ flags (parseCliArgs (["init"] ++ "--port" :: "--yes" :: ["demo"]))
     = {["--port"]} ∪ flags (parseCliArgs (["init"] ++ "--yes" :: ["demo"]))
  /\ values (parseCliArgs (["init"] ++ "--port" :: "--yes" :: ["demo"]))
     = values (parseCliArgs (["init"] ++ "--yes" :: ["demo"]))
  /\ positionals (parseCliArgs (["init"] ++ "--port" :: "--yes" :: ["demo"]))
     = positionals (parseCliArgs (["init"] ++ "--yes" :: ["demo"])).
Proof.
  apply (parseCliArgs_bare_option ["init"] ["demo"] "--port" "--yes");
    reflexivity.
Defined.

(** C5, counterexample to the claim as stated: [--port] is followed by
    [--yes], yet the values map has an entry for [--port], supplied by a
    later occurrence. *)
Lemma parseCliArgs_value_from_later_occurrence :
  isValueOption "--port" = true
  /\ startsWith "--yes" "-" = true
  /\ "--port" ∈ flags (parseCliArgs ["--port"; "--yes"; "--port"; "8080"])
  /\ values (parseCliArgs ["--port"; "--yes"; "--port"; "8080"]) !! "--port"
     = Some "8080".
Proof.
  split; [reflexivity|]. split; [reflexivity|]. split.
  - cbn. set_solver.
  - reflexivity.
Qed.

(** ** File-system lemmas *)

Lemma unsnoc_app (p : path) (x : string) : unsnoc (p ++ [x]) = Some (p, x).
Proof.
  induction p as [|a p IH]; [reflexivity|].
  cbn [app unsnoc]. rewrite IH. destruct p; reflexivity.
Qed.

Lemma lookup_join (p q : path) (n : node) :
  lookup (p ++ q) n
  = match lookup p n with Some m => lookup q m | None => None end.
Proof.
  revert n. induction p as [|a p IH]; intros n; [reflexivity|].
  cbn [app lookup]. destruct n as [|es]; [reflexivity|].
  destruct (getEntry a es); [apply IH | reflexivity].
Qed.

Lemma getEntry_setEntry (name : string) (c : node) es :
  getEntry name (setEntry name c es) = Some c.
Proof.
  induction es as [|[k m] es IH]; cbn.
  - now rewrite String.eqb_refl.
  - destruct (String.eqb k name) eqn:E; cbn; rewrite E; [reflexivity|apply IH].
Qed.

Lemma getEntry_setEntry_ne (name k : string) (c : node) es :
  name <> k -> getEntry k (setEntry name c es) = getEntry k es.
Proof.
  intros Hne. induction es as [|[k' m] es IH]; cbn.
  - destruct (String.eqb name k) eqn:E; [apply String.eqb_eq in E; congruence|].
    reflexivity.
  - destruct (String.eqb k' name) eqn:E; cbn.
    + apply String.eqb_eq in E. subst k'.
      destruct (String.eqb name k) eqn:E'; [apply String.eqb_eq in E'; congruence|].
      reflexivity.
    + destruct (String.eqb k' k); [reflexivity | apply IH].
Qed.


(** Changing the entries of an existing directory succeeds and is seen by
    a later lookup. *)
Lemma alterDir_ok (p : path) f (n : node) es es' :
  lookup p n = Some (Dir es) -> f es = Ok es' ->
  exists n', alterDir p f n = Ok n' /\ lookup p n' = Some (Dir es').
Proof.
  revert n. induction p as [|a p IH]; intros n Hl Hf.
  - cbn in Hl. injection Hl as ->. cbn. rewrite Hf. eauto.
  - cbn in Hl. destruct n as [|ns]; [discriminate|].
    destruct (getEntry a ns) as [c|] eqn:Ec; [|discriminate].
    destruct (IH c Hl Hf) as [c' [Ha Hl']].
    exists (Dir (setEntry a c' ns)). cbn. rewrite Ec, Ha. split; [reflexivity|].
    now rewrite getEntry_setEntry.
Qed.

Lemma alterDir_err (p : path) f (n : node) es e :
  lookup p n = Some (Dir es) -> f es = Err e -> alterDir p f n = Err e.
Proof.
  revert n. induction p as [|a p IH]; intros n Hl Hf.
  - cbn in Hl. injection Hl as ->. cbn. now rewrite Hf.
  - cbn in Hl. destruct n as [|ns]; [discriminate|].
    destruct (getEntry a ns) as [c|] eqn:Ec; [|discriminate].
    cbn. now rewrite Ec, (IH c Hl Hf).
Qed.

(** [alterDir] only looks at the entries of the directory it reaches. *)
Lemma alterDir_ext (p : path) f g (n : node) es :
  lookup p n = Some (Dir es) -> f es = g es -> alterDir p f n = alterDir p g n.
Proof.
  revert n. induction p as [|a p IH]; intros n Hl Hfg.
  - cbn in Hl. injection Hl as ->. cbn. now rewrite Hfg.
  - cbn in Hl. destruct n as [|ns]; [discriminate|].
    destruct (getEntry a ns) as [c|] eqn:Ec; [|discriminate].
    cbn. now rewrite Ec, (IH c Hl Hfg).
Qed.

Lemma mutate_ok (c : call) (syscall : string) (p : path) f (w : world) n :
  f (fs w) = Ok n ->
  mutate c syscall p f w
  = (Ret tt, mkWorld n (stdout w) (stderr w) (calls w ++ [c]) (asked w)).
Proof. intros E. unfold mutate, bind, logCall. cbn. now rewrite E. Qed.

Lemma mutate_err (c : call) (syscall : string) (p : path) f (w : world) e :
  f (fs w) = Err e ->
  mutate c syscall p f w
  = (Throw (SystemError e syscall p),
     mkWorld (fs w) (stdout w) (stderr w) (calls w ++ [c]) (asked w)).
Proof. intros E. unfold mutate, bind, logCall. cbn. now rewrite E. Qed.

Lemma ensureDir_present (p : path) (w : world) :
  lookup p (fs w) <> None -> ensureDir p w = (Ret tt, w).
Proof.
  intros Hp. unfold ensureDir.
  rewrite (bind_run _ _ _ _ _ (existsSync_run _ _)).
  destruct (lookup p (fs w)); [reflexivity | congruence].
Qed.

(** Writing a file into an existing directory, under a name that is not
    bound to a directory *)
Lemma writeFileSync_ok (dir : path) (name data : string) (w : world) es :
  lookup dir (fs w) = Some (Dir es) ->
  (forall sub, getEntry name es <> Some (Dir sub)) ->
  exists n',
    writeFileSync (join1 dir name) data w
    = (Ret tt, mkWorld n' (stdout w) (stderr w)
                 (calls w ++ [WriteFileCall (join1 dir name) data]) (asked w))
    /\ lookup (join1 dir name) n' = Some (File data)
    /\ alterDir dir (fun _ => Ok (setEntry name (File data) es)) (fs w) = Ok n'.
Proof.
  intros Hdir Hfree.
  destruct (alterDir_ok dir (fun _ => Ok (setEntry name (File data) es))
              (fs w) es _ Hdir eq_refl) as [n' [Ha Hl]].
  exists n'. split; [|split; [|exact Ha]].
  - unfold writeFileSync. apply mutate_ok.
    unfold putFile, join1. rewrite unsnoc_app, <- Ha.
    apply (alterDir_ext dir _ _ (fs w) es Hdir).
    destruct (getEntry name es) as [[|sub]|] eqn:E; try reflexivity.
    exfalso. now apply (Hfree sub).
  - unfold join1. rewrite lookup_join, Hl. cbn. now rewrite getEntry_setEntry.
Qed.

(** ** String lemmas *)

Lemma append_cons (x : ascii) (a b : string) :
  (String x a ++ b = String x (a ++ b))%string.
Proof. reflexivity. Qed.

Lemma append_assoc' (a b c : string) : ((a ++ b) ++ c = a ++ (b ++ c))%string.
Proof.
  induction a as [|x a IH]; [reflexivity|].
  now rewrite !append_cons, IH.
Qed.

Lemma append_empty_r (a : string) : (a ++ "" = a)%string.
Proof.
  induction a as [|x a IH]; [reflexivity|]. now rewrite append_cons, IH.
Qed.

Lemma hasChar_append (c : ascii) (a b : string) :
  hasChar c (a ++ b) = hasChar c a || hasChar c b.
Proof.
  induction a as [|x a IH]; [reflexivity|].
  rewrite append_cons. cbn [hasChar]. now rewrite IH, orb_assoc.
Qed.

Lemma splitAux_line (sep : ascii) (a b cur : string) :
  hasChar sep a = false ->
  splitAux sep (a ++ String sep b) cur
  = (cur ++ a)%string :: splitAux sep b EmptyString.
Proof.
  revert cur. induction a as [|x a IH]; intros cur Hno.
  - change (EmptyString ++ String sep b)%string with (String sep b).
    cbn [splitAux]. now rewrite Ascii.eqb_refl, append_empty_r.
  - cbn [hasChar] in Hno. apply orb_false_iff in Hno. destruct Hno as [Hx Ha].
    rewrite append_cons. cbn [splitAux].
    rewrite Hx, (IH _ Ha), append_assoc'. reflexivity.
Qed.

(** Lines without the separator, each followed by it, split back into
    themselves and one empty last piece. *)
Lemma split_join (sep : ascii) (lines : list string) :
  lines <> [] ->
  Forall (fun l => hasChar sep l = false) lines ->
  split sep (join (String sep EmptyString) lines ++ String sep EmptyString)
  = lines ++ [EmptyString].
Proof.
  unfold split. intros Hne Hall.
  induction Hall as [|l rest Hl Hrest IH]; [congruence|].
  destruct rest as [|l' rest].
  - cbn [join app]. now rewrite (splitAux_line sep l EmptyString EmptyString Hl).
  - replace (join (String sep EmptyString) (l :: l' :: rest)
             ++ String sep EmptyString)%string
      with (l ++ String sep (join (String sep EmptyString) (l' :: rest)
                             ++ String sep EmptyString))%string.
    2:{ change (join (String sep EmptyString) (l :: l' :: rest))
          with (l ++ String sep EmptyString
                ++ join (String sep EmptyString) (l' :: rest))%string.
        now rewrite !append_assoc'. }
    rewrite (splitAux_line sep l _ EmptyString Hl).
    change (EmptyString ++ l)%string with l.
    change ((l :: l' :: rest) ++ [EmptyString])
      with (l :: ((l' :: rest) ++ [EmptyString])).
    f_equal. apply IH. discriminate.
Qed.

(** ** Env file writer *)

Lemma resolveEnvFile_run (targetDir : path) (w : world) :
  resolveEnvFile targetDir w
  = (Ret (join1 (envDirOf targetDir (fs w)) ".env.local"), w).
Proof.
  unfold resolveEnvFile, envDirOf.
  rewrite (bind_run _ _ _ _ _ (existsSync_run _ _)).
  destruct (lookup (join1 (join1 targetDir "apps") "webclaw") (fs w));
    reflexivity.
Qed.

(** C8, as amended.  [writeEnvFile] writes, to the env file of the
    target's layout (whenever the directory it belongs to exists and the
    name is not taken by a directory), the text made of the URL
    assignment, the token assignment and, exactly when [gatewayPassword]
    is not empty, the password assignment, in this order and each ended by
    a line feed; the array of assignments it builds never holds the
    password key with an empty value.  For values that contain no line
    feed this is the file line by line: split at the line feeds, the file
    is the URL line and the token line (and nothing else) when the
    password is empty, the URL, token and password lines when it is not,
    followed by the empty piece after the last line feed, and no line of
    the file is the password key with an empty value. *)
Theorem writeEnvFile_spec (targetDir : path) (env : EnvValues) (w : world) es :
  lookup (envDirOf targetDir (fs w)) (fs w) = Some (Dir es) ->
  (forall sub, getEntry ".env.local" es <> Some (Dir sub)) ->
  let envFile := join1 (envDirOf targetDir (fs w)) ".env.local" in
  let urlLine := ("CLAWDBOT_GATEWAY_URL=" ++ gatewayUrl env)%string in
  let tokenLine := ("CLAWDBOT_GATEWAY_TOKEN=" ++ gatewayToken env)%string in
  let passwordLine :=
    ("CLAWDBOT_GATEWAY_PASSWORD=" ++ gatewayPassword env)%string in
  (exists n',
     writeEnvFile targetDir env w
     = (Ret tt,
        mkWorld n'
          (stdout w ++ [("Wrote " ++ toString envFile ++ nl ++ nl)%string])
          (stderr w)
          (calls w ++ [WriteFileCall envFile (envFileText env)]) (asked w))
     /\ lookup envFile n' = Some (File (envFileText env)))
  /\ (gatewayPassword env = EmptyString ->
      envLines env = [urlLine; tokenLine]
      /\ envFileText env = (urlLine ++ nl ++ tokenLine ++ nl)%string)
  /\ (gatewayPassword env <> EmptyString ->
      envLines env = [urlLine; tokenLine; passwordLine]
      /\ envFileText env
         = (urlLine ++ nl ++ tokenLine ++ nl ++ passwordLine ++ nl)%string)
  /\ ~ In "CLAWDBOT_GATEWAY_PASSWORD=" (envLines env)
  /\ (hasChar "010" (gatewayUrl env) = false ->
      hasChar "010" (gatewayToken env) = false ->
      hasChar "010" (gatewayPassword env) = false ->
      split "010" (envFileText env) = envLines env ++ [EmptyString]
      /\ (gatewayPassword env = EmptyString ->
          split "010" (envFileText env)
          = [urlLine; tokenLine; EmptyString])
      /\ (gatewayPassword env <> EmptyString ->
          split "010" (envFileText env)
          = [urlLine; tokenLine; passwordLine; EmptyString])
      /\ ~ In "CLAWDBOT_GATEWAY_PASSWORD=" (split "010" (envFileText env))).
Proof.
  intros Hdir Hfree envFile urlLine tokenLine passwordLine.
  assert (Hlines : envLines env
    = if (0 <? String.length (gatewayPassword env))%nat
      then [urlLine; tokenLine; passwordLine] else [urlLine; tokenLine])
    by (unfold envLines; destruct (0 <? String.length _)%nat; reflexivity).
  split; [|split; [|split; [|split]]].
  - destruct (writeFileSync_ok _ ".env.local" (envFileText env) w es Hdir Hfree)
      as [n' [Hw [Hl _]]].
    exists n'. split; [|exact Hl].
    unfold writeEnvFile.
    rewrite (bind_run _ _ _ _ _ (resolveEnvFile_run _ _)).
    fold envFile. unfold dirname, envFile, join1 at 1.
    rewrite removelast_last.
    assert (Hne : lookup (envDirOf targetDir (fs w)) (fs w) <> None)
      by congruence.
    rewrite (bind_run _ _ _ _ _ (ensureDir_present _ w Hne)).
    fold (join1 (envDirOf targetDir (fs w)) ".env.local").
    rewrite (bind_run _ _ _ _ _ Hw). reflexivity.
  - intros Hpw. unfold envFileText. rewrite Hlines, Hpw. cbn [String.length Nat.ltb Nat.leb join].
    split; [reflexivity|]. now rewrite !append_assoc'.
  - intros Hpw. unfold envFileText. rewrite Hlines.
    destruct (gatewayPassword env) as [|c pw] eqn:E; [congruence|].
    cbn [String.length Nat.ltb Nat.leb join].
    split; [reflexivity|]. now rewrite !append_assoc'.
  - rewrite Hlines. unfold urlLine, tokenLine, passwordLine.
    destruct (gatewayPassword env) as [|c pw]; cbn; intuition discriminate.
  - intros Hu Ht Hp.
    assert (Hsplit : split "010" (envFileText env)
                     = envLines env ++ [EmptyString]).
    { unfold envFileText, nl. apply split_join.
      + rewrite Hlines. destruct (0 <? _)%nat; discriminate.
      + rewrite Hlines. unfold urlLine, tokenLine, passwordLine.
        destruct (0 <? _)%nat;
          repeat first [apply List.Forall_nil | apply List.Forall_cons];
          rewrite hasChar_append, ?Hu, ?Ht, ?Hp; reflexivity. }
    rewrite Hsplit, Hlines. split; [reflexivity|]. split; [|split].
    + intros Hpw. now rewrite Hpw.
    + intros Hpw. destruct (gatewayPassword env) as [|c pw]; [congruence|].
      reflexivity.
    + unfold urlLine, tokenLine, passwordLine.
      destruct (gatewayPassword env) as [|c pw]; cbn; intuition discriminate.
Qed.

(** C8, witness: the spec's example values, written into [/work/app]; the
    file is the two lines, and no line is the bare password key. *)
Lemma writeEnvFile_spec_witness :
  (exists n',
     writeEnvFile ["work"; "app"] (mkEnv "ws://x" "t" "")
       (Demo.appWorld Demo.manifestSpaced)
     = (Ret tt,
        mkWorld n' [("Wrote /work/app/.env.local" ++ nl ++ nl)%string] []
          [WriteFileCall ["work"; "app"; ".env.local"]
             ("CLAWDBOT_GATEWAY_URL=ws://x" ++ nl
              ++ "CLAWDBOT_GATEWAY_TOKEN=t" ++ nl)%string] 0)
     /\ lookup ["work"; "app"; ".env.local"] n'
        = Some (File ("CLAWDBOT_GATEWAY_URL=ws://x" ++ nl
                      ++ "CLAWDBOT_GATEWAY_TOKEN=t" ++ nl)%string))
  /\ split "010" (envFileText (mkEnv "ws://x" "t" ""))
     = ["CLAWDBOT_GATEWAY_URL=ws://x"; "CLAWDBOT_GATEWAY_TOKEN=t"; ""]
  /\ ~ In "CLAWDBOT_GATEWAY_PASSWORD="
         (split "010" (envFileText (mkEnv "ws://x" "t" ""))).
Proof.
  pose proof (writeEnvFile_spec ["work"; "app"] (mkEnv "ws://x" "t" "")
                (Demo.appWorld Demo.manifestSpaced)
                [("package.json", File (Demo.manifestText Demo.manifestSpaced))]
                eq_refl
                (fun sub (E : None = Some (Dir sub)) =>
                   eq_ind None
                     (fun o => match o with None => True | Some _ => False end)
                     I _ E)) as (Hwrite & _ & _ & _ & Hfile).
  destruct (Hfile eq_refl eq_refl eq_refl) as (_ & Htwo & _ & Hbare).
  split; [exact Hwrite|]. split; [exact (Htwo eq_refl) | exact Hbare].
Defined.

(** C8, counterexample to the claim as stated: the password is empty and
    the token holds a line feed followed by the password key.  The two
    assignments [writeEnvFile] writes make a file of three lines, the
    third of which is the password key with an empty value.  The values
    come from the command line: [--gateway-token=...] takes everything
    after the first [=]. *)
Lemma writeEnvFile_token_carries_password_line :
  let token := ("t" ++ nl ++ "CLAWDBOT_GATEWAY_PASSWORD=")%string in
  let env := mkEnv "ws://x" token "" in
  let run :=
    writeEnvFile ["work"; "app"] env (Demo.appWorld Demo.manifestSpaced) in
  gatewayPassword env = EmptyString
  /\ fst run = Ret tt
  /\ (exists text,
        lookup ["work"; "app"; ".env.local"] (fs (snd run)) = Some (File text)
        /\ split "010" text
           = ["CLAWDBOT_GATEWAY_URL=ws://x"; "CLAWDBOT_GATEWAY_TOKEN=t";
              "CLAWDBOT_GATEWAY_PASSWORD="; ""]
        /\ In "CLAWDBOT_GATEWAY_PASSWORD=" (split "010" text))
  /\ fst (askBootstrapConfig (H := Demo.happyHost) None
            (parseCliArgs ["--gateway-url=ws://x";
                           ("--gateway-token=" ++ token)%string])
            Demo.emptyWork)
     = Ret (mkConfig "webclaw" env (ofZ 3000) true).
Proof.
  cbv zeta. split; [reflexivity|]. split; [vm_compute; reflexivity|].
  split.
  - eexists. split; [vm_compute; reflexivity|].
    split; [vm_compute; reflexivity|]. vm_compute. tauto.
  - vm_compute. reflexivity.
Qed.

(** ** Guards of [initProject] *)

Lemma startsWith_append (b c : string) : startsWith (b ++ c) b = true.
Proof.
  induction b as [|x b IH]; [destruct c; reflexivity|].
  rewrite append_cons. cbn [startsWith]. now rewrite Ascii.eqb_refl, IH.
Qed.

Lemma includes_append (a b c : string) : includes (a ++ b ++ c) b = true.
Proof.
  induction a as [|x a IH].
  - change (EmptyString ++ b ++ c)%string with (b ++ c)%string.
    destruct (b ++ c)%string eqn:E; cbn [includes];
      rewrite <- E, startsWith_append; reflexivity.
  - rewrite append_cons. cbn [includes]. rewrite IH. apply orb_true_r.
Qed.

Lemma startsWith_hasChar (s p : string) (c : ascii) :
  startsWith s (String c p) = true -> hasChar c s = true.
Proof.
  destruct s as [|d s]; cbn; [discriminate|].
  intros E. apply andb_true_iff in E. destruct E as [E _].
  rewrite Ascii.eqb_sym in E. now rewrite E.
Qed.

Lemma includes_hasChar (s p : string) (c : ascii) :
  includes s (String c p) = true -> hasChar c s = true.
Proof.
  induction s as [|d s IH]; [discriminate|].
  cbn [includes]. intros E. apply orb_true_iff in E. destruct E as [E|E].
  - now apply startsWith_hasChar in E.
  - cbn [hasChar]. rewrite (IH E). apply orb_true_r.
Qed.

Lemma printBanner_run (w : world) :
  printBanner w
  = (Ret tt, mkWorld (fs w) (stdout w ++ bannerLines) (stderr w) (calls w)
               (asked w)).
Proof.
  unfold printBanner, bind, writeStdout. cbn. now rewrite <- !app_assoc.
Qed.

Lemma banner_run (bootstrapConfig : option BootstrapConfig) (w : world) :
  when (match bootstrapConfig with None => true | Some _ => false end)
    printBanner w
  = (Ret tt, mkWorld (fs w) (stdout w ++ bannerOutput bootstrapConfig)
               (stderr w) (calls w) (asked w)).
Proof.
  destruct bootstrapConfig; cbn [when bannerOutput].
  - unfold ret. rewrite app_nil_r. now destruct w.
  - apply printBanner_run.
Qed.

Section Guards.
Context {H : Host}.
Variables (rawTarget : option string) (w : world).
Variables (es : list (string * node)) (name : string).

Hypothesis target_is_dir : lookup (targetOf rawTarget) (fs w) = Some (Dir es).
Hypothesis name_in_target : In name (List.map fst es).
Hypothesis name_not_git : name <> ".git".
Hypothesis name_not_ds : name <> ".DS_Store".

Lemma target_not_empty :
  isDirEmpty (targetOf rawTarget) w = (Ret false, w).
Proof using All.
  rewrite (isDirEmpty_dir (targetOf rawTarget) w es target_is_dir).
  now rewrite (forallb_ignored_false _ name).
Qed.

Lemma target_present : ensureDir (targetOf rawTarget) w = (Ret tt, w).
Proof using target_is_dir.
  apply ensureDir_present. now rewrite target_is_dir.
Qed.

End Guards.

Section GuardRuns.
Context {H : Host}.
Variables (fuel : nat) (rawTarget : option string) (options : gset string).
Variables (bootstrapConfig : option BootstrapConfig) (w : world).
Variables (es : list (string * node)) (name : string).

Hypothesis target_is_dir : lookup (targetOf rawTarget) (fs w) = Some (Dir es).
Hypothesis name_in_target : In name (List.map fst es).
Hypothesis name_not_git : name <> ".git".
Hypothesis name_not_ds : name <> ".DS_Store".

Lemma initProject_not_empty :
  "--force" ∉ options ->
  initProject fuel rawTarget options bootstrapConfig w
  = (Exit 1,
     mkWorld (fs w) (stdout w ++ bannerOutput bootstrapConfig)
       (stderr w ++ [notEmptyMessage (targetOf rawTarget)]) (calls w)
       (asked w)).
Proof using All.
  intros Hforce. unfold initProject. fold (targetOf rawTarget).
  rewrite (bind_run _ _ _ _ _ (banner_run _ _)).
  fold (afterBanner bootstrapConfig w).
  rewrite (bind_run _ _ _ _ _
             (target_present rawTarget (afterBanner bootstrapConfig w) es
                target_is_dir)).
  rewrite (bool_decide_eq_false_2 _ Hforce). cbn [negb].
  rewrite bind_assoc.
  rewrite (bind_run _ _ _ _ _
             (target_not_empty rawTarget (afterBanner bootstrapConfig w) es
                name target_is_dir name_in_target name_not_git name_not_ds)).
  reflexivity.
Qed.

Lemma initProject_refuses_cwd :
  "--force" ∈ options -> targetOf rawTarget = cwd ->
  initProject fuel rawTarget options bootstrapConfig w
  = (Exit 1,
     mkWorld (fs w) (stdout w ++ bannerOutput bootstrapConfig)
       (stderr w ++ [refuseCwdMessage]) (calls w) (asked w)).
Proof using All.
  intros Hforce Hcwd. unfold initProject. fold (targetOf rawTarget).
  rewrite (bind_run _ _ _ _ _ (banner_run _ _)).
  fold (afterBanner bootstrapConfig w).
  rewrite (bind_run _ _ _ _ _
             (target_present rawTarget (afterBanner bootstrapConfig w) es
                target_is_dir)).
  rewrite (bool_decide_eq_true_2 _ Hforce). cbn [negb].
  rewrite bind_ret, bind_assoc.
  rewrite (bind_run _ _ _ _ _
             (target_not_empty rawTarget (afterBanner bootstrapConfig w) es
                name target_is_dir name_in_target name_not_git name_not_ds)).
  rewrite bind_ret. unfold Path.eqb. rewrite (decide_True _ _ Hcwd).
  reflexivity.
Qed.

End GuardRuns.

Lemma refuseCwdMessage_has_no_path (p : path) :
  includes refuseCwdMessage (toString p) = false.
Proof.
  destruct (includes refuseCwdMessage (toString p)) eqn:E; [|reflexivity].
  apply includes_hasChar in E. vm_compute in E. discriminate.
Qed.

(** C2, as amended.  Both guard violations of [init] write their message
    to the error stream, exit with status 1 and leave the file system
    untouched (no file-system call is issued at all).  For a non-empty
    target without [--force] the message ends with the target's path; for
    [--force] on a non-empty current directory the message is the fixed
    sentence [Refusing to overwrite current directory. ...], which does not
    hold the path. *)
Theorem initProject_guards {H : Host} (fuel : nat) (rawTarget : option string)
    (options : gset string) (bootstrapConfig : option BootstrapConfig)
    (w : world) (es : list (string * node)) (name : string) :
  lookup (targetOf rawTarget) (fs w) = Some (Dir es) ->
  In name (List.map fst es) -> name <> ".git" -> name <> ".DS_Store" ->
  ("--force" ∉ options ->
   initProject fuel rawTarget options bootstrapConfig w
   = (Exit 1,
      mkWorld (fs w) (stdout w ++ bannerOutput bootstrapConfig)
        (stderr w ++ [notEmptyMessage (targetOf rawTarget)])
        (calls w) (asked w))
   /\ includes (notEmptyMessage (targetOf rawTarget))
        (toString (targetOf rawTarget)) = true)
  /\ ("--force" ∈ options -> targetOf rawTarget = cwd ->
      initProject fuel rawTarget options bootstrapConfig w
      = (Exit 1,
         mkWorld (fs w) (stdout w ++ bannerOutput bootstrapConfig)
           (stderr w ++ [refuseCwdMessage]) (calls w) (asked w))
      /\ includes refuseCwdMessage (toString (targetOf rawTarget)) = false).
Proof.
  intros Hdir Hin Hgit Hds. split.
  - intros Hforce. split.
    + now apply (initProject_not_empty fuel rawTarget options bootstrapConfig
                   w es name).
    + apply includes_append.
  - intros Hforce Hcwd. split.
    + now apply (initProject_refuses_cwd fuel rawTarget options bootstrapConfig
                   w es name).
    + apply refuseCwdMessage_has_no_path.
Qed.

(** C2, witness: [init demo] on a [/work/demo] that holds files, and
    [init --force] in a [/work] that holds a file. *)
Lemma initProject_guards_witness :
  initProject (H := Demo.happyHost) 4 (Some "demo") ∅ None Demo.staleDemo
  = (Exit 1,
     mkWorld (fs Demo.staleDemo) bannerLines
       [notEmptyMessage ["work"; "demo"]] [] 0)
  /\ initProject (H := Demo.happyHost) 4 None {["--force"]} None Demo.usedWork
     = (Exit 1,
        mkWorld (fs Demo.usedWork) bannerLines [refuseCwdMessage] [] 0).
Proof.
  split.
  - refine (proj1 (proj1 (@initProject_guards Demo.happyHost 4 (Some "demo") ∅
                     None Demo.staleDemo
                     [("old.txt", File "old"); ("notes", Dir [("a", File "x")])]
                     "old.txt" eq_refl (or_introl eq_refl) _ _) _)).
    + discriminate.
    + discriminate.
    + set_solver.
  - refine (proj1 (proj2 (@initProject_guards Demo.happyHost 4 None
                     {["--force"]} None Demo.usedWork [("old.txt", File "old")]
                     "old.txt" eq_refl (or_introl eq_refl) _ _) _ eq_refl)).
    + discriminate.
    + discriminate.
    + set_solver.
Defined.

(** C2, counterexample to the claim as stated: [init --force] in a
    non-empty current directory [/work] exits with status 1 and changes
    nothing, but the message it writes does not include [/work]. *)
Lemma initProject_refusal_omits_path :
  @initProject Demo.happyHost 4 None {["--force"]} None Demo.usedWork
  = (Exit 1,
     mkWorld (fs Demo.usedWork) bannerLines [refuseCwdMessage] [] 0)
  /\ @targetOf Demo.happyHost None = ["work"]
  /\ toString ["work"] = "/work"
  /\ includes refuseCwdMessage "/work" = false.
Proof.
  split; [|repeat split].
  apply (initProject_refuses_cwd 4 None {["--force"]} None Demo.usedWork
           [("old.txt", File "old")] "old.txt");
    [reflexivity | now left | discriminate | discriminate | set_solver
    | reflexivity].
Qed.

(** C4. Against a target that holds an entry other than [.git] and
    [.DS_Store], [init] without [--force] fails the same way however often
    it is repeated: every run exits with status 1 after writing the same
    guard message, and the file system after any number of runs is the one
    before the first (no run issues a file-system call). *)
Theorem init_without_force_repeats {H : Host} (fuel : nat)
    (rawTarget : option string) (options : gset string)
    (bootstrapConfig : option BootstrapConfig)
    (es : list (string * node)) (name : string) (times : nat) (w : world) :
  lookup (targetOf rawTarget) (fs w) = Some (Dir es) ->
  In name (List.map fst es) -> name <> ".git" -> name <> ".DS_Store" ->
  "--force" ∉ options ->
  repeatInit times fuel rawTarget options bootstrapConfig w
  = (repeat (Exit 1) times,
     mkWorld (fs w)
       (stdout w ++ concat (repeat (bannerOutput bootstrapConfig) times))
       (stderr w ++ repeat (notEmptyMessage (targetOf rawTarget)) times)
       (calls w) (asked w)).
Proof.
  intros Hdir Hin Hgit Hds Hforce. revert w Hdir.
  induction times as [|times IH]; intros w Hdir.
  - cbn. rewrite !app_nil_r. now destruct w.
  - cbn [repeatInit].
    rewrite (initProject_not_empty fuel rawTarget options bootstrapConfig
               w es name Hdir Hin Hgit Hds Hforce).
    rewrite IH by exact Hdir. cbn [fs stdout stderr calls asked repeat concat].
    now rewrite <- !app_assoc.
Qed.

(** C4, witness: [init demo] run three times on a [/work/demo] that holds
    files. *)
Lemma init_without_force_repeats_witness :
  @repeatInit Demo.happyHost 3 4 (Some "demo") ∅ None Demo.staleDemo
  = ([Exit 1; Exit 1; Exit 1],
     mkWorld (fs Demo.staleDemo) (bannerLines ++ bannerLines ++ bannerLines)
       [notEmptyMessage ["work"; "demo"]; notEmptyMessage ["work"; "demo"];
        notEmptyMessage ["work"; "demo"]] [] 0).
Proof.
  refine (@init_without_force_repeats Demo.happyHost 4 (Some "demo") ∅ None
            [("old.txt", File "old"); ("notes", Dir [("a", File "x")])]
            "old.txt" 3 Demo.staleDemo eq_refl (or_introl eq_refl) _ _ _).
  - discriminate.
  - discriminate.
  - set_solver.
Defined.

(** ** Forced clean-up of the target *)


Lemma rmSync_entry (dir : path) (name : string) (w : world) es :
  lookup dir (fs w) = Some (Dir es) ->
  exists n',
    alterDir dir (fun cur => Ok (removeEntry name cur)) (fs w) = Ok n'
    /\ lookup dir n' = Some (Dir (removeEntry name es))
    /\ rmSync (join1 dir name) w
       = (Ret tt, mkWorld n' (stdout w) (stderr w)
                    (calls w ++ [RmCall (join1 dir name)]) (asked w)).
Proof.
  intros Hdir.
  destruct (alterDir_ok dir (fun cur => Ok (removeEntry name cur)) (fs w) es _
              Hdir eq_refl) as [n' [Ha Hl]].
  exists n'. split; [exact Ha|]. split; [exact Hl|].
  unfold rmSync. apply mutate_ok. unfold remove, join1.
  now rewrite unsnoc_app, Ha.
Qed.











(** ** Template provisioner *)

Lemma rmFree_same {A} (m : M A) :
  (forall w, calls (snd (m w)) = calls w) -> rmFree m.
Proof.
  intros Hm w. exists []. rewrite app_nil_r. split; [apply Hm | constructor].
Qed.

Lemma rmFree_ret {A} (a : A) : rmFree (ret a).
Proof. now apply rmFree_same. Qed.

Lemma rmFree_bind {A B} (m : M A) (k : A -> M B) :
  rmFree m -> (forall a, rmFree (k a)) -> rmFree (bind m k).
Proof.
  intros Hm Hk w. destruct (Hm w) as [d1 [E1 F1]]. unfold bind.
  destruct (m w) as [[a| e | c |] w1]; cbn [snd] in *; eauto.
  destruct (Hk a w1) as [d2 [E2 F2]]. exists (d1 ++ d2). split.
  - now rewrite E2, E1, <- app_assoc.
  - apply Forall_app. now split.
Qed.

Lemma rmFree_mutate (c : call) (syscall : string) (p : path) f :
  notRm c -> rmFree (mutate c syscall p f).
Proof.
  intros Hc w. exists [c]. unfold mutate, bind, logCall. cbn.
  destruct (f (fs w)); cbn; split; auto.
Qed.

Lemma rmFree_forEach {A} (l : list A) (body : A -> M unit) :
  (forall x, rmFree (body x)) -> rmFree (forEach l body).
Proof.
  intros Hb. induction l as [|x l IH]; cbn [forEach].
  - apply rmFree_ret.
  - apply rmFree_bind; [apply Hb | intros _; exact IH].
Qed.

Lemma rmFree_existsSync (p : path) : rmFree (existsSync p).
Proof. now apply rmFree_same. Qed.

Lemma rmFree_readdirTypesSync (p : path) : rmFree (readdirTypesSync p).
Proof.
  apply rmFree_same. intros w. unfold readdirTypesSync.
  now destruct (lookup p (fs w)) as [[|]|].
Qed.

Lemma rmFree_ensureDir (p : path) : rmFree (ensureDir p).
Proof.
  apply rmFree_bind; [apply rmFree_existsSync|]. intros [|]; cbn [negb].
  - apply rmFree_ret.
  - now apply rmFree_mutate.
Qed.

Lemma rmFree_copyDir (fuel : nat) :
  forall sourceDir targetDir, rmFree (copyDir fuel sourceDir targetDir).
Proof.
  induction fuel as [|fuel IH]; intros sourceDir targetDir; cbn [copyDir].
  - now apply rmFree_same.
  - apply rmFree_bind; [apply rmFree_ensureDir|]. intros _.
    apply rmFree_bind; [apply rmFree_readdirTypesSync|]. intros entries.
    apply rmFree_forEach. intros [name isDir].
    destruct (copySkipped name); [apply rmFree_ret|].
    destruct isDir; [apply IH|]. now apply rmFree_mutate.
Qed.

Lemma getEntry_removeEntry (name : string) es :
  getEntry name (removeEntry name es) = None.
Proof.
  induction es as [|[k m] es IH]; [reflexivity|].
  unfold removeEntry in *. cbn [List.filter fst].
  destruct (String.eqb k name) eqn:E; cbn [negb]; [exact IH|].
  cbn [getEntry]. now rewrite E.
Qed.

Section Staging.
Context {H : Host}.

Lemma rmFree_spawnSync command args dir : rmFree (spawnSync command args dir).
Proof.
  intros w. exists [SpawnCall command args dir].
  rewrite spawnSync_run. cbn. split; [reflexivity|]. repeat constructor.
Qed.

Lemma rmFree_runCommand command args dir : rmFree (runCommand command args dir).
Proof.
  apply rmFree_bind; [apply rmFree_spawnSync|]. intros result.
  destruct (spawnError result); [now apply rmFree_same|].
  destruct (spawnStatus result) as [status|]; [|apply rmFree_ret].
  destruct (negb (status =? 0)); [now apply rmFree_same | apply rmFree_ret].
Qed.

Lemma rmFree_mkdtempSync prefix : rmFree (mkdtempSync prefix).
Proof.
  intros w. unfold mkdtempSync.
  set (created := match unsnoc prefix with
                  | Some (parent, stem) =>
                      parent ++ [(stem ++ mkdtempSuffix (fs w))%string]
                  | None => []
                  end).
  exact (rmFree_bind
           (mutate (MkdtempCall prefix) "mkdtemp" created (mkdir1 created))
           (fun _ => ret created)
           (rmFree_mutate (MkdtempCall prefix) "mkdtemp" created
              (mkdir1 created) I)
           (fun _ => rmFree_ret created) w).
Qed.

Lemma mkdtempSync_under_tmpdir (w w1 : world) (tempRoot : path) :
  mkdtempSync (join1 tmpdir "webclaw-") w = (Ret tempRoot, w1) ->
  tempRoot = join1 tmpdir ("webclaw-" ++ mkdtempSuffix (fs w))%string.
Proof.
  unfold mkdtempSync, join1. rewrite unsnoc_app. unfold bind.
  destruct (mutate _ _ _ _ w) as [[[]| | |] w']; unfold ret; congruence.
Qed.

End Staging.

Lemma mutate_calls (c : call) (syscall : string) (p : path) f (w : world) :
  calls (snd (mutate c syscall p f w)) = calls w ++ [c].
Proof. unfold mutate, bind, logCall. cbn. now destruct (f (fs w)). Qed.

(** C1, as amended.  On the clone-then-copy path of [populateTemplate] (no
    local template, the target is the current directory), once the staging
    directory is made and the clone has returned: when the copy returns,
    the staging directory is removed, recursively and forcibly, as the last
    step; when the copy throws, the error leaves [populateTemplate] at once
    with the world as the copy left it, and no removal has been attempted. *)
Theorem populateTemplate_staging {H : Host} (fuel : nat) (targetDir : path)
    (w w1 w2 : world) (tempRoot : path) :
  getLocalTemplateSource w = (Ret None, w) ->
  mkdtempSync (join1 tmpdir "webclaw-") w = (Ret tempRoot, w1) ->
  cloneRepo (join1 tempRoot "repo") w1 = (Ret tt, w2) ->
  (forall w3,
     copyDir fuel (join1 tempRoot "repo") targetDir w2 = (Ret tt, w3) ->
     populateTemplate fuel targetDir true w = rmSync tempRoot w3
     /\ calls (snd (populateTemplate fuel targetDir true w))
        = calls w3 ++ [RmCall tempRoot]
     /\ (forall es,
           lookup tmpdir (fs w3) = Some (Dir es) ->
           fst (populateTemplate fuel targetDir true w) = Ret tt
           /\ lookup tempRoot (fs (snd (populateTemplate fuel targetDir true w)))
              = None))
  /\ (forall e w3,
        copyDir fuel (join1 tempRoot "repo") targetDir w2 = (Throw e, w3) ->
        populateTemplate fuel targetDir true w = (Throw e, w3)
        /\ exists delta, calls w3 = calls w ++ delta /\ Forall notRm delta).
Proof.
  intros Hlocal Htemp Hclone.
  assert (Hrun : forall o w3,
    copyDir fuel (join1 tempRoot "repo") targetDir w2 = (o, w3) ->
    populateTemplate fuel targetDir true w
    = match o with
      | Ret _ => rmSync tempRoot w3
      | Throw e => (Throw e, w3)
      | Exit c => (Exit c, w3)
      | OutOfFuel => (OutOfFuel, w3)
      end).
  { intros o w3 Hcopy. unfold populateTemplate.
    rewrite (bind_run _ _ _ _ _ Hlocal). cbn [negb].
    rewrite (bind_run _ _ _ _ _ Htemp), (bind_run _ _ _ _ _ Hclone).
    unfold bind at 1. rewrite Hcopy. now destruct o. }
  split.
  - intros w3 Hcopy. rewrite (Hrun _ _ Hcopy). split; [reflexivity|]. split.
    + apply mutate_calls.
    + intros es Htmp.
      rewrite (mkdtempSync_under_tmpdir _ _ _ Htemp).
      destruct (rmSync_entry tmpdir
                  ("webclaw-" ++ mkdtempSuffix (fs w))%string w3 es Htmp)
        as [n' [_ [Hl Hrm]]].
      rewrite Hrm. cbn [fst snd fs]. split; [reflexivity|].
      unfold join1. rewrite lookup_join, Hl. cbn [lookup].
      now rewrite getEntry_removeEntry.
  - intros e w3 Hcopy. rewrite (Hrun _ _ Hcopy). split; [reflexivity|].
    destruct (rmFree_mkdtempSync (join1 tmpdir "webclaw-") w) as [d1 [E1 F1]].
    destruct (rmFree_runCommand "git"
                ["clone"; "--depth"; "1"; REPO_URL;
                 toString (join1 tempRoot "repo")] cwd w1) as [d2 [E2 F2]].
    destruct (rmFree_copyDir fuel (join1 tempRoot "repo") targetDir w2)
      as [d3 [E3 F3]].
    rewrite Htemp in E1. fold (cloneRepo (join1 tempRoot "repo")) in E2.
    rewrite Hclone in E2. rewrite Hcopy in E3. cbn [snd] in *.
    exists (d1 ++ d2 ++ d3). split.
    + now rewrite E3, E2, E1, <- !app_assoc.
    + rewrite !Forall_app. auto.
Qed.

(** C1, witness: [populateTemplate] into an empty [/work], with a clone
    and a copy that succeed; the staging directory is gone afterwards. *)
Lemma populateTemplate_staging_witness :
  fst (populateTemplate (H := Demo.happyHost) 4 ["work"] true Demo.emptyWork)
  = Ret tt
  /\ lookup ["tmp"; "webclaw-Ab3xYz"]
       (fs (snd (populateTemplate (H := Demo.happyHost) 4 ["work"] true
                   Demo.emptyWork)))
     = None.
Proof.
  refine (proj2 (proj2 (proj1
    (@populateTemplate_staging Demo.happyHost 4 ["work"] Demo.emptyWork
       (snd (mkdtempSync (H := Demo.happyHost) ["tmp"; "webclaw-"] Demo.emptyWork))
       (snd ((mkdtempSync (H := Demo.happyHost) ["tmp"; "webclaw-"] ;;
              cloneRepo (H := Demo.happyHost) ["tmp"; "webclaw-Ab3xYz"; "repo"])
               Demo.emptyWork))
       ["tmp"; "webclaw-Ab3xYz"] eq_refl eq_refl eq_refl)
    (snd ((mkdtempSync (H := Demo.happyHost) ["tmp"; "webclaw-"] ;;
           cloneRepo (H := Demo.happyHost) ["tmp"; "webclaw-Ab3xYz"; "repo"] ;;
           copyDir 4 ["tmp"; "webclaw-Ab3xYz"; "repo"] ["work"]) Demo.emptyWork))
    eq_refl))
    [("webclaw-Ab3xYz",
      Dir [("repo", Dir [(".git", Dir []);
                         ("package.json",
                          File (Demo.manifestText Demo.manifestSpaced))])])]
    eq_refl).
Defined.

(** C1, counterexample to the claim as stated, in two runs.  In the first
    the clone succeeds and the target holds a directory where the template
    has a file: [copyFileSync] throws, the error leaves [populateTemplate]
    without any [rmSync] call, and the staging directory stays, with the
    clone in it.  In the second [git clone] is killed by a signal, so
    [runCommand] returns and the copy throws on the missing clone; this
    run is reached from [init] in an empty current directory, which ends
    with the same error and the staging directory still there. *)
Lemma populateTemplate_leaves_staging_on_copy_failure :
  (exists w3,
     populateTemplate (H := Demo.happyHost) 4 ["work"] true Demo.conflictWork
     = (Throw (SystemError EISDIR "copyfile"
                 ["tmp"; "webclaw-Ab3xYz"; "repo"; "package.json"]), w3)
     /\ calls w3
        = [MkdtempCall ["tmp"; "webclaw-"];
           SpawnCall "git"
             ["clone"; "--depth"; "1"; REPO_URL; "/tmp/webclaw-Ab3xYz/repo"]
             ["work"];
           CopyFileCall ["tmp"; "webclaw-Ab3xYz"; "repo"; "package.json"]
             ["work"; "package.json"]]
     /\ lookup ["tmp"; "webclaw-Ab3xYz"; "repo"; "package.json"] (fs w3)
        = Some (File (Demo.manifestText Demo.manifestSpaced)))
  /\ (exists w2 w3,
        (mkdtempSync (H := Demo.killedHost) ["tmp"; "webclaw-"] ;;
         cloneRepo (H := Demo.killedHost) ["tmp"; "webclaw-Ab3xYz"; "repo"])
          Demo.emptyWork = (Ret tt, w2)
        /\ copyDir 4 ["tmp"; "webclaw-Ab3xYz"; "repo"] ["work"] w2
           = (Throw (SystemError ENOENT "scandir"
                       ["tmp"; "webclaw-Ab3xYz"; "repo"]), w3)
        /\ populateTemplate (H := Demo.killedHost) 4 ["work"] true
             Demo.emptyWork
           = (Throw (SystemError ENOENT "scandir"
                       ["tmp"; "webclaw-Ab3xYz"; "repo"]), w3)
        /\ calls w3
           = [MkdtempCall ["tmp"; "webclaw-"];
              SpawnCall "git"
                ["clone"; "--depth"; "1"; REPO_URL; "/tmp/webclaw-Ab3xYz/repo"]
                ["work"]]
        /\ lookup ["tmp"; "webclaw-Ab3xYz"] (fs w3) = Some (Dir [])
        /\ fst (initProject (H := Demo.killedHost) 4 None ∅ None
                  Demo.emptyWork)
           = Throw (SystemError ENOENT "scandir"
                      ["tmp"; "webclaw-Ab3xYz"; "repo"])
        /\ lookup ["tmp"; "webclaw-Ab3xYz"]
             (fs (snd (initProject (H := Demo.killedHost) 4 None ∅ None
                         Demo.emptyWork)))
           = Some (Dir [])).
Proof.
  split.
  - eexists. split; [vm_compute; reflexivity|]. split; reflexivity.
  - eexists. eexists.
    split; [vm_compute; reflexivity|].
    split; [vm_compute; reflexivity|].
    repeat split; vm_compute; reflexivity.
Qed.

Lemma includes_startsWith (s p : string) :
  startsWith s p = true -> includes s p = true.
Proof. intros E. destruct s; cbn [includes]; now rewrite E. Qed.

Lemma includes_tail (c : ascii) (s p : string) :
  includes s p = true -> includes (String c s) p = true.
Proof. intros E. cbn [includes]. rewrite E. apply orb_true_r. Qed.

Lemma matchPortAt_startsWith (s rest : string) :
  matchPortAt s = Some rest -> startsWith s "--port" = true.
Proof.
  unfold matchPortAt. destruct (startsWith s "--port"); [reflexivity|discriminate].
Qed.

Lemma hasPortMatch_includes (s : string) :
  hasPortMatch s = true -> includes s "--port" = true.
Proof.
  induction s as [|c s IH]; [discriminate|].
  cbn [hasPortMatch]. destruct (matchPortAt (String c s)) as [rest|] eqn:E.
  - intros _. apply includes_startsWith. now apply matchPortAt_startsWith in E.
  - intros Hs. apply includes_tail. now apply IH.
Qed.

(** Where the pattern matches, the leftmost match is replaced. *)
Lemma replacePort_match (s replacement : string) :
  hasPortMatch s = true ->
  includes (replacePort s replacement) replacement = true.
Proof.
  induction s as [|c s IH].
  - cbn. discriminate.
  - cbn [hasPortMatch replacePort].
    destruct (matchPortAt (String c s)) as [rest|].
    + intros _. apply includes_startsWith, startsWith_append.
    + intros Hs. apply includes_tail. now apply IH.
Qed.

(** Where the pattern matches nowhere, nothing is replaced. *)
Lemma replacePort_no_match (s replacement : string) :
  hasPortMatch s = false -> replacePort s replacement = s.
Proof.
  induction s as [|c s IH].
  - cbn. reflexivity.
  - cbn [hasPortMatch replacePort].
    destruct (matchPortAt (String c s)) as [rest|]; [discriminate|].
    intros Hs. now rewrite IH.
Qed.

Section DevPort.
Context {H : Host}.

(** The three cases of the dev-script rewrite: without [--port] the option
    is appended; with a match of [--port\s+\d+] the leftmost match becomes
    the new option; with [--port] but no match the script is unchanged. *)
Lemma patchDevScript_cases (dev : string) (port : number) :
  (includes dev "--port" = false ->
   patchDevScript dev port
   = (dev ++ " --port " ++ numberToString port)%string
   /\ includes (patchDevScript dev port)
        ("--port " ++ numberToString port) = true)
  /\ (hasPortMatch dev = true ->
      includes (patchDevScript dev port)
        ("--port " ++ numberToString port) = true)
  /\ (includes dev "--port" = true -> hasPortMatch dev = false ->
      patchDevScript dev port = dev).
Proof.
  unfold patchDevScript. split; [|split].
  - intros E. rewrite E. split; [reflexivity|].
    replace (dev ++ " --port " ++ numberToString port)%string
      with ((dev ++ " ") ++ ("--port " ++ numberToString port) ++ "")%string.
    + apply includes_append.
    + now rewrite append_empty_r, append_assoc'.
  - intros E. rewrite (hasPortMatch_includes _ E). now apply replacePort_match.
  - intros E1 E2. rewrite E1. now apply replacePort_no_match.
Qed.

Lemma manifestPath_if (targetDir : path) (w : world) :
  (if match lookup (join1 (join1 targetDir "apps") "webclaw") (fs w) with
      | Some _ => true
      | None => false
      end
   then join1 (join1 (join1 targetDir "apps") "webclaw") "package.json"
   else join1 targetDir "package.json")
  = manifestPathOf targetDir (fs w).
Proof.
  unfold manifestPathOf.
  now destruct (lookup (join1 (join1 targetDir "apps") "webclaw") (fs w)).
Qed.

(** Without a manifest [setDevPort] does nothing. *)
Lemma setDevPort_without_manifest (targetDir : path) (port : number)
    (w : world) :
  lookup (manifestPathOf targetDir (fs w)) (fs w) = None ->
  setDevPort targetDir port w = (Ret tt, w).
Proof.
  intros Hnone. unfold setDevPort.
  rewrite (bind_run _ _ _ _ _ (existsSync_run _ _)), manifestPath_if.
  cbv zeta.
  rewrite (bind_run _ _ _ _ _ (existsSync_run _ _)), Hnone. reflexivity.
Qed.

(** With a manifest, [setDevPort] either leaves the world alone (no dev
    script), throws on a malformed manifest, or writes the manifest back
    once, as the serialised object followed by a line feed. *)
Lemma setDevPort_with_manifest (targetDir : path) (port : number) (w : world)
    (text : string) :
  lookup (manifestPathOf targetDir (fs w)) (fs w) = Some (File text) ->
  match JSON_parse text with
  | inl e => setDevPort targetDir port w = (Throw e, w)
  | inr packageJson =>
      match devScriptOf packageJson with
      | None =>
          packageJson <> JNull -> setDevPort targetDir port w = (Ret tt, w)
      | Some dev =>
          exists patched,
            setDevPort targetDir port w
            = writeFileSync (manifestPathOf targetDir (fs w))
                (JSON_stringify patched ++ nl) w
            /\ devScriptOf patched = Some (patchDevScript dev port)
      end
  end.
Proof.
  intros Hfile. unfold setDevPort.
  rewrite (bind_run _ _ _ _ _ (existsSync_run _ _)), manifestPath_if.
  cbv zeta.
  rewrite (bind_run _ _ _ _ _ (existsSync_run _ _)), Hfile. cbn [negb].
  assert (Hread : readFileSync (manifestPathOf targetDir (fs w)) w
                  = (Ret text, w)).
  { unfold readFileSync, getFile. now rewrite Hfile. }
  rewrite (bind_run _ _ _ _ _ Hread).
  destruct (JSON_parse text) as [e|packageJson]; [reflexivity|].
  unfold devScriptOf.
  destruct packageJson as [|b|n|s0|items|fields]; cbn [getProp isTruthy negb];
    try (intros _; reflexivity); try reflexivity.
  - intros Hnull. congruence.
  - destruct (getField "scripts" fields) as [scripts|] eqn:Es;
      [|cbn; intros _; reflexivity].
    destruct (isTruthy (Some scripts)) eqn:Et; cbn [negb];
      [|intros _; reflexivity].
    destruct scripts as [|b|n|s0|items|sfields]; cbn [getProp];
      try (intros _; reflexivity).
    destruct (getField "dev" sfields) as [[|b|n|dev|items|dfields]|] eqn:Ed;
      try (intros _; reflexivity).
    eexists. split; [reflexivity|].
    cbn [setProp getProp].
    assert (Hget : forall k v fs0,
              getField k (setField k v fs0) = Some v).
    { intros k v fs0. induction fs0 as [|[k' v'] fs0 IH]; cbn.
      - now rewrite String.eqb_refl.
      - destruct (String.eqb k' k) eqn:E; cbn; rewrite E; [reflexivity|apply IH]. }
    rewrite !Hget. cbn [isTruthy getProp]. now rewrite Hget.
Qed.

End DevPort.

(** C6, the code at a failing input.  The manifest's dev script gives the
    port as [--port=3000].  The script holds [--port], so [setDevPort]
    takes the rewrite branch, but the pattern [--port\s+\d+] matches nowhere
    and the script comes back unchanged: the manifest is written back with
    the old dev script, which does not hold [--port 4000].  (With the port
    as a separate word the rewrite works, and without any [--port] the
    option is appended.) *)
Theorem setDevPort_misses_equals_form :
  exists w',
    setDevPort (H := Demo.equalsHost) ["work"; "app"] (ofZ 4000)
      (Demo.appWorld Demo.manifestEquals) = (Ret tt, w')
    /\ calls w'
       = [WriteFileCall ["work"; "app"; "package.json"]
            (Demo.manifestText Demo.manifestEquals)]
    /\ lookup ["work"; "app"; "package.json"] (fs w')
       = Some (File (Demo.manifestText Demo.manifestEquals))
    /\ numberToString (H := Demo.equalsHost) (ofZ 4000) = "4000"
    /\ patchDevScript (H := Demo.equalsHost) "vite dev --port=3000" (ofZ 4000)
       = "vite dev --port=3000"
    /\ includes "vite dev --port=3000" "--port 4000" = false
    /\ patchDevScript (H := Demo.equalsHost) "vite dev --port 3000" (ofZ 4000)
       = "vite dev --port 4000"
    /\ patchDevScript (H := Demo.equalsHost) "vite dev" (ofZ 4000)
       = "vite dev --port 4000".
Proof.
  eexists. split; [vm_compute; reflexivity|].
  repeat split; vm_compute; reflexivity.
Qed.

(** ** Instances of the unconditional statements *)

(** C9, witness: [/work/demo] holds [old.txt], so it is not empty. *)
Lemma isDirEmpty_spec_witness :
  isDirEmpty ["work"; "demo"] Demo.staleDemo = (Ret false, Demo.staleDemo).
Proof.
  refine (proj2 (proj2 (isDirEmpty_spec ["work"; "demo"] Demo.staleDemo))
            [("old.txt", File "old"); ("notes", Dir [("a", File "x")])]
            "old.txt" eq_refl (or_introl eq_refl) _ _); discriminate.
Defined.

(** C10, witness: [git init] is killed in an empty [/work]; the call is
    logged, nothing is printed, and the function returns. *)
Lemma ensureGitRepository_spec_witness :
  ensureGitRepository (H := Demo.killedHost) ["work"] Demo.emptyWork
  = (Ret tt,
     mkWorld (fs Demo.emptyWork) [] [] [SpawnCall "git" ["init"] ["work"]] 0).
Proof.
  exact (proj1 (proj2 (@ensureGitRepository_spec Demo.killedHost ["work"]
                         Demo.emptyWork)) eq_refl).
Defined.

(** C7, witness: the numeral of 8080 is accepted. *)
Lemma parsePort_spec_witness :
  parsePort (VString "8080") (ofZ 3000) = ofZ 8080.
Proof.
  refine (proj2 (proj2 (proj2 (proj2 (proj2 (proj2 (proj2 (proj2
            (parsePort_spec (ofZ 3000))))))))) 8080 _).
  lia.
Defined.

(** ** Dispatcher *)

Section Dispatcher.
Context {H : Host}.

(** [process.exit] inside [main] ends the process with that status; the
    top-level handler only sees thrown errors. *)
Lemma program_exit (fuel : nat) (args : list string) (w w' : world) (c : Z) :
  main fuel args w = (Exit c, w') -> program fuel args w = (Exit c, w').
Proof. intros E. unfold program. now rewrite E. Qed.

Lemma program_throw (fuel : nat) (args : list string) (w w' : world)
    (e : error) :
  main fuel args w = (Throw e, w') ->
  program fuel args w
  = (Exit 1,
     mkWorld (fs w') (stdout w') (stderr w' ++ [(errorMessage e ++ nl)%string])
       (calls w') (asked w')).
Proof. intros E. unfold program. now rewrite E. Qed.

(** [webclaw init <dir>] is [initProject] on [dir] with no options. *)
Lemma main_init (fuel : nat) (dir : string) :
  startsWith dir "-" = false ->
  main fuel ["init"; dir] = initProject fuel (Some dir) ∅ None.
Proof.
  intros Hdir. unfold main, parseCliArgs.
  cbn [parseLoop]. change (startsWith "init" "-") with false. cbn [negb].
  rewrite Hdir. cbn [negb parseLoop flags positionals pushPositional emptyParsed
                     app head orElse truthy].
  rewrite !bool_decide_eq_false_2 by set_solver.
  reflexivity.
Qed.

End Dispatcher.

(** * Further properties *)

Import Laws.

(** ** Argument parser, continued *)

Lemma indexOf_split (s : string) (c : ascii) (i : nat) :
  indexOf s c = Some i ->
  s = (take i s ++ String c (drop (S i) s))%string.
Proof.
  revert i. induction s as [|d s IH]; intros i; [discriminate|].
  cbn [indexOf]. destruct (Ascii.eqb d c) eqn:E.
  - intros [= <-]. apply Ascii.eqb_eq in E. subst d. destruct s; reflexivity.
  - destruct (indexOf s c) as [j|]; [|discriminate].
    intros [= <-]. cbn [take drop]. rewrite append_cons.
    f_equal. now apply IH.
Qed.

Lemma key_of_long_option (arg : string) (i : nat) :
  startsWith arg "--" = true -> indexOf arg "="%char = Some i ->
  startsWith (take i arg) "--" = true.
Proof.
  destruct arg as [|a [|b s]]; try discriminate.
  - cbn. now rewrite andb_false_r.
  - cbn [startsWith]. intros E.
    apply andb_true_iff in E. destruct E as [Ea E].
    apply andb_true_iff in E. destruct E as [Eb _].
    apply Ascii.eqb_eq in Ea, Eb. subst a b.
    cbn [indexOf]. change (Ascii.eqb "-" "=") with false. cbv iota.
    destruct (indexOf s "="%char) as [j|]; [|discriminate].
    intros [= <-]. cbn [take startsWith].
    destruct (take j s); reflexivity.
Qed.

Lemma fromArgs_addFlag (args : list string) (arg : string) (acc : ParsedArgs) :
  In arg args -> startsWith arg "-" = true ->
  fromArgs args acc -> fromArgs args (addFlag arg acc).
Proof.
  intros Hin Hdash (Hp & Hf & Hv). split; [exact Hp|]. split; [|exact Hv].
  intros f Hfl. cbn in Hfl. apply elem_of_union in Hfl.
  destruct Hfl as [Hfl|Hfl]; [|now apply Hf].
  apply elem_of_singleton in Hfl. now subst f.
Qed.

Lemma fromArgs_pushPositional (args : list string) (arg : string)
    (acc : ParsedArgs) :
  In arg args -> startsWith arg "-" = false ->
  fromArgs args acc -> fromArgs args (pushPositional arg acc).
Proof.
  intros Hin Hdash (Hp & Hf & Hv). split; [|split; [exact Hf | exact Hv]].
  intros p Hpos. cbn in Hpos. apply in_app_or in Hpos.
  destruct Hpos as [Hpos|[<-|[]]]; [now apply Hp | now split].
Qed.

Lemma fromArgs_setValue (args : list string) (key value : string)
    (acc : ParsedArgs) :
  startsWith key "--" = true ->
  (In (key ++ "=" ++ value)%string args
   \/ (isValueOption key = true /\ truthy value = true
       /\ startsWith value "-" = false
       /\ exists pre post, args = pre ++ key :: value :: post)) ->
  fromArgs args acc -> fromArgs args (setValue key value acc).
Proof.
  intros Hkey Hsrc (Hp & Hf & Hv). split; [exact Hp|]. split; [exact Hf|].
  intros k v Hkv. cbn in Hkv.
  destruct (decide (key = k)) as [<-|Hne].
  - rewrite lookup_insert_eq in Hkv. injection Hkv as <-. now split.
  - rewrite lookup_insert_ne in Hkv by exact Hne. now apply Hv.
Qed.

Lemma parseLoop_fromArgs (args : list string) :
  forall (n : nat) (rest done : list string) (acc : ParsedArgs),
    (length rest <= n)%nat -> args = done ++ rest ->
    fromArgs args acc -> fromArgs args (parseLoop rest acc).
Proof.
  induction n as [|n IH]; intros rest done acc Hlen Hargs Hacc.
  - destruct rest; [exact Hacc | cbn in Hlen; lia].
  - destruct rest as [|arg rest]; [exact Hacc|].
    cbn in Hlen.
    assert (Hin : In arg args) by (subst args; apply in_elt).
    assert (Hnext : args = (done ++ [arg]) ++ rest)
      by (now rewrite <- app_assoc).
    cbn [parseLoop].
    destruct (startsWith arg "-") eqn:Edash; cbn [negb].
    2:{ apply (IH rest (done ++ [arg])); [lia | exact Hnext|].
        now apply fromArgs_pushPositional. }
    destruct (String.eqb arg "-h" || String.eqb arg "--help").
    { apply (IH rest (done ++ [arg])); [lia | exact Hnext|].
      now apply fromArgs_addFlag. }
    destruct (startsWith arg "--") eqn:Elong; cbn [negb].
    2:{ apply (IH rest (done ++ [arg])); [lia | exact Hnext|].
        now apply fromArgs_addFlag. }
    destruct (indexOf arg "="%char) as [i|] eqn:Eidx.
    { apply (IH rest (done ++ [arg])); [lia | exact Hnext|].
      apply fromArgs_setValue; [now apply key_of_long_option | | exact Hacc].
      left. change ("=" ++ drop (S i) arg)%string
        with (String "=" (drop (S i) arg)).
      now rewrite <- (indexOf_split _ _ _ Eidx). }
    destruct rest as [|nextArg rest'].
    { apply (IH [] (done ++ [arg])); [cbn; lia | exact Hnext|].
      now apply fromArgs_addFlag. }
    cbn in Hlen.
    destruct (isValueOption arg && truthy nextArg
              && negb (startsWith nextArg "-")) eqn:Etake.
    + apply andb_true_iff in Etake. destruct Etake as [Etake Enodash].
      apply andb_true_iff in Etake. destruct Etake as [Eopt Etruthy].
      apply negb_true_iff in Enodash.
      apply (IH rest' (done ++ [arg; nextArg])); [lia| |].
      * now rewrite <- app_assoc.
      * apply fromArgs_setValue; [exact Elong | | exact Hacc].
        right. repeat split; try assumption. now exists done, rest'.
    + apply (IH (nextArg :: rest') (done ++ [arg])); [cbn; lia | exact Hnext|].
      now apply fromArgs_addFlag.
Qed.

(** X1. [parseCliArgs] invents nothing.  Every positional is a token of
    the argument list that does not start with a dash; every flag is a
    token that does; every entry of the values map has a key that starts
    with [--] and comes either from a token [key=value] or from a
    value-bearing option name directly followed by its non-empty,
    dash-free value. *)
Theorem parseCliArgs_fromArgs (args : list string) :
  fromArgs args (parseCliArgs args).
Proof.
  apply (parseLoop_fromArgs args (length args) args []);
    [lia | reflexivity|].
  split; [intros p []|]. split.
  - intros f Hf. cbn in Hf. set_solver.
  - intros k v Hkv. cbn in Hkv. now rewrite lookup_empty in Hkv.
Qed.

Lemma parseLoop_takes_value (name value : string) (post : list string)
    (acc : ParsedArgs) :
  isValueOption name = true -> truthy value = true ->
  startsWith value "-" = false ->
  parseLoop (name :: value :: post) acc
  = parseLoop post (setValue name value acc).
Proof.
  intros Hname Htruthy Hdash.
  assert (Hstep :
    parseLoop (name :: value :: post) acc
    = if isValueOption name && truthy value && negb (startsWith value "-")
      then parseLoop post (setValue name value acc)
      else parseLoop (value :: post) (addFlag name acc)).
  { destruct (isValueOption_cases name Hname) as [->|[->|[->|[->| ->]]]];
      reflexivity. }
  now rewrite Hstep, Hname, Htruthy, Hdash.
Qed.

Lemma parseLoop_equals_token (name value : string) (post : list string)
    (acc : ParsedArgs) :
  isValueOption name = true ->
  startsWith (name ++ "=" ++ value) "-" = true
  /\ parseLoop ((name ++ "=" ++ value)%string :: post) acc
     = parseLoop post (setValue name value acc).
Proof.
  intros Hname.
  destruct (isValueOption_cases name Hname) as [->|[->|[->|[->| ->]]]];
    split; reflexivity.
Qed.

(** X2. The two spellings of a value-bearing option are interchangeable:
    wherever it stands in the argument list, [--name value] (with a
    non-empty value that does not start with a dash) parses to the same
    result as the single token [--name=value]. *)
Theorem parseCliArgs_spellings_agree (pre post : list string)
    (name value : string) :
  isValueOption name = true -> truthy value = true ->
  startsWith value "-" = false ->
  parseCliArgs (pre ++ name :: value :: post)
  = parseCliArgs (pre ++ (name ++ "=" ++ value)%string :: post).
Proof.
  intros Hname Htruthy Hdash.
  assert (Hdashname : startsWith name "-" = true).
  { destruct (isValueOption_cases name Hname) as [->|[->|[->|[->| ->]]]];
      reflexivity. }
  destruct (parseLoop_equals_token name value post
              (parseLoop pre emptyParsed) Hname) as [Hdasheq Heq].
  unfold parseCliArgs.
  rewrite (parseLoop_app_dash name (value :: post) Hdashname (length pre))
    by reflexivity.
  rewrite (parseLoop_app_dash _ post Hdasheq (length pre)) by reflexivity.
  rewrite Heq. now apply parseLoop_takes_value.
Qed.

(** X2, witness: [--port 4000] and [--port=4000] after [init]. *)
Lemma parseCliArgs_spellings_agree_witness :
  parseCliArgs (["init"] ++ "--port" :: "4000" :: ["--yes"])
  = parseCliArgs (["init"] ++ "--port=4000" :: ["--yes"]).
Proof.
  apply (parseCliArgs_spellings_agree ["init"] ["--yes"] "--port" "4000");
    reflexivity.
Defined.

Lemma help_flag_recorded (t : string) (args : list string) :
  t = "-h" \/ t = "--help" -> In t args -> t ∈ flags (parseCliArgs args).
Proof.
  intros Ht Hin. apply in_split in Hin. destruct Hin as (pre & post & ->).
  assert (Hdash : startsWith t "-" = true).
  { destruct Ht as [E|E]; rewrite E; reflexivity. }
  unfold parseCliArgs.
  rewrite (parseLoop_app_dash t post Hdash (length pre)) by reflexivity.
  assert (Hstep : forall acc, parseLoop (t :: post) acc
                              = parseLoop post (addFlag t acc)).
  { intros acc. destruct Ht as [E|E]; rewrite E; reflexivity. }
  rewrite Hstep, parseLoop_addFlag. cbn.
  apply elem_of_union. left. now apply elem_of_singleton.
Qed.

Lemma writeStdout_then {A} (s : string) (m : M A) (w : world) :
  (writeStdout s ;; m) w = m (printed [s] w).
Proof. reflexivity. Qed.

Lemma writeStderr_then {A} (s : string) (m : M A) (w : world) :
  (writeStderr s ;; m) w = m (complained [s] w).
Proof. reflexivity. Qed.

Lemma printed_printed (a b : list string) (w : world) :
  printed b (printed a w) = printed (a ++ b) w.
Proof. unfold printed. cbn. now rewrite app_assoc. Qed.

Lemma printHelp_run (w : world) : printHelp w = (Ret tt, printed helpLines w).
Proof.
  unfold printHelp. rewrite !writeStdout_then.
  change (writeStdout ?s ?v) with (Ret tt, printed [s] v).
  now rewrite !printed_printed.
Qed.

Section Dispatch.
Context {H : Host}.

(** X3. A help flag wins over everything else on the command line:
    whenever [-h] or [--help] occurs among the arguments, [main] prints
    the usage text and returns, whatever command and options stand beside
    it; the file system is untouched and no child process is started. *)
Theorem main_help (fuel : nat) (args : list string) (w : world) :
  In "-h" args \/ In "--help" args ->
  main fuel args w = (Ret tt, printed helpLines w).
Proof.
  intros Hhelp. unfold main.
  assert (E : bool_decide ("-h" ∈ flags (parseCliArgs args))
              || bool_decide ("--help" ∈ flags (parseCliArgs args)) = true).
  { apply orb_true_iff. destruct Hhelp as [Hh|Hh]; [left|right];
      apply bool_decide_eq_true_2, help_flag_recorded; auto. }
  rewrite E. apply printHelp_run.
Qed.

Lemma positionals_grow (n : nat) :
  forall (l : list string) (acc : ParsedArgs),
    (length l <= n)%nat ->
    exists more, positionals (parseLoop l acc) = positionals acc ++ more.
Proof.
  induction n as [|n IH]; intros l acc Hlen.
  - destruct l; [exists []; now rewrite app_nil_r | cbn in Hlen; lia].
  - destruct l as [|a l]; [exists []; now rewrite app_nil_r|].
    cbn in Hlen. cbn [parseLoop].
    assert (Hkeep : forall acc' (l' : list string),
              (length l' <= n)%nat -> positionals acc' = positionals acc ->
              exists more,
                positionals (parseLoop l' acc') = positionals acc ++ more).
    { intros acc' l' Hl' <-. now apply IH. }
    destruct (negb (startsWith a "-")).
    { destruct (IH l (pushPositional a acc)) as [more Hm]; [lia|].
      exists ([a] ++ more). rewrite Hm. cbn [positionals pushPositional].
      now rewrite <- app_assoc. }
    destruct (String.eqb a "-h" || String.eqb a "--help");
      [apply Hkeep; [lia | reflexivity]|].
    destruct (negb (startsWith a "--")); [apply Hkeep; [lia | reflexivity]|].
    destruct (indexOf a "="%char); [apply Hkeep; [lia | reflexivity]|].
    destruct l as [|b l]; [apply Hkeep; [cbn; lia | reflexivity]|].
    cbn in Hlen.
    destruct (isValueOption a && truthy b && negb (startsWith b "-"));
      apply Hkeep; cbn; try lia; reflexivity.
Qed.

(** With a command word in front and no help flag behind it, [main]
    dispatches on that word. *)
Lemma main_dispatch (fuel : nat) (command : string) (rest : list string) :
  startsWith command "-" = false -> truthy command = true ->
  ~ In "-h" rest -> ~ In "--help" rest ->
  main fuel (command :: rest)
  = if String.eqb command "init" then
      initProject fuel (positionals (parseCliArgs (command :: rest)) !! 1%nat)
        (flags (parseCliArgs (command :: rest))) None
    else if String.eqb command "doctor" then doctor
    else if isProjectScript command then runProjectScript command
    else (writeStderr ("Unknown command: " ++ command ++ nl ++ nl) ;;
          printHelp ;; exit 1).
Proof.
  intros Hdash Htruthy Hh Hhelp. unfold main.
  pose proof (parseLoop_fromArgs (command :: rest)
                (length (command :: rest)) (command :: rest) [] emptyParsed
                ltac:(lia) eq_refl) as Hfrom.
  destruct Hfrom as (_ & Hflags & _).
  { split; [intros p []|]. split.
    - intros f Hf. cbn in Hf. set_solver.
    - intros k v Hkv. cbn in Hkv. now rewrite lookup_empty in Hkv. }
  fold (parseCliArgs (command :: rest)) in Hflags.
  assert (Hno : forall t, startsWith t "-" = true -> ~ In t rest ->
                          t ∉ flags (parseCliArgs (command :: rest))).
  { intros t Ht Hnot Hin. destruct (Hflags t Hin) as [[<-|Hin'] _];
      [congruence | contradiction]. }
  rewrite (bool_decide_eq_false_2 _ (Hno "-h" eq_refl Hh)).
  rewrite (bool_decide_eq_false_2 _ (Hno "--help" eq_refl Hhelp)).
  cbn [orb].
  assert (Hhead : head (positionals (parseCliArgs (command :: rest)))
                  = Some command).
  { unfold parseCliArgs. cbn [parseLoop]. rewrite Hdash. cbn [negb].
    destruct (positionals_grow (length rest) rest
                (pushPositional command emptyParsed) ltac:(lia)) as [more Hm].
    rewrite Hm. reflexivity. }
  rewrite Hhead. cbn [orElse]. rewrite Htruthy. reflexivity.
Qed.

(** X4. An unknown command touches nothing: for a first word that is not
    [init], [doctor] or one of the five script names (and no help flag
    after it), [main] writes [Unknown command: <word>] to the error
    stream, prints the usage text to the output stream and exits with
    status 1, without any file-system call or child process. *)
Theorem main_unknown_command (fuel : nat) (command : string)
    (rest : list string) (w : world) :
  startsWith command "-" = false -> truthy command = true ->
  ~ In command ["init"; "doctor"; "dev"; "build"; "preview"; "test"; "lint"] ->
  ~ In "-h" rest -> ~ In "--help" rest ->
  main fuel (command :: rest) w
  = (Exit 1,
     mkWorld (fs w) (stdout w ++ helpLines)
       (stderr w ++ [("Unknown command: " ++ command ++ nl ++ nl)%string])
       (calls w) (asked w)).
Proof.
  intros Hdash Htruthy Hunknown Hh Hhelp.
  rewrite (main_dispatch fuel command rest Hdash Htruthy Hh Hhelp).
  assert (Hne : forall k, In k ["init"; "doctor"; "dev"; "build"; "preview";
                                "test"; "lint"] ->
                          String.eqb command k = false).
  { intros k Hk. apply String.eqb_neq. intros ->. contradiction. }
  rewrite (Hne "init"), (Hne "doctor") by (cbn; tauto).
  unfold isProjectScript. cbn [existsb].
  rewrite (Hne "dev"), (Hne "build"), (Hne "preview"), (Hne "test"),
    (Hne "lint") by (cbn; tauto).
  cbn [orb].
  rewrite writeStderr_then, (bind_run _ _ _ _ _ (printHelp_run _)).
  reflexivity.
Qed.

End Dispatch.

(** X3, witness: [init demo --force -h] only prints the usage text. *)
Lemma main_help_witness :
  main (H := Demo.happyHost) 4 ["init"; "demo"; "--force"; "-h"] Demo.staleDemo
  = (Ret tt, printed helpLines Demo.staleDemo).
Proof.
  apply main_help. left. cbn. tauto.
Defined.

(** X4, witness: [webclaw deploy --force]. *)
Lemma main_unknown_command_witness :
  main (H := Demo.happyHost) 4 ["deploy"; "--force"] Demo.staleDemo
  = (Exit 1,
     mkWorld (fs Demo.staleDemo) helpLines
       [("Unknown command: deploy" ++ nl ++ nl)%string] [] 0).
Proof.
  apply (main_unknown_command 4 "deploy" ["--force"] Demo.staleDemo);
    [reflexivity | reflexivity | | |]; cbn; intuition discriminate.
Defined.

(** ** Child processes and pass-through commands *)

Section Children.
Context {H : Host}.

Lemma spawnSync_afterChild (command : string) (args : list string)
    (dir : path) (w : world) :
  spawnSync command args dir w
  = (Ret (fst (runChild command args dir (fs w))),
     afterChild command args dir w).
Proof. apply spawnSync_run. Qed.

(** X5. [runCommand] hands the child's fate on unchanged: a spawn error
    is thrown, a non-zero exit status ends the process with exactly that
    status, and a zero status or a death by signal (no status) lets the
    caller go on.  In every case the child was started once and the world
    is the one it left. *)
Theorem runCommand_spec (command : string) (args : list string) (dir : path)
    (w : world) :
  let result := fst (runChild command args dir (fs w)) in
  (forall e, spawnError result = Some e ->
     runCommand command args dir w
     = (Throw e, afterChild command args dir w))
  /\ (forall status,
        spawnError result = None -> spawnStatus result = Some status ->
        status <> 0 ->
        runCommand command args dir w
        = (Exit status, afterChild command args dir w))
  /\ (spawnError result = None ->
      spawnStatus result = Some 0 \/ spawnStatus result = None ->
      runCommand command args dir w
      = (Ret tt, afterChild command args dir w)).
Proof.
  intros result. unfold runCommand.
  rewrite (bind_run _ _ _ _ _ (spawnSync_afterChild _ _ _ _)).
  fold result. repeat split.
  - intros e ->. reflexivity.
  - intros status -> -> Hs.
    now rewrite (proj2 (Z.eqb_neq status 0) Hs).
  - intros -> [-> | ->]; reflexivity.
Qed.

Lemma detectPackageManager_run (dir : path) (w : world) :
  detectPackageManager dir w = (Ret (packageManagerOf dir (fs w)), w).
Proof.
  unfold detectPackageManager, packageManagerOf.
  rewrite (bind_run _ _ _ _ _ (existsSync_run _ _)).
  destruct (lookup (join1 dir "pnpm-lock.yaml") (fs w)); [reflexivity|].
  rewrite (bind_run _ _ _ _ _ (existsSync_run _ _)).
  now destruct (lookup (join1 dir "yarn.lock") (fs w)).
Qed.

Lemma isProjectScript_cases (command : string) :
  isProjectScript command = true ->
  command = "dev" \/ command = "build" \/ command = "preview"
  \/ command = "test" \/ command = "lint".
Proof.
  unfold isProjectScript. cbn [existsb].
  rewrite !orb_true_iff, !String.eqb_eq. intuition discriminate.
Qed.

(** X6. The pass-through commands [dev], [build], [preview], [test] and
    [lint].  Without a manifest at [apps/webclaw/package.json] or at
    [package.json] under the current directory, the command writes the
    "no project" message and exits with status 1 without starting
    anything.  Otherwise it runs exactly one child: in a monorepo under
    pnpm, [pnpm -C apps/webclaw <command>] from the current directory; in a
    monorepo under another manager, [<manager> run <command>] inside
    [apps/webclaw]; in a single-package project, [<manager> run <command>]
    in the current directory.  The nested manifest decides the layout even
    when a root manifest exists too, and whatever else stands on the
    command line is not handed to the child. *)
Theorem main_passthrough (fuel : nat) (command : string) (rest : list string)
    (w : world) :
  isProjectScript command = true -> ~ In "-h" rest -> ~ In "--help" rest ->
  main fuel (command :: rest) w
  = match lookup (join1 (join1 (join1 cwd "apps") "webclaw") "package.json")
            (fs w),
          lookup (join1 cwd "package.json") (fs w) with
    | None, None => (Exit 1, complained [noProjectMessage] w)
    | Some _, _ =>
        if String.eqb (packageManagerOf cwd (fs w)) "pnpm"
        then runCommand "pnpm" ["-C"; "apps/webclaw"; command] cwd w
        else runCommand (packageManagerOf cwd (fs w)) ["run"; command]
               (join1 (join1 cwd "apps") "webclaw") w
    | None, Some _ =>
        runCommand (packageManagerOf cwd (fs w)) ["run"; command] cwd w
    end.
Proof.
  intros Hscript Hh Hhelp.
  assert (Hshape : startsWith command "-" = false /\ truthy command = true
                   /\ String.eqb command "init" = false
                   /\ String.eqb command "doctor" = false).
  { destruct (isProjectScript_cases command Hscript)
      as [->|[->|[->|[->| ->]]]]; repeat split. }
  destruct Hshape as (Hdash & Htruthy & Hinit & Hdoctor).
  rewrite (main_dispatch fuel command rest Hdash Htruthy Hh Hhelp).
  rewrite Hinit, Hdoctor, Hscript.
  unfold runProjectScript, detectProjectRoot.
  rewrite bind_assoc, (bind_run _ _ _ _ _ (existsSync_run _ _)).
  destruct (lookup (join1 (join1 (join1 cwd "apps") "webclaw") "package.json")
              (fs w)).
  - rewrite bind_ret, (bind_run _ _ _ _ _ (detectPackageManager_run _ _)).
    now destruct (String.eqb (packageManagerOf cwd (fs w)) "pnpm").
  - rewrite bind_assoc, (bind_run _ _ _ _ _ (existsSync_run _ _)).
    destruct (lookup (join1 cwd "package.json") (fs w)).
    + rewrite bind_ret, (bind_run _ _ _ _ _ (detectPackageManager_run _ _)).
      reflexivity.
    + reflexivity.
Qed.

End Children.

(** X6, witness: [webclaw dev] in a [/work] that holds no project. *)
Lemma main_passthrough_witness :
  main (H := Demo.happyHost) 4 ["dev"] Demo.usedWork
  = (Exit 1, complained [noProjectMessage] Demo.usedWork).
Proof.
  refine (@main_passthrough Demo.happyHost 4 "dev" [] Demo.usedWork
            eq_refl _ _); cbn; tauto.
Defined.

(** ** Doctor *)

Lemma decimal_shape_checked :
  forallb (fun m => negb (hasChar "." (decimal m)) && truthy (decimal m))
    (zrange 0 1001) = true.
Proof. vm_compute. reflexivity. Qed.

Lemma decimal_shape (m : Z) :
  0 <= m <= 1000 ->
  hasChar "." (decimal m) = false /\ truthy (decimal m) = true.
Proof.
  intros Hm. pose proof decimal_shape_checked as Hall.
  rewrite forallb_forall in Hall.
  specialize (Hall m (zrange_In 0 1001 m ltac:(lia))).
  apply andb_true_iff in Hall. destruct Hall as [Hdot Ht].
  now apply negb_true_iff in Hdot.
Qed.

Lemma lt_ofZ (a b : Z) : lt (ofZ a) (ofZ b) = (a <? b).
Proof.
  destruct (a <? b) eqn:E.
  - apply lt_finite. rewrite <- Zlt_Qlt. now apply Z.ltb_lt.
  - destruct (lt (ofZ a) (ofZ b)) eqn:L; [|reflexivity].
    apply lt_finite in L. rewrite <- Zlt_Qlt in L.
    apply Z.ltb_ge in E. lia.
Qed.

Section Doctor.
Context {H : Host}.

(** X7. [doctor] on a runtime whose version string is
    [<major>.<anything>]: it starts [pnpm --version] once, and the check
    passes, with [Environment looks good.] on the output stream, exactly
    when the major version is at least 20 and pnpm exits with status 0.
    Otherwise it exits with status 1 after writing one line per issue to
    the error stream, the runtime issue before the pnpm one. *)
Theorem doctor_spec (w : world) (major : Z) (rest : string) :
  0 <= major <= 1000 ->
  nodeVersion = (decimal major ++ "." ++ rest)%string ->
  let pnpmOk :=
    match spawnStatus (fst (runChild "pnpm" ["--version"] cwd (fs w))) with
    | Some 0 => true
    | _ => false
    end in
  doctor w
  = if (20 <=? major) && pnpmOk
    then (Ret tt,
          printed [("Environment looks good." ++ nl)%string]
            (afterChild "pnpm" ["--version"] cwd w))
    else (Exit 1,
          complained
            ((if major <? 20
              then [("- Node.js >= 20 is required." ++ nl)%string] else [])
             ++ (if pnpmOk then []
                 else [("- pnpm is recommended but was not found in PATH."
                        ++ nl)%string]))
            (afterChild "pnpm" ["--version"] cwd w)).
Proof.
  intros Hmajor Hversion pnpmOk.
  destruct (decimal_shape major Hmajor) as [Hdot Htruthy].
  unfold doctor. rewrite Hversion.
  change (decimal major ++ "." ++ rest)%string
    with (decimal major ++ String "." rest)%string.
  unfold split. rewrite (splitAux_line "." (decimal major) rest "" Hdot).
  change ("" ++ decimal major)%string with (decimal major).
  cbn [head orElse]. rewrite Htruthy.
  rewrite (Number_decimal major) by lia. rewrite lt_ofZ.
  rewrite (bind_run _ _ _ _ _ (spawnSync_afterChild _ _ _ _)).
  fold pnpmOk. rewrite (Z.leb_antisym major 20).
  assert (E : (20 <=? major) = negb (major <? 20)) by apply Z.leb_antisym.
  rewrite ?E.
  destruct (major <? 20), pnpmOk; try reflexivity.
  unfold complained. rewrite app_assoc. reflexivity.
Qed.

End Doctor.

(** X7, witness: Node 22.4.0 and a pnpm that answers. *)
Lemma doctor_spec_witness :
  doctor (H := Demo.happyHost) Demo.emptyWork
  = (Ret tt,
     printed [("Environment looks good." ++ nl)%string]
       (afterChild (H := Demo.happyHost) "pnpm" ["--version"] ["work"]
          Demo.emptyWork)).
Proof.
  refine (@doctor_spec Demo.happyHost Demo.emptyWork 22 "4.0" _ eq_refl).
  lia.
Defined.

(** ** Configuration collector *)

Lemma yields_ret {A} (a : A) (Q : A -> Prop) : Q a -> yields (ret a) Q.
Proof. intros Ha w a' w' [= <- _]. exact Ha. Qed.

Lemma yields_bind {A B} (m : M A) (k : A -> M B) (Q : B -> Prop) :
  (forall a, yields (k a) Q) -> yields (bind m k) Q.
Proof.
  intros Hk w b w'. unfold bind.
  destruct (m w) as [[a| e | c |] w1]; try discriminate. apply Hk.
Qed.

Lemma yields_finally {A} (body : M A) (cleanup : M unit) (Q : A -> Prop) :
  yields body Q -> yields (finally body cleanup) Q.
Proof.
  intros Hb w a w'. unfold finally.
  destruct (body w) as [[a0| e | c |] w1] eqn:Eb; try discriminate.
  - unfold bind. destruct (cleanup w1) as [[[]| e | c |] w2]; try discriminate.
    intros [= <- _]. exact (Hb _ _ _ Eb).
  - unfold bind. destruct (cleanup w1) as [[[]| e' | c |] w2]; discriminate.
Qed.

Lemma parsePort_valid (value : jsval) (fallback : number) :
  validPort fallback -> validPort (parsePort value fallback).
Proof.
  intros Hfb. unfold parsePort.
  destruct (isInteger (Number value)) eqn:Hi; [|exact Hfb]. cbn [negb orb].
  apply isInteger_denotes in Hi. destruct Hi as [n Hd].
  destruct (Number value) as [| b | q]; try contradiction.
  destruct (lt (Finite q) (ofZ 1)) eqn:E1; [exact Hfb|].
  destruct (gt (Finite q) (ofZ 65535)) eqn:E2; [exact Hfb|]. cbn [orb].
  exists n. split; [|exact Hd]. cbn in Hd. split.
  - destruct (Z_lt_le_dec n 1) as [L|L]; [|exact L].
    assert (lt (Finite q) (ofZ 1) = true); [|congruence].
    apply lt_finite. rewrite Hd, <- Zlt_Qlt. exact L.
  - destruct (Z_lt_le_dec 65535 n) as [L|L]; [|lia].
    assert (gt (Finite q) (ofZ 65535) = true); [|congruence].
    apply gt_finite. rewrite Hd, <- Zlt_Qlt. exact L.
Qed.

Lemma orElse_truthy (a : option string) (b : string) :
  b <> EmptyString -> orElse id a b <> EmptyString.
Proof.
  intros Hb. destruct a as [[|c s]|]; cbn; try exact Hb. discriminate.
Qed.

Lemma parsePort_self (x : number) : parsePort (VNumber x) x = x.
Proof.
  unfold parsePort. cbn [Number].
  now destruct (negb (isInteger x) || lt x (ofZ 1) || gt x (ofZ 65535)).
Qed.

Section Collector.
Context {H : Host}.

Lemma validPort_toString (x : number) (n : Z) :
  1 <= n <= 65535 -> denotes x n -> numberToString x = decimal n.
Proof.
  intros Hn Hd. destruct x as [| b | q]; try contradiction. cbn in Hd.
  unfold numberToString, toStringWith.
  assert (Hred : Qred q = inject_Z n).
  { rewrite (Qred_complete _ _ Hd). apply Qred_identity. cbn. apply Z.gcd_1_r. }
  rewrite Hred. cbn [Qden Qnum inject_Z]. rewrite Pos.eqb_refl. cbn [andb].
  assert (E : (Z.abs n <? 10 ^ 21) = true) by (apply Z.ltb_lt; lia).
  now rewrite E.
Qed.

(** X8. Every configuration [askBootstrapConfig] returns, in either mode
    and whatever the flags and the answers, has a non-empty project name
    and a port that is an integer between 1 and 65535; the port prints as
    its plain decimal numeral. *)
Theorem askBootstrapConfig_invariant (defaultProjectName : option string)
    (parsedArgs : ParsedArgs) (w w' : world) (config : BootstrapConfig) :
  askBootstrapConfig defaultProjectName parsedArgs w = (Ret config, w') ->
  projectName config <> EmptyString
  /\ exists n, 1 <= n <= 65535 /\ denotes (port config) n
               /\ numberToString (port config) = decimal n.
Proof.
  assert (Hinit : validPort
            (parsePort (orElse VString (values parsedArgs !! "--port")
                          (VNumber (ofZ 3000))) (ofZ 3000))).
  { apply parsePort_valid. exists 3000. split; [lia | reflexivity]. }
  assert (Hname : orElse id (values parsedArgs !! "--project-name")
                    (orElse id defaultProjectName "webclaw") <> EmptyString).
  { apply orElse_truthy, orElse_truthy. discriminate. }
  assert (Hgoal : yields (askBootstrapConfig defaultProjectName parsedArgs)
            (fun config => projectName config <> EmptyString
                           /\ validPort (port config))).
  { unfold askBootstrapConfig.
    destruct (bool_decide ("--yes" ∈ flags parsedArgs)
              || negb stdinIsTTY || negb stdoutIsTTY).
    - apply yields_ret. now split.
    - apply yields_finally.
      apply yields_bind; intros nameInput.
      apply yields_bind; intros urlInput.
      apply yields_bind; intros tokenInput.
      apply yields_bind; intros passwordInput.
      apply yields_bind; intros portInput.
      apply yields_ret. cbn [projectName port]. split.
      + now apply orElse_truthy.
      + now apply parsePort_valid. }
  intros Hrun. destruct (Hgoal _ _ _ Hrun) as [Hn (n & Hrange & Hd)].
  split; [exact Hn|]. exists n. repeat split; try lia; [exact Hd|].
  now apply validPort_toString.
Qed.

Lemma askQuestion_blank (question : string) (w : world) :
  (forall n q, exists a, readAnswer n q = Ret a /\ trim a = EmptyString) ->
  askQuestion question w = (Ret EmptyString, asking [question] w).
Proof.
  intros Hblank. unfold askQuestion, rlQuestion, bind, writeStdout. cbn.
  destruct (Hblank (asked w) question) as [a [-> Ha]].
  unfold ret, asking. cbn. rewrite Ha. do 2 f_equal. lia.
Qed.

(** X9. Defaults are the same in both modes.  Without a terminal, or with
    [--yes], [askBootstrapConfig] returns the flag-or-default configuration
    at once: it asks nothing and leaves the world as it is.  On a terminal,
    when every answer is blank, it asks its five questions in the fixed
    order (project name, gateway URL, token, password, port; the name, URL
    and port prompts show the default, the token and password prompts
    show none) and returns that same configuration. *)
Theorem askBootstrapConfig_defaults (defaultProjectName : option string)
    (parsedArgs : ParsedArgs) (w : world) :
  ("--yes" ∈ flags parsedArgs \/ stdinIsTTY = false \/ stdoutIsTTY = false ->
   askBootstrapConfig defaultProjectName parsedArgs w
   = (Ret (flagConfig defaultProjectName parsedArgs), w))
  /\ ("--yes" ∉ flags parsedArgs -> stdinIsTTY = true -> stdoutIsTTY = true ->
      (forall n q, exists a, readAnswer n q = Ret a /\ trim a = EmptyString) ->
      askBootstrapConfig defaultProjectName parsedArgs w
      = (Ret (flagConfig defaultProjectName parsedArgs),
         asking
           [("Project name ["
             ++ projectName (flagConfig defaultProjectName parsedArgs)
             ++ "]: ")%string;
            ("CLAWDBOT_GATEWAY_URL ["
             ++ gatewayUrl (envValues (flagConfig defaultProjectName parsedArgs))
             ++ "]: ")%string;
            "CLAWDBOT_GATEWAY_TOKEN (optional): ";
            "CLAWDBOT_GATEWAY_PASSWORD (optional): ";
            ("Port ["
             ++ numberToString (port (flagConfig defaultProjectName parsedArgs))
             ++ "]: ")%string] w)).
Proof.
  split.
  - intros Hmode. unfold askBootstrapConfig.
    assert (E : bool_decide ("--yes" ∈ flags parsedArgs)
                || negb stdinIsTTY || negb stdoutIsTTY = true).
    { destruct Hmode as [Hy|[-> | ->]].
      - now rewrite (bool_decide_eq_true_2 _ Hy).
      - cbn. now rewrite orb_true_r.
      - cbn. now rewrite orb_true_r. }
    rewrite E. reflexivity.
  - intros Hyes Hin Hout Hblank. unfold askBootstrapConfig.
    rewrite (bool_decide_eq_false_2 _ Hyes), Hin, Hout. cbn [negb orb].
    unfold finally.
    rewrite (bind_run _ _ _ _ _ (askQuestion_blank _ _ Hblank)).
    rewrite (bind_run _ _ _ _ _ (askQuestion_blank _ _ Hblank)).
    rewrite (bind_run _ _ _ _ _ (askQuestion_blank _ _ Hblank)).
    rewrite (bind_run _ _ _ _ _ (askQuestion_blank _ _ Hblank)).
    rewrite (bind_run _ _ _ _ _ (askQuestion_blank _ _ Hblank)).
    cbn [orElse truthy]. rewrite parsePort_self.
    unfold ret, rlClose, bind, asking, flagConfig. cbn.
    rewrite <- !app_assoc. cbn. do 2 f_equal. lia.
Qed.

End Collector.

(** X8, witness: [--port 99999] without a terminal falls back to 3000. *)
Lemma askBootstrapConfig_invariant_witness :
  exists n, 1 <= n <= 65535
            /\ denotes (port (flagConfig None (parseCliArgs ["--port"; "99999"]))) n
            /\ numberToString (H := Demo.happyHost)
                 (port (flagConfig None (parseCliArgs ["--port"; "99999"])))
               = decimal n.
Proof.
  exact (proj2 (@askBootstrapConfig_invariant Demo.happyHost None
                  (parseCliArgs ["--port"; "99999"]) Demo.emptyWork
                  Demo.emptyWork
                  (flagConfig None (parseCliArgs ["--port"; "99999"]))
                  eq_refl)).
Defined.

(** X9, witness: a user who presses return five times. *)
Lemma askBootstrapConfig_defaults_witness :
  askBootstrapConfig (H := ttyHost []) None (parseCliArgs ["--port=4000"])
    Demo.emptyWork
  = (Ret (flagConfig None (parseCliArgs ["--port=4000"])),
     asking
       ["Project name [webclaw]: ";
        "CLAWDBOT_GATEWAY_URL [ws://127.0.0.1:18789]: ";
        "CLAWDBOT_GATEWAY_TOKEN (optional): ";
        "CLAWDBOT_GATEWAY_PASSWORD (optional): ";
        "Port [4000]: "] Demo.emptyWork).
Proof.
  refine (proj2 (@askBootstrapConfig_defaults (ttyHost []) None
                   (parseCliArgs ["--port=4000"]) Demo.emptyWork)
            _ eq_refl eq_refl _).
  - cbn. set_solver.
  - intros n q. exists EmptyString. split; [|reflexivity].
    cbn. now destruct n.
Defined.

(** ** Env prompts *)

Section EnvPrompts.
Context {H : Host}.

Lemma askQuestion_answer (question answer : string) (w : world) :
  readAnswer (asked w) question = Ret answer ->
  askQuestion question w = (Ret (trim answer), asking [question] w).
Proof.
  intros Ha. unfold askQuestion, rlQuestion, bind, writeStdout. cbn.
  rewrite Ha. unfold ret, asking. cbn. do 2 f_equal. lia.
Qed.

(** X10. The interactive env set-up never touches an env file the user
    did not ask it to write.  On a terminal, without [--skip-env] and
    without values from the flags: when the user declines the first
    question (anything but a blank line, [y] or [yes], in any case), the
    set-up only prints where to create the file later; when the file
    exists and the user does not answer [y] or [yes] to the overwrite
    question, it prints [Keeping existing ...].  In both cases it returns
    with the file system as it was and without any file-system call. *)
Theorem maybeSetupEnv_keeps_file (targetDir : path) (options : gset string)
    (w : world) (first : string) :
  "--skip-env" ∉ options -> stdinIsTTY = true -> stdoutIsTTY = true ->
  let envFile := toString (join1 (envDirOf targetDir (fs w)) ".env.local") in
  let createQuestion := ("Create " ++ envFile ++ " now? [Y/n]: ")%string in
  let overwriteQuestion :=
    (envFile ++ " already exists. Overwrite? [y/N]: ")%string in
  readAnswer (asked w) createQuestion = Ret first ->
  (trim first <> EmptyString -> isYes (trim first) = false ->
   maybeSetupEnv targetDir options None w
   = (Ret tt,
      printed [("Skipping env file. Create it later at " ++ envFile
                ++ " with:" ++ nl ++ "CLAWDBOT_GATEWAY_URL=..." ++ nl
                ++ "CLAWDBOT_GATEWAY_TOKEN=..." ++ nl ++ nl)%string]
        (asking [createQuestion] w)))
  /\ (forall second,
        trim first = EmptyString \/ isYes (trim first) = true ->
        lookup (join1 (envDirOf targetDir (fs w)) ".env.local") (fs w) <> None ->
        readAnswer (S (asked w)) overwriteQuestion = Ret second ->
        isYes (trim second) = false ->
        maybeSetupEnv targetDir options None w
        = (Ret tt,
           printed [("Keeping existing " ++ envFile ++ nl ++ nl)%string]
             (asking [overwriteQuestion] (asking [createQuestion] w)))).
Proof.
  intros Hskip Hin Hout envFile createQuestion overwriteQuestion Hfirst.
  assert (Hstart :
    maybeSetupEnv targetDir options None w
    = finally
        (createAnswer <- askQuestion createQuestion ;;
         if negb (Nat.eqb (String.length createAnswer) 0 || isYes createAnswer)
         then
           writeStdout
             ("Skipping env file. Create it later at " ++ envFile
              ++ " with:" ++ nl ++ "CLAWDBOT_GATEWAY_URL=..." ++ nl
              ++ "CLAWDBOT_GATEWAY_TOKEN=..." ++ nl ++ nl)
         else
           present <- existsSync (join1 (envDirOf targetDir (fs w)) ".env.local") ;;
           keep <-
             (if present then
                overwriteAnswer <- askQuestion overwriteQuestion ;;
                if negb (isYes overwriteAnswer) then
                  writeStdout ("Keeping existing " ++ envFile ++ nl ++ nl) ;;
                  ret true
                else ret false
              else ret false) ;;
           if keep then ret tt
           else
             url <- askQuestion "CLAWDBOT_GATEWAY_URL: " ;;
             token <- askQuestion "CLAWDBOT_GATEWAY_TOKEN: " ;;
             writeEnvFile targetDir (mkEnv url token ""))
        rlClose w).
  { unfold maybeSetupEnv.
    rewrite (bool_decide_eq_false_2 _ Hskip), Hin, Hout. cbn [negb orb].
    rewrite (bind_run _ _ _ _ _ (resolveEnvFile_run _ _)). reflexivity. }
  rewrite Hstart. unfold finally.
  rewrite (bind_run _ _ _ _ _ (askQuestion_answer _ _ _ Hfirst)).
  split.
  - intros Hnonblank Hno.
    assert (E : Nat.eqb (String.length (trim first)) 0 = false).
    { destruct (trim first); [congruence | reflexivity]. }
    rewrite E, Hno. reflexivity.
  - intros second Hcreate Hexists Hsecond Hkeep.
    assert (E : Nat.eqb (String.length (trim first)) 0 || isYes (trim first)
                = true).
    { destruct Hcreate as [-> | ->]; [reflexivity | apply orb_true_r]. }
    rewrite E. cbn [negb].
    rewrite (bind_run _ _ _ _ _ (existsSync_run _ _)). cbn [fs asking].
    destruct (lookup (join1 (envDirOf targetDir (fs w)) ".env.local") (fs w));
      [|congruence].
    assert (Hsecond' : readAnswer (asked (asking [createQuestion] w))
                         overwriteQuestion = Ret second).
    { cbn [asked asking length]. now replace (asked w + 1)%nat with (S (asked w))
        by lia. }
    rewrite bind_assoc.
    rewrite (bind_run _ _ _ _ _ (askQuestion_answer _ _ _ Hsecond')).
    rewrite Hkeep. reflexivity.
Qed.

End EnvPrompts.

(** X10, witness: the user accepts the set-up with a blank line and then
    answers [n] to the overwrite question; [/work/app/.env.local] stays. *)
Lemma maybeSetupEnv_keeps_file_witness :
  maybeSetupEnv (H := ttyHost [""; "n"]) ["work"; "app"] ∅ None envWorld
  = (Ret tt,
     printed [("Keeping existing /work/app/.env.local" ++ nl ++ nl)%string]
       (asking ["/work/app/.env.local already exists. Overwrite? [y/N]: "]
          (asking ["Create /work/app/.env.local now? [Y/n]: "] envWorld))).
Proof.
  refine (proj2 (@maybeSetupEnv_keeps_file (ttyHost [""; "n"]) ["work"; "app"]
                   ∅ envWorld "" _ eq_refl eq_refl eq_refl)
            "n" (or_introl eq_refl) _ eq_refl eq_refl).
  - set_solver.
  - discriminate.
Defined.

(** ** Directory creation *)

Lemma mkdirp_fresh (p : path) :
  forall n n', lookup p n = None -> mkdirp p n = Ok n' ->
               lookup p n' = Some (Dir []).
Proof.
  induction p as [|name p IH]; intros n n' Hnone Hmk; [discriminate|].
  destruct n as [|es]; [discriminate|]. cbn in Hnone, Hmk.
  destruct (getEntry name es) as [c|] eqn:Ec.
  - destruct (mkdirp p c) as [c'|] eqn:Ep; [|discriminate].
    injection Hmk as <-. cbn. rewrite getEntry_setEntry.
    now apply (IH c).
  - destruct (mkdirp p (Dir [])) as [c'|] eqn:Ep; [|discriminate].
    injection Hmk as <-. cbn. rewrite getEntry_setEntry.
    destruct p as [|k p'].
    + cbn in Ep. injection Ep as <-. reflexivity.
    + now apply (IH (Dir [])).
Qed.

Lemma mkdirp_file_kept (p : path) :
  forall n n' q data,
    mkdirp p n = Ok n' -> lookup q n = Some (File data) ->
    lookup q n' = Some (File data).
Proof.
  induction p as [|name p IH]; intros n n' q data Hmk Hq.
  - cbn in Hmk. destruct n; [discriminate|]. now injection Hmk as <-.
  - destruct n as [|es]; [discriminate|]. cbn in Hmk.
    destruct q as [|k q]; [discriminate|]. cbn in Hq.
    destruct (getEntry k es) as [x|] eqn:Ek; [|discriminate].
    destruct (String.eqb name k) eqn:Enk.
    + apply String.eqb_eq in Enk. subst k. rewrite Ek in Hmk.
      destruct (mkdirp p x) as [c'|] eqn:Ep; [|discriminate].
      injection Hmk as <-. cbn. rewrite getEntry_setEntry.
      now apply (IH x).
    + apply String.eqb_neq in Enk.
      destruct (mkdirp p _) as [c'|]; [|discriminate].
      injection Hmk as <-. cbn.
      rewrite (getEntry_setEntry_ne name k c' es Enk), Ek. exact Hq.
Qed.

Lemma mkdirp_errno (p : path) :
  forall n e, lookup p n = None -> mkdirp p n = Err e -> e = ENOTDIR.
Proof.
  induction p as [|name p IH]; intros n e Hnone Hmk; [discriminate|].
  destruct n as [|es]; [cbn in Hmk; congruence|]. cbn in Hnone, Hmk.
  destruct (getEntry name es) as [c|] eqn:Ec.
  - destruct (mkdirp p c) as [c'|] eqn:Ep; [discriminate|].
    injection Hmk as <-. now apply (IH c).
  - destruct (mkdirp p (Dir [])) as [c'|] eqn:Ep; [discriminate|].
    injection Hmk as <-. destruct p as [|k p'].
    + discriminate.
    + now apply (IH (Dir [])).
Qed.

(** X11. [ensureDir] does nothing to a path that exists.  For a path that
    does not exist it issues one recursive [mkdir]: on success the path is
    an empty directory, every file that existed is still there with its
    content, and a second [ensureDir] is a no-op; on a file system without
    permissions or quotas, as modelled here, the only way it can fail is
    [ENOTDIR] (a file stands where a parent directory is needed), and then
    the file system is unchanged. *)
Theorem ensureDir_spec (targetDir : path) (w : world) :
  (lookup targetDir (fs w) <> None -> ensureDir targetDir w = (Ret tt, w))
  /\ (lookup targetDir (fs w) = None ->
      (exists n',
         mkdirp targetDir (fs w) = Ok n'
         /\ ensureDir targetDir w
            = (Ret tt,
               mkWorld n' (stdout w) (stderr w)
                 (calls w ++ [MkdirCall targetDir]) (asked w))
         /\ lookup targetDir n' = Some (Dir [])
         /\ (forall q data, lookup q (fs w) = Some (File data) ->
                            lookup q n' = Some (File data))
         /\ ensureDir targetDir
              (mkWorld n' (stdout w) (stderr w)
                 (calls w ++ [MkdirCall targetDir]) (asked w))
            = (Ret tt,
               mkWorld n' (stdout w) (stderr w)
                 (calls w ++ [MkdirCall targetDir]) (asked w)))
      \/ ensureDir targetDir w
         = (Throw (SystemError ENOTDIR "mkdir" targetDir),
            mkWorld (fs w) (stdout w) (stderr w)
              (calls w ++ [MkdirCall targetDir]) (asked w))).
Proof.
  split; [apply ensureDir_present|].
  intros Hnone. unfold ensureDir.
  rewrite (bind_run _ _ _ _ _ (existsSync_run _ _)), Hnone. cbn [negb].
  unfold mkdirSync.
  destruct (mkdirp targetDir (fs w)) as [n'|e] eqn:Emk.
  - left. exists n'. split; [reflexivity|].
    pose proof (mkdirp_fresh _ _ _ Hnone Emk) as Hfresh.
    split; [now apply mutate_ok|]. split; [exact Hfresh|]. split.
    + intros q data Hq. exact (mkdirp_file_kept _ _ _ _ _ Emk Hq).
    + rewrite (bind_run _ _ _ _ _ (existsSync_run _ _)). cbn [fs].
      now rewrite Hfresh.
  - right. pose proof (mkdirp_errno _ _ _ Hnone Emk) as ->.
    now apply mutate_err.
Qed.

(** ** Call discipline *)

Lemma callsAll_mono {A} (P Q : call -> Prop) (m : M A) :
  (forall c, P c -> Q c) -> callsAll P m -> callsAll Q m.
Proof.
  intros HPQ Hm w. destruct (Hm w) as [delta [E F]].
  exists delta. split; [exact E|]. clear E.
  induction F as [|c l Hc F IH]; constructor; [now apply HPQ | exact IH].
Qed.

Lemma callsAll_silent {A} (P : call -> Prop) (m : M A) :
  (forall w, calls (snd (m w)) = calls w) -> callsAll P m.
Proof.
  intros Hm w. exists []. rewrite app_nil_r. split; [apply Hm | constructor].
Qed.

Lemma callsAll_ret {A} (P : call -> Prop) (a : A) : callsAll P (ret a).
Proof. now apply callsAll_silent. Qed.

Lemma callsAll_bind {A B} (P : call -> Prop) (m : M A) (k : A -> M B) :
  callsAll P m -> (forall a, callsAll P (k a)) -> callsAll P (bind m k).
Proof.
  intros Hm Hk w. destruct (Hm w) as [d1 [E1 F1]]. unfold bind.
  destruct (m w) as [[a| e | c |] w1]; cbn [snd] in *; eauto.
  destruct (Hk a w1) as [d2 [E2 F2]]. exists (d1 ++ d2). split.
  - now rewrite E2, E1, <- app_assoc.
  - apply Forall_app. now split.
Qed.

(** The continuation only has to behave on what [m] can return. *)
Lemma callsAll_bind_yields {A B} (P : call -> Prop) (Q : A -> Prop)
    (m : M A) (k : A -> M B) :
  callsAll P m -> yields m Q -> (forall a, Q a -> callsAll P (k a)) ->
  callsAll P (bind m k).
Proof.
  intros Hm Hq Hk w. destruct (Hm w) as [d1 [E1 F1]]. unfold bind.
  destruct (m w) as [[a| e | c |] w1] eqn:Em; cbn [snd] in *; eauto.
  destruct (Hk a (Hq _ _ _ Em) w1) as [d2 [E2 F2]]. exists (d1 ++ d2). split.
  - now rewrite E2, E1, <- app_assoc.
  - apply Forall_app. now split.
Qed.

Lemma callsAll_mutate (P : call -> Prop) (c : call) (syscall : string)
    (p : path) f :
  P c -> callsAll P (mutate c syscall p f).
Proof.
  intros Hc w. exists [c]. rewrite mutate_calls. split; auto.
Qed.

Lemma callsAll_forEach {A} (P : call -> Prop) (l : list A)
    (body : A -> M unit) :
  (forall x, callsAll P (body x)) -> callsAll P (forEach l body).
Proof.
  intros Hb. induction l as [|x l IH]; cbn [forEach].
  - apply callsAll_ret.
  - apply callsAll_bind; [apply Hb | intros _; exact IH].
Qed.

Lemma callsAll_finally {A} (P : call -> Prop) (body : M A)
    (cleanup : M unit) :
  callsAll P body -> callsAll P cleanup -> callsAll P (finally body cleanup).
Proof.
  intros Hb Hc w. destruct (Hb w) as [d1 [E1 F1]]. unfold finally.
  destruct (body w) as [[a| e | c |] w1]; cbn [snd] in *; eauto.
  - destruct (callsAll_bind P cleanup (fun _ => ret a) Hc
                (fun _ => callsAll_ret P a) w1) as [d2 [E2 F2]].
    exists (d1 ++ d2). split; [now rewrite E2, E1, <- app_assoc|].
    apply Forall_app. now split.
  - destruct (callsAll_bind (B := A) P cleanup (fun _ => throw e) Hc
                (fun _ => callsAll_silent P (throw e) (fun _ => eq_refl)) w1)
      as [d2 [E2 F2]].
    exists (d1 ++ d2). split; [now rewrite E2, E1, <- app_assoc|].
    apply Forall_app. now split.
Qed.

Lemma mirrored_under (sourceDir targetDir : path) (name : string) (c : call) :
  copySkipped name = false ->
  mirrored (join1 sourceDir name) (join1 targetDir name) c ->
  mirrored sourceDir targetDir c.
Proof.
  intros Hname. unfold join1. destruct c; cbn; try tauto.
  - intros (rel & -> & Hrel). exists (name :: rel). split.
    + now rewrite <- app_assoc.
    + now constructor.
  - intros (rel & Hne & -> & -> & Hrel). exists (name :: rel).
    repeat split; try discriminate; try (now rewrite <- app_assoc).
    now constructor.
Qed.

Lemma callsAll_copyDir (fuel : nat) :
  forall sourceDir targetDir,
    callsAll (mirrored sourceDir targetDir) (copyDir fuel sourceDir targetDir).
Proof.
  induction fuel as [|fuel IH]; intros sourceDir targetDir; cbn [copyDir].
  - now apply callsAll_silent.
  - apply callsAll_bind.
    { unfold ensureDir. apply callsAll_bind; [now apply callsAll_silent|].
      intros [|]; cbn [negb]; [apply callsAll_ret|].
      apply callsAll_mutate. exists []. split; [now rewrite app_nil_r|].
      constructor. }
    intros _. apply callsAll_bind.
    { apply callsAll_silent. intros w. unfold readdirTypesSync.
      now destruct (lookup sourceDir (fs w)) as [[|]|]. }
    intros entries. apply callsAll_forEach. intros [name isDir].
    destruct (copySkipped name) eqn:Eskip; [apply callsAll_ret|].
    destruct isDir.
    + apply (callsAll_mono (mirrored (join1 sourceDir name)
                              (join1 targetDir name))); [|apply IH].
      intros c. now apply mirrored_under.
    + apply callsAll_mutate. exists [name]. unfold join1.
      repeat split; try discriminate. now repeat constructor.
Qed.

Lemma rmFree_finally {A} (body : M A) (cleanup : M unit) :
  rmFree body -> rmFree cleanup -> rmFree (finally body cleanup).
Proof. apply (callsAll_finally notRm). Qed.

Lemma rmFree_writeStdout (s : string) : rmFree (writeStdout s).
Proof. now apply rmFree_same. Qed.

Lemma rmFree_writeStderr (s : string) : rmFree (writeStderr s).
Proof. now apply rmFree_same. Qed.

Lemma rmFree_isDirEmpty (targetDir : path) : rmFree (isDirEmpty targetDir).
Proof.
  apply rmFree_bind; [apply rmFree_existsSync|]. intros [|]; cbn [negb].
  - apply rmFree_bind; [|intros; apply rmFree_ret].
    apply rmFree_bind; [apply rmFree_readdirTypesSync|].
    intros; apply rmFree_ret.
  - apply rmFree_ret.
Qed.

Lemma rmFree_readFileSync (p : path) : rmFree (readFileSync p).
Proof.
  apply rmFree_same. intros w. unfold readFileSync.
  now destruct (getFile p (fs w)).
Qed.

Lemma rmFree_printBanner : rmFree printBanner.
Proof. apply rmFree_same. intros w. now rewrite printBanner_run. Qed.

Lemma rmFree_resolveEnvFile (targetDir : path) :
  rmFree (resolveEnvFile targetDir).
Proof. apply rmFree_same. intros w. now rewrite resolveEnvFile_run. Qed.

Lemma rmFree_writeEnvFile (targetDir : path) (env : EnvValues) :
  rmFree (writeEnvFile targetDir env).
Proof.
  apply rmFree_bind; [apply rmFree_resolveEnvFile|]. intros envFile.
  apply rmFree_bind; [apply rmFree_ensureDir|]. intros _.
  apply rmFree_bind; [now apply rmFree_mutate|]. intros _.
  apply rmFree_writeStdout.
Qed.

Section RemovalSafety.
Context {H : Host}.

Lemma rmFree_askQuestion (question : string) : rmFree (askQuestion question).
Proof.
  apply rmFree_bind; [|intros; apply rmFree_ret].
  apply rmFree_bind; [apply rmFree_writeStdout|]. intros _.
  now apply rmFree_same.
Qed.

Lemma rmFree_detectPackageManager (dir : path) :
  rmFree (detectPackageManager dir).
Proof.
  apply rmFree_same. intros w. now rewrite detectPackageManager_run.
Qed.

Lemma rmFree_ensureGitRepository (targetDir : path) :
  rmFree (ensureGitRepository targetDir).
Proof.
  apply rmFree_bind; [apply rmFree_existsSync|]. intros [|].
  - apply rmFree_ret.
  - apply rmFree_bind; [apply rmFree_spawnSync|]. intros result.
    destruct (spawnStatus result) as [[|p|p]|];
      first [apply rmFree_writeStdout | apply rmFree_ret].
Qed.

Lemma rmFree_setDevPort (targetDir : path) (port : number) :
  rmFree (setDevPort targetDir port).
Proof.
  unfold setDevPort.
  apply rmFree_bind; [apply rmFree_existsSync|]. intros nested. cbv zeta.
  apply rmFree_bind; [apply rmFree_existsSync|]. intros [|]; cbn [negb];
    [|apply rmFree_ret].
  apply rmFree_bind; [apply rmFree_readFileSync|]. intros text.
  destruct (JSON_parse text) as [e|packageJson]; [now apply rmFree_same|].
  destruct packageJson; try (now apply rmFree_same);
    (destruct (negb (isTruthy _)); [apply rmFree_ret|]);
    try apply rmFree_ret.
  all: destruct (getProp _ _) as [[]|]; try apply rmFree_ret.
  all: destruct (getField _ _) as [[]|]; try apply rmFree_ret.
  all: now apply rmFree_mutate.
Qed.

Lemma rmFree_maybeSetupEnv (targetDir : path) (options : gset string)
    (env : option EnvValues) :
  rmFree (maybeSetupEnv targetDir options env).
Proof.
  unfold maybeSetupEnv.
  destruct (bool_decide ("--skip-env" ∈ options)); [apply rmFree_ret|].
  destruct env as [values|]; [apply rmFree_writeEnvFile|].
  destruct (negb stdinIsTTY || negb stdoutIsTTY); [apply rmFree_ret|].
  apply rmFree_bind; [apply rmFree_resolveEnvFile|]. intros envFile.
  apply rmFree_finally; [|apply rmFree_ret].
  apply rmFree_bind; [apply rmFree_askQuestion|]. intros createAnswer.
  destruct (negb _); [apply rmFree_writeStdout|].
  apply rmFree_bind; [apply rmFree_existsSync|]. intros present.
  apply rmFree_bind.
  { destruct present; [|apply rmFree_ret].
    apply rmFree_bind; [apply rmFree_askQuestion|]. intros overwriteAnswer.
    destruct (negb _); [|apply rmFree_ret].
    apply rmFree_bind; [apply rmFree_writeStdout|]. intros; apply rmFree_ret. }
  intros [|]; [apply rmFree_ret|].
  apply rmFree_bind; [apply rmFree_askQuestion|]. intros url.
  apply rmFree_bind; [apply rmFree_askQuestion|]. intros token.
  apply rmFree_writeEnvFile.
Qed.

Lemma rmFree_installDependencies (targetDir : path) :
  rmFree (installDependencies targetDir).
Proof.
  apply rmFree_bind; [apply rmFree_detectPackageManager|]. intros pm.
  destruct (String.eqb pm "yarn"); apply rmFree_runCommand.
Qed.

Lemma rmFree_startProject (targetDir : path) : rmFree (startProject targetDir).
Proof.
  apply rmFree_bind; [apply rmFree_detectPackageManager|]. intros pm.
  apply rmFree_runCommand.
Qed.

Lemma rmFree_finishInit (targetDir : path) (options : gset string)
    (bootstrapConfig : option BootstrapConfig) :
  rmFree (finishInit targetDir options bootstrapConfig).
Proof.
  unfold finishInit.
  apply rmFree_bind; [apply rmFree_ensureGitRepository|]. intros _.
  apply rmFree_bind.
  { destruct bootstrapConfig; [apply rmFree_setDevPort | apply rmFree_ret]. }
  intros _.
  apply rmFree_bind; [apply rmFree_maybeSetupEnv|]. intros _.
  apply rmFree_bind; [apply rmFree_writeStdout|]. intros _. cbv zeta.
  assert (Hnext : rmFree
    (writeStdout ("Next steps:" ++ nl) ;;
     writeStdout ("  cd " ++ (let r := relative cwd targetDir in
                              if truthy r then r else ".") ++ nl) ;;
     writeStdout ("  pnpm install" ++ nl) ;;
     writeStdout ("  pnpm dev" ++ nl ++ nl))).
  { repeat (apply rmFree_bind; [apply rmFree_writeStdout|intros _]).
    apply rmFree_writeStdout. }
  destruct bootstrapConfig as [config|]; [|exact Hnext].
  destruct (autoStart config); [|exact Hnext].
  apply rmFree_bind; [apply rmFree_writeStdout|]. intros _.
  apply rmFree_bind; [apply rmFree_installDependencies|]. intros _.
  apply rmFree_bind; [apply rmFree_writeStdout|]. intros _.
  apply rmFree_startProject.
Qed.

Lemma rmFree_getLocalTemplateSource : rmFree getLocalTemplateSource.
Proof.
  unfold getLocalTemplateSource. cbv zeta.
  apply rmFree_bind; [apply rmFree_existsSync|]. intros hasRoot.
  apply rmFree_bind.
  { destruct hasRoot; [apply rmFree_existsSync | apply rmFree_ret]. }
  intros hasApp. destruct (negb hasRoot || negb hasApp); apply rmFree_ret.
Qed.

Lemma yields_mkdtempSync :
  yields (mkdtempSync (join1 tmpdir "webclaw-"))
    (fun tempRoot => exists name, tempRoot = join1 tmpdir name).
Proof.
  intros w tempRoot w' Hrun.
  exists ("webclaw-" ++ mkdtempSuffix (fs w))%string.
  now apply (mkdtempSync_under_tmpdir w w').
Qed.

End RemovalSafety.

(** ** Template source, failing targets and the bootstrap command *)

Section Templates.
Context {H : Host}.

(** X14. Where the template comes from.  When the installed package holds
    both [package.json] and [apps/webclaw/package.json] under its root,
    [populateTemplate] is a plain [copyDir] from that root, for the
    current directory and for any other target alike, so it starts no
    child process and needs no network.  When either manifest is missing
    and the target is not the current directory, it is a single
    [git clone --depth 1] of the repository straight into the target. *)
Theorem populateTemplate_source (fuel : nat) (targetDir : path)
    (isCurrentDir : bool) (w : world) :
  (lookup (join1 LOCAL_TEMPLATE_ROOT "package.json") (fs w) <> None ->
   lookup (join1 (join1 (join1 LOCAL_TEMPLATE_ROOT "apps") "webclaw")
             "package.json") (fs w) <> None ->
   populateTemplate fuel targetDir isCurrentDir w
   = copyDir fuel LOCAL_TEMPLATE_ROOT targetDir w)
  /\ (lookup (join1 LOCAL_TEMPLATE_ROOT "package.json") (fs w) = None
      \/ lookup (join1 (join1 (join1 LOCAL_TEMPLATE_ROOT "apps") "webclaw")
                   "package.json") (fs w) = None ->
      populateTemplate fuel targetDir false w
      = runCommand "git"
          ["clone"; "--depth"; "1"; "https://github.com/ibelick/webclaw";
           toString targetDir] cwd w).
Proof.
  unfold populateTemplate, getLocalTemplateSource. cbv zeta. split.
  - intros Hroot Happ.
    rewrite bind_assoc, (bind_run _ _ _ _ _ (existsSync_run _ _)).
    destruct (lookup (join1 LOCAL_TEMPLATE_ROOT "package.json") (fs w));
      [|congruence].
    rewrite bind_assoc, (bind_run _ _ _ _ _ (existsSync_run _ _)).
    destruct (lookup _ (fs w)); [|congruence].
    cbn [negb orb]. rewrite bind_ret. now destruct isCurrentDir.
  - intros Hmissing.
    rewrite bind_assoc, (bind_run _ _ _ _ _ (existsSync_run _ _)).
    destruct (lookup (join1 LOCAL_TEMPLATE_ROOT "package.json") (fs w)) eqn:Er.
    + destruct Hmissing as [Hm|Hm]; [discriminate|].
      rewrite bind_assoc, (bind_run _ _ _ _ _ (existsSync_run _ _)), Hm.
      reflexivity.
    + reflexivity.
Qed.

Lemma isDirEmpty_file (targetDir : path) (w : world) (data : string) :
  lookup targetDir (fs w) = Some (File data) ->
  isDirEmpty targetDir w
  = (Throw (SystemError ENOTDIR "scandir" targetDir), w).
Proof.
  intros E. unfold isDirEmpty.
  rewrite (bind_run _ _ _ _ _ (existsSync_run _ _)), E. cbn [negb].
  apply bind_throw. unfold readdirSync. apply bind_throw.
  unfold readdirTypesSync. now rewrite E.
Qed.

(** X15. [init] on a path that is a regular file.  With or without
    [--force], [initProject] throws the [ENOTDIR] error of the directory
    listing; nothing was written, removed or started, and only the banner
    (when it is due) has been printed.  For [webclaw init <path>] the
    program then writes the error message to the error stream and exits
    with status 1. *)
Theorem initProject_target_is_file (fuel : nat) (rawTarget : option string)
    (options : gset string) (bootstrapConfig : option BootstrapConfig)
    (w : world) (data : string) :
  lookup (targetOf rawTarget) (fs w) = Some (File data) ->
  initProject fuel rawTarget options bootstrapConfig w
  = (Throw (SystemError ENOTDIR "scandir" (targetOf rawTarget)),
     afterBanner bootstrapConfig w)
  /\ forall dir,
       rawTarget = Some dir -> startsWith dir "-" = false ->
       program fuel ["init"; dir] w
       = (Exit 1,
          complained
            [("ENOTDIR: not a directory, scandir '"
              ++ toString (targetOf rawTarget) ++ "'" ++ nl)%string]
            (afterBanner None w)).
Proof.
  intros Hfile.
  assert (Hrun : forall options' config',
    initProject fuel rawTarget options' config' w
    = (Throw (SystemError ENOTDIR "scandir" (targetOf rawTarget)),
       afterBanner config' w)).
  { intros options' config'. unfold initProject. fold (targetOf rawTarget).
    rewrite (bind_run _ _ _ _ _ (banner_run _ _)).
    fold (afterBanner config' w). cbv zeta.
    assert (Hpresent : lookup (targetOf rawTarget) (fs (afterBanner config' w))
                       <> None)
      by (cbn [fs afterBanner]; rewrite Hfile; discriminate).
    rewrite (bind_run _ _ _ _ _ (ensureDir_present _ _ Hpresent)).
    destruct (bool_decide ("--force" ∈ options')); cbn [negb].
    - rewrite bind_ret. apply bind_throw, bind_throw.
      now apply (isDirEmpty_file _ _ data).
    - apply bind_throw, bind_throw. now apply (isDirEmpty_file _ _ data). }
  split; [apply Hrun|].
  intros dir -> Hdir.
  rewrite (program_throw fuel ["init"; dir] w (afterBanner None w)
             (SystemError ENOTDIR "scandir" (targetOf (Some dir)))).
  - unfold complained. cbn [errorMessage errnoText].
    now rewrite !append_assoc'.
  - rewrite (main_init fuel dir Hdir). apply Hrun.
Qed.

Lemma yes_flag_recorded (args : list string) :
  In "--yes" args -> "--yes" ∈ flags (parseCliArgs args).
Proof.
  intros Hin. apply in_split in Hin. destruct Hin as (pre & post & ->).
  unfold parseCliArgs.
  rewrite (parseLoop_app_dash "--yes" post eq_refl (length pre))
    by reflexivity.
  assert (Hstep : forall acc, parseLoop ("--yes" :: post) acc
                              = parseLoop post (addFlag "--yes" acc)).
  { intros acc. destruct post; reflexivity. }
  rewrite Hstep, parseLoop_addFlag. cbn.
  apply elem_of_union. left. now apply elem_of_singleton.
Qed.

(** X16. The bare command.  With no command word, no help flag, and either
    [--yes] or a stream that is not a terminal, [main] prints the banner
    once and runs [initProject] on the directory named by
    [--project-name] (default [webclaw]) with the flags of the command
    line and the configuration built from the flags and the defaults;
    nothing is asked. *)
Theorem main_bootstrap (fuel : nat) (args : list string) (w : world) :
  ~ In "-h" args -> ~ In "--help" args ->
  positionals (parseCliArgs args) = [] ->
  In "--yes" args \/ stdinIsTTY = false \/ stdoutIsTTY = false ->
  main fuel args w
  = initProject fuel
      (Some (projectName (flagConfig None (parseCliArgs args))))
      (flags (parseCliArgs args))
      (Some (flagConfig None (parseCliArgs args)))
      (printed bannerLines w).
Proof.
  intros Hh Hhelp Hpos Hmode. unfold main.
  pose proof (parseLoop_fromArgs args (length args) args [] emptyParsed
                ltac:(lia) eq_refl) as Hfrom.
  destruct Hfrom as (_ & Hflags & _).
  { split; [intros p []|]. split.
    - intros f Hf. cbn in Hf. set_solver.
    - intros k v Hkv. cbn in Hkv. now rewrite lookup_empty in Hkv. }
  fold (parseCliArgs args) in Hflags.
  rewrite (bool_decide_eq_false_2 ("-h" ∈ flags (parseCliArgs args)))
    by (intros Hin; now destruct (Hflags _ Hin)).
  rewrite (bool_decide_eq_false_2 ("--help" ∈ flags (parseCliArgs args)))
    by (intros Hin; now destruct (Hflags _ Hin)).
  cbn [orb]. rewrite Hpos. cbn [head orElse].
  rewrite (bind_run _ _ _ _ _ (printBanner_run _)).
  fold (printed bannerLines w).
  assert (Hask : askBootstrapConfig None (parseCliArgs args)
                   (printed bannerLines w)
                 = (Ret (flagConfig None (parseCliArgs args)),
                    printed bannerLines w)).
  { unfold askBootstrapConfig.
    assert (E : bool_decide ("--yes" ∈ flags (parseCliArgs args))
                || negb stdinIsTTY || negb stdoutIsTTY = true).
    { destruct Hmode as [Hy|[-> | ->]].
      - now rewrite (bool_decide_eq_true_2 _ (yes_flag_recorded _ Hy)).
      - cbn. now rewrite orb_true_r.
      - cbn. now rewrite orb_true_r. }
    now rewrite E. }
  now rewrite (bind_run _ _ _ _ _ Hask).
Qed.

End Templates.

(** X15, witness: [webclaw init old.txt] where [/work/old.txt] is a
    file. *)
Lemma initProject_target_is_file_witness :
  program (H := Demo.happyHost) 4 ["init"; "old.txt"] Demo.usedWork
  = (Exit 1,
     complained
       [("ENOTDIR: not a directory, scandir '/work/old.txt'" ++ nl)%string]
       (afterBanner None Demo.usedWork)).
Proof.
  exact (proj2 (@initProject_target_is_file Demo.happyHost 4 (Some "old.txt")
                  ∅ None Demo.usedWork "old" eq_refl)
           "old.txt" eq_refl eq_refl).
Defined.

(** X16, witness: [webclaw --no-start] without a terminal. *)
Lemma main_bootstrap_witness :
  main (H := Demo.happyHost) 4 ["--no-start"] Demo.emptyWork
  = initProject (H := Demo.happyHost) 4 (Some "webclaw") {["--no-start"]}
      (Some (mkConfig "webclaw" (mkEnv "ws://127.0.0.1:18789" "" "")
               (ofZ 3000) false))
      (printed bannerLines Demo.emptyWork).
Proof.
  refine (@main_bootstrap Demo.happyHost 4 ["--no-start"] Demo.emptyWork
            _ _ eq_refl (or_intror (or_introl eq_refl)));
    cbn; intuition discriminate.
Defined.

(** ** What a copy leaves behind *)

Lemma apart_spec (p q : path) :
  apart p q = true -> forall a b, p ++ a <> q ++ b.
Proof.
  revert q. induction p as [|x p IH]; intros [|y q] Hap a b; try discriminate.
  cbn in Hap. cbn [app]. intros E. injection E as Exy Etl.
  destruct (String.eqb_spec x y) as [_|Hne]; [|contradiction].
  exact (IH q Hap a b Etl).
Qed.

Lemma apart_app (p q a b : path) :
  apart p q = true -> apart (p ++ a) (q ++ b) = true.
Proof.
  revert q. induction p as [|x p IH]; intros [|y q] Hap; try discriminate.
  cbn in Hap |- *. destruct (String.eqb x y); [now apply IH | reflexivity].
Qed.

Lemma bind_ret_inv {A B} (m : M A) (k : A -> M B) (w w' : world) (b : B) :
  bind m k w = (Ret b, w') ->
  exists a w1, m w = (Ret a, w1) /\ k a w1 = (Ret b, w').
Proof.
  unfold bind. destruct (m w) as [[a| e | c |] w1]; try discriminate.
  intros Hk. now exists a, w1.
Qed.

Lemma mutate_ret_inv (c : call) (syscall : string) (p : path) f
    (w w' : world) :
  mutate c syscall p f w = (Ret tt, w') -> f (fs w) = Ok (fs w').
Proof.
  unfold mutate, bind, logCall. cbn.
  destruct (f (fs w)) as [n|e]; [|discriminate]. now intros [= <-].
Qed.

Lemma putFile_join (dir : path) (name data : string) (n : node) :
  putFile (dir ++ [name]) data n = alterDir dir (putEntry name data) n.
Proof. unfold putFile. now rewrite unsnoc_app. Qed.

Lemma lookup_file_nil (q : path) (data d : string) :
  lookup q (File data) = Some (File d) -> q = [].
Proof. destruct q; [reflexivity | discriminate]. Qed.

Lemma put_file_kept (dir : path) (name data : string) :
  forall n n' q d,
    alterDir dir (putEntry name data) n = Ok n' ->
    lookup q n = Some (File d) -> q <> dir ++ [name] ->
    lookup q n' = Some (File d).
Proof.
  induction dir as [|a dir IH]; intros n n' q d Hput Hq Hne;
    destruct n as [|es]; try discriminate; cbn in Hput;
    (destruct q as [|b q]; [discriminate|]); cbn in Hq |- *.
  - unfold putEntry in Hput.
    destruct (String.eqb_spec name b) as [<-|Hnb].
    + exfalso. destruct (getEntry name es) as [[d0|sub]|]; try discriminate.
      apply lookup_file_nil in Hq. now subst q.
    + assert (n' = Dir (setEntry name (File data) es)) as ->
        by (destruct (getEntry name es) as [[|]|]; congruence).
      cbn. now rewrite (getEntry_setEntry_ne name b _ es Hnb).
  - destruct (getEntry a es) as [c|] eqn:Ea; [|discriminate].
    destruct (alterDir dir (putEntry name data) c) as [c'|] eqn:Ec;
      [|discriminate].
    injection Hput as <-. cbn.
    destruct (String.eqb_spec a b) as [<-|Hab].
    + rewrite getEntry_setEntry. rewrite Ea in Hq.
      apply (IH c c' q d Ec Hq). intros ->. now apply Hne.
    + now rewrite (getEntry_setEntry_ne a b _ es Hab).
Qed.

Lemma put_file_lookup (dir : path) (name data : string) :
  forall n n',
    alterDir dir (putEntry name data) n = Ok n' ->
    lookup (dir ++ [name]) n' = Some (File data).
Proof.
  induction dir as [|a dir IH]; intros n n' Hput;
    destruct n as [|es]; try discriminate; cbn in Hput.
  - unfold putEntry in Hput.
    assert (n' = Dir (setEntry name (File data) es)) as ->
      by (destruct (getEntry name es) as [[|]|]; congruence).
    cbn. now rewrite getEntry_setEntry.
  - destruct (getEntry a es) as [c|] eqn:Ea; [|discriminate].
    destruct (alterDir dir (putEntry name data) c) as [c'|] eqn:Ec;
      [|discriminate].
    injection Hput as <-. cbn. rewrite getEntry_setEntry. now apply (IH c).
Qed.

Lemma getEntry_In (name : string) (es : list (string * node)) (c : node) :
  getEntry name es = Some c -> In name (List.map fst es).
Proof.
  induction es as [|[k m] es IH]; [discriminate|]. cbn.
  destruct (String.eqb_spec k name) as [->|_]; [now left|].
  intros Hc. right. now apply IH.
Qed.

Lemma ensureDir_file_kept (p : path) (w w' : world) :
  ensureDir p w = (Ret tt, w') ->
  forall q d, lookup q (fs w) = Some (File d) ->
              lookup q (fs w') = Some (File d).
Proof.
  unfold ensureDir. intros Hrun q d Hq.
  rewrite (bind_run _ _ _ _ _ (existsSync_run _ _)) in Hrun.
  destruct (lookup p (fs w)); cbn [negb] in Hrun.
  - now injection Hrun as <-.
  - apply mutate_ret_inv in Hrun.
    exact (mkdirp_file_kept _ _ _ _ _ Hrun Hq).
Qed.

Lemma copy_step (fuel : nat) (s t : path) (name : string) (isDir : bool)
    (cur cur1 : world) :
  (forall s' t' w w',
     apart s' t' = true -> copyDir fuel s' t' w = (Ret tt, w') ->
     copied s' t' (fs w) (fs w')) ->
  apart s t = true ->
  (if copySkipped name then ret tt
   else if isDir then copyDir fuel (join1 s name) (join1 t name)
        else copyFileSync (join1 s name) (join1 t name)) cur
  = (Ret tt, cur1) ->
  (forall q d,
     (forall r, q <> t ++ name :: r) ->
     lookup q (fs cur) = Some (File d) -> lookup q (fs cur1) = Some (File d))
  /\ (forall rel d,
        notSkipped (name :: rel) ->
        lookup (s ++ name :: rel) (fs cur) = Some (File d) ->
        lookup (t ++ name :: rel) (fs cur1) = Some (File d)).
Proof.
  intros IH Hap Hrun. destruct (copySkipped name) eqn:Eskip.
  - injection Hrun as <-. split; [auto|].
    intros rel d Hns. inversion Hns; congruence.
  - destruct isDir.
    + destruct (IH _ _ _ _ (apart_app s t [name] [name] Hap) Hrun) as [HB HA].
      unfold join1 in HA, HB. split.
      * intros q d Hq. apply HA. intros r E. apply (Hq r).
        now rewrite <- app_assoc in E.
      * intros rel d Hns Hl. inversion Hns; subst.
        specialize (HB rel d). rewrite <- !app_assoc in HB. now apply HB.
    + unfold copyFileSync in Hrun. apply mutate_ret_inv in Hrun.
      unfold getFile, join1 in Hrun.
      destruct (lookup (s ++ [name]) (fs cur)) as [[data|sub]|] eqn:Esrc;
        try discriminate.
      rewrite putFile_join in Hrun. split.
      * intros q d Hq Hl. apply (put_file_kept _ _ _ _ _ _ _ Hrun Hl).
        exact (Hq []).
      * intros rel d _ Hl.
        change (s ++ name :: rel) with (s ++ [name] ++ rel) in Hl.
        rewrite app_assoc, lookup_join, Esrc in Hl.
        pose proof (lookup_file_nil _ _ _ Hl) as ->. cbn in Hl.
        injection Hl as <-. exact (put_file_lookup _ _ _ _ _ Hrun).
Qed.

Lemma copy_loop (fuel : nat) (s t : path) :
  (forall s' t' w w',
     apart s' t' = true -> copyDir fuel s' t' w = (Ret tt, w') ->
     copied s' t' (fs w) (fs w')) ->
  apart s t = true ->
  forall (entries : list (string * bool)) (cur cur' : world),
    forEach entries (fun entry =>
      let '(name, isDir) := entry in
      if copySkipped name then ret tt
      else if isDir then copyDir fuel (join1 s name) (join1 t name)
           else copyFileSync (join1 s name) (join1 t name)) cur
    = (Ret tt, cur') ->
    (forall q d,
       (forall n r, In n (List.map fst entries) -> q <> t ++ n :: r) ->
       lookup q (fs cur) = Some (File d) ->
       lookup q (fs cur') = Some (File d))
    /\ (forall name rel d,
          In name (List.map fst entries) ->
          notSkipped (name :: rel) ->
          lookup (s ++ name :: rel) (fs cur) = Some (File d) ->
          lookup (t ++ name :: rel) (fs cur') = Some (File d)).
Proof.
  intros IH Hap.
  induction entries as [|[n isDir] rest IHl]; intros cur cur' Hrun.
  - injection Hrun as <-. split; [auto | intros name rel d []].
  - cbn [forEach] in Hrun.
    apply bind_ret_inv in Hrun. destruct Hrun as ([] & cur1 & Hstep & Hrest).
    destruct (copy_step fuel s t n isDir cur cur1 IH Hap Hstep) as [SA SB].
    destruct (IHl cur1 cur' Hrest) as [LA LB]. split.
    + intros q d Hq Hl. apply LA.
      * intros n' r Hin. apply Hq. now right.
      * apply SA; [|exact Hl]. intros r. apply Hq. now left.
    + intros name rel d Hin Hns Hl.
      destruct (in_dec string_dec name (List.map fst rest)) as [Hr|Hr].
      * apply (LB name rel d Hr Hns). apply SA; [|exact Hl].
        intros r. now apply apart_spec.
      * destruct Hin as [<-|Hin]; [|contradiction]. cbn [fst] in *.
        apply LA; [|now apply SB].
        intros n' r Hin' E. apply app_inv_head in E.
        injection E as -> _. contradiction.
Qed.

Lemma copyDir_copied (fuel : nat) :
  forall s t w w',
    apart s t = true -> copyDir fuel s t w = (Ret tt, w') ->
    copied s t (fs w) (fs w').
Proof.
  induction fuel as [|fuel IH]; intros s t w w' Hap Hrun; [discriminate|].
  cbn [copyDir] in Hrun.
  apply bind_ret_inv in Hrun. destruct Hrun as ([] & w1 & Hens & Hrun).
  apply bind_ret_inv in Hrun. destruct Hrun as (entries & w2 & Hread & Hloop).
  unfold readdirTypesSync in Hread.
  destruct (lookup s (fs w1)) as [[d0|es]|] eqn:Es; try discriminate.
  injection Hread as <- <-.
  destruct (copy_loop fuel s t IH Hap _ _ _ Hloop) as [LA LB]. split.
  - intros rel d Hns Hl.
    pose proof (ensureDir_file_kept _ _ _ Hens _ _ Hl) as Hl1.
    destruct rel as [|name rel].
    + rewrite app_nil_r in Hl1. congruence.
    + apply (LB name rel d); [|exact Hns | exact Hl1].
      rewrite lookup_join, Es in Hl1. cbn in Hl1.
      destruct (getEntry name es) as [c|] eqn:Eg; [|discriminate].
      rewrite List.map_map. cbn. exact (getEntry_In _ _ _ Eg).
  - intros q d Hq Hl. apply LA.
    + intros n r _. exact (Hq (n :: r)).
    + exact (ensureDir_file_kept _ _ _ Hens _ _ Hl).
Qed.

(** X17. What a finished copy leaves behind.  When source and target part
    ways at some segment (neither lies in the other) and [copyDir]
    returns, every file of the source whose relative path has no skipped
    segment stands at the same relative path under the target with the
    same content, and every file outside the target, the source's files
    among them, is still there with its content. *)
Theorem copyDir_copies (fuel : nat) (sourceDir targetDir : path)
    (w w' : world) :
  apart sourceDir targetDir = true ->
  copyDir fuel sourceDir targetDir w = (Ret tt, w') ->
  (forall rel data,
     notSkipped rel ->
     lookup (sourceDir ++ rel) (fs w) = Some (File data) ->
     lookup (targetDir ++ rel) (fs w') = Some (File data))
  /\ (forall q data,
        (forall rel, q <> targetDir ++ rel) ->
        lookup q (fs w) = Some (File data) ->
        lookup q (fs w') = Some (File data)).
Proof. intros Hap Hrun. exact (copyDir_copied fuel _ _ _ _ Hap Hrun). Qed.

(** X17, witness: the nested manifest of a small template arrives in the
    target. *)
Lemma copyDir_copies_witness :
  lookup ["dst"; "apps"; "webclaw"; "package.json"]
    (fs (snd (copyDir 4 ["src"] ["dst"] templateWorld)))
  = Some (File "{}").
Proof.
  exact (proj1 (copyDir_copies 4 ["src"] ["dst"] templateWorld
                  (snd (copyDir 4 ["src"] ["dst"] templateWorld))
                  eq_refl eq_refl)
           ["apps"; "webclaw"; "package.json"] "{}"
           ltac:(repeat constructor) eq_refl).
Defined.

(** ** Patching the dev script twice *)

Lemma length_append' (a b : string) :
  String.length (a ++ b) = (String.length a + String.length b)%nat.
Proof.
  induction a as [|x a IH]; [reflexivity|].
  rewrite append_cons. cbn [String.length]. now rewrite IH.
Qed.

Lemma startsWith_app_l (p : string) :
  forall z y,
    (String.length p <= String.length z)%nat ->
    startsWith (z ++ y) p = startsWith z p.
Proof.
  induction p as [|c p IH]; intros z y Hlen.
  - destruct (z ++ y)%string; now destruct z.
  - destruct z as [|d z]; [cbn in Hlen; lia|].
    rewrite append_cons. cbn [startsWith]. rewrite IH; [reflexivity|].
    cbn in Hlen. lia.
Qed.

Lemma drop_app_l (n : nat) :
  forall z y,
    (n <= String.length z)%nat -> drop n (z ++ y) = (drop n z ++ y)%string.
Proof.
  induction n as [|n IH]; intros z y Hlen.
  - reflexivity.
  - destruct z as [|d z]; [cbn in Hlen; lia|].
    rewrite append_cons. cbn [drop]. apply IH. cbn in Hlen. lia.
Qed.

Lemma dropWhile_cons (f : ascii -> bool) (c : ascii) (s : string) :
  dropWhile f (String c s) = if f c then dropWhile f s else String c s.
Proof. reflexivity. Qed.

(** Dropping a run from a string that ends in a character outside the run
    stops inside that string, whatever follows it. *)
Lemma dropWhile_stops (f : ascii -> bool) (c : ascii) :
  f c = false ->
  forall v, exists v',
    (String.length v' <= String.length v)%nat
    /\ forall y,
         dropWhile f (v ++ String c y) = (v' ++ String c y)%string.
Proof.
  intros Hc. induction v as [|d v IH].
  - exists EmptyString. split; [reflexivity|]. intros y.
    change (EmptyString ++ String c y)%string with (String c y).
    now rewrite dropWhile_cons, Hc.
  - destruct IH as (v' & Hlen & Hv'). destruct (f d) eqn:Ed.
    + exists v'. split; [cbn; lia|]. intros y.
      now rewrite append_cons, dropWhile_cons, Ed.
    + exists (String d v). split; [reflexivity|]. intros y.
      now rewrite append_cons, dropWhile_cons, Ed.
Qed.

Lemma ltb_length_app (a b y : string) :
  (String.length (a ++ y) <? String.length (b ++ y))%nat
  = (String.length a <? String.length b)%nat.
Proof.
  rewrite !length_append'.
  destruct (String.length a <? String.length b)%nat eqn:E.
  - apply Nat.ltb_lt in E. apply Nat.ltb_lt. lia.
  - apply Nat.ltb_ge in E. apply Nat.ltb_ge. lia.
Qed.

(** Whether the pattern matches at the start of a string is settled
    before the end of a later [--port] in it. *)
Lemma matchPortAt_settled (pre : string) :
  pre <> EmptyString ->
  exists r : option string,
    forall y,
      matchPortAt (pre ++ "--port" ++ y)
      = option_map (fun rest => (rest ++ String "t" y)%string) r.
Proof.
  intros Hpre.
  assert (Hlen : (6 <= String.length (pre ++ "--por"))%nat).
  { rewrite length_append'. destruct pre; [congruence | cbn; lia]. }
  assert (Hsplit : forall y, (pre ++ "--port" ++ y
                              = (pre ++ "--por") ++ String "t" y)%string).
  { intros y. now rewrite append_assoc'. }
  destruct (dropWhile_stops isSpace "t" eq_refl (drop 6 (pre ++ "--por")))
    as (v1 & Hl1 & Hv1).
  destruct (dropWhile_stops isDigit "t" eq_refl v1) as (v2 & Hl2 & Hv2).
  exists (if startsWith (pre ++ "--por") "--port"
          then if (String.length v1 <? String.length (drop 6 (pre ++ "--por")))%nat
               then if (String.length v2 <? String.length v1)%nat
                    then Some v2 else None
               else None
          else None).
  intros y. rewrite Hsplit. unfold matchPortAt.
  rewrite (startsWith_app_l "--port" _ _ Hlen), (drop_app_l 6 _ _ Hlen).
  destruct (startsWith (pre ++ "--por") "--port"); [|reflexivity].
  cbv zeta. rewrite Hv1, Hv2, !ltb_length_app.
  destruct (String.length v1 <? _)%nat; [|reflexivity].
  now destruct (String.length v2 <? String.length v1)%nat.
Qed.

Lemma matchPortAt_stable (pre y x : string) :
  pre <> EmptyString ->
  matchPortAt (pre ++ "--port" ++ y) = None ->
  matchPortAt (pre ++ "--port" ++ x) = None.
Proof.
  intros Hpre. destruct (matchPortAt_settled pre Hpre) as [[r|] Hr];
    rewrite !Hr; [discriminate | reflexivity].
Qed.

Lemma dropWhile_idem (f : ascii -> bool) (s : string) :
  dropWhile f (dropWhile f s) = dropWhile f s.
Proof.
  induction s as [|c s IH]; [reflexivity|].
  rewrite dropWhile_cons. destruct (f c) eqn:Ec; [exact IH|].
  now rewrite dropWhile_cons, Ec.
Qed.

Lemma matchPortAt_rest (s rest : string) :
  matchPortAt s = Some rest -> dropWhile isDigit rest = rest.
Proof.
  unfold matchPortAt. destruct (startsWith s "--port"); [|discriminate].
  cbv zeta. destruct (_ <? _)%nat; [|discriminate].
  destruct (_ <? _)%nat; [|discriminate].
  intros [= <-]. apply dropWhile_idem.
Qed.

Lemma replacePort_eq (s r : string) :
  replacePort s r
  = match matchPortAt s with
    | Some rest => (r ++ rest)%string
    | None =>
        match s with
        | EmptyString => EmptyString
        | String c s' => String c (replacePort s' r)
        end
    end.
Proof. now destruct s. Qed.

Lemma startsWith_drop (p : string) :
  forall s, startsWith s p = true ->
            s = (p ++ drop (String.length p) s)%string.
Proof.
  induction p as [|c p IH]; intros s Hs; [now destruct s|].
  destruct s as [|d s]; [discriminate|]. cbn [startsWith] in Hs.
  apply andb_true_iff in Hs. destruct Hs as [Hc Hs].
  apply Ascii.eqb_eq in Hc. subst d.
  rewrite append_cons. cbn [String.length drop]. now rewrite <- (IH s Hs).
Qed.

Lemma startsWith_prefix (a b : string) :
  forall s, startsWith s (a ++ b) = true -> startsWith s a = true.
Proof.
  induction a as [|c a IH]; intros s Hs; [now destruct s|].
  rewrite append_cons in Hs. destruct s as [|d s]; [discriminate|].
  cbn [startsWith] in Hs |- *. apply andb_true_iff in Hs.
  destruct Hs as [-> Hs]. now rewrite (IH s Hs).
Qed.

Lemma includes_prefix (a b s : string) :
  includes s (a ++ b) = true -> includes s a = true.
Proof.
  induction s as [|d s IH]; cbn [includes]; intros Hs;
    apply orb_true_iff in Hs; destruct Hs as [Hs|Hs]; try discriminate.
  - now rewrite (startsWith_prefix a b _ Hs).
  - now rewrite (startsWith_prefix a b _ Hs).
  - rewrite (IH Hs). apply orb_true_r.
Qed.

Lemma startsWith_app_stop (p : string) :
  forall d x,
    hasChar " " p = false -> startsWith d p = false ->
    startsWith (d ++ String " " x) p = false.
Proof.
  induction p as [|a p IH]; intros d x Hp Hd; [now destruct d|].
  cbn [hasChar] in Hp. apply orb_false_iff in Hp. destruct Hp as [Ha Hp].
  destruct d as [|b d].
  - change (EmptyString ++ String " " x)%string with (String " " x).
    cbn [startsWith]. now rewrite Ha.
  - rewrite append_cons. cbn [startsWith] in Hd |- *.
    destruct (Ascii.eqb a b); [|reflexivity]. cbn [andb] in Hd |- *.
    now apply IH.
Qed.

Lemma digit_not_space (c : ascii) : isDigit c = true -> isSpace c = false.
Proof. destruct c as [[] [] [] [] [] [] [] []]; vm_compute; congruence. Qed.

Lemma dropWhile_digits (digits rest : string) :
  allDigits digits = true ->
  dropWhile isDigit (digits ++ rest) = dropWhile isDigit rest.
Proof.
  induction digits as [|c digits IH]; intros Hd; [reflexivity|].
  cbn [allDigits] in Hd. apply andb_true_iff in Hd. destruct Hd as [Hc Hd].
  rewrite append_cons, dropWhile_cons, Hc. now apply IH.
Qed.

Lemma digits_checked :
  forallb (fun n => allDigits (decimal n) && truthy (decimal n))
    (zrange 1 65535) = true.
Proof. vm_compute. reflexivity. Qed.

Section Replacement.
Variable digits : string.
Hypothesis all_digits : allDigits digits = true.
Hypothesis not_empty : truthy digits = true.

Lemma matchPortAt_replacement (rest : string) :
  dropWhile isDigit rest = rest ->
  matchPortAt ("--port " ++ digits ++ rest) = Some rest.
Proof using All.
  intros Hrest. destruct digits as [|d ds] eqn:Ed; [discriminate|].
  pose proof all_digits as Hall. cbn [allDigits] in Hall.
  apply andb_true_iff in Hall. destruct Hall as [Hd Hds].
  rewrite <- Ed in *. unfold matchPortAt.
  change (startsWith ("--port " ++ digits ++ rest) "--port") with true.
  change (drop 6 ("--port " ++ digits ++ rest))
    with (String " " (digits ++ rest)).
  cbv zeta. rewrite (dropWhile_cons isSpace " ").
  change (isSpace " ") with true. cbv iota.
  assert (Hsp : dropWhile isSpace (digits ++ rest) = (digits ++ rest)%string).
  { rewrite Ed, append_cons, dropWhile_cons.
    now rewrite (digit_not_space d Hd). }
  rewrite Hsp.
  assert (L1 : (String.length (digits ++ rest)
                <? String.length (String " " (digits ++ rest)))%nat = true)
    by (apply Nat.ltb_lt; cbn; lia).
  rewrite L1, (dropWhile_digits _ _ all_digits), Hrest.
  assert (L2 : (String.length rest <? String.length (digits ++ rest))%nat
               = true).
  { apply Nat.ltb_lt. rewrite length_append', Ed. cbn. lia. }
  now rewrite L2.
Qed.

Lemma replacePort_shape (s : string) :
  replacePort s ("--port " ++ digits) = s
  \/ exists pre y x,
       s = (pre ++ "--port" ++ y)%string
       /\ replacePort s ("--port " ++ digits) = (pre ++ "--port" ++ x)%string.
Proof.
  induction s as [|c s IH]; [now left|].
  rewrite replacePort_eq.
  destruct (matchPortAt (String c s)) as [rest|] eqn:E.
  - right.
    exists EmptyString, (drop 6 (String c s)), (" " ++ digits ++ rest)%string.
    split.
    + exact (startsWith_drop "--port" _ (matchPortAt_startsWith _ _ E)).
    + now rewrite append_assoc'.
  - destruct IH as [->|(pre & y & x & E1 & E2)]; [now left|].
    right. exists (String c pre), y, x. rewrite E2. now subst s.
Qed.

Lemma replacePort_idem (s : string) :
  replacePort (replacePort s ("--port " ++ digits)) ("--port " ++ digits)
  = replacePort s ("--port " ++ digits).
Proof using All.
  induction s as [|c s IH]; [reflexivity|].
  rewrite (replacePort_eq (String c s)).
  destruct (matchPortAt (String c s)) as [rest|] eqn:E.
  - rewrite replacePort_eq, append_assoc'.
    now rewrite (matchPortAt_replacement rest (matchPortAt_rest _ _ E)).
  - rewrite replacePort_eq.
    assert (Hnone : matchPortAt
                      (String c (replacePort s ("--port " ++ digits))) = None).
    { destruct (replacePort_shape s) as [->|(pre & y & x & -> & ->)];
        [exact E|].
      apply (matchPortAt_stable (String c pre) y x); [discriminate | exact E]. }
    now rewrite Hnone, IH.
Qed.

Lemma append_port_stable (dev : string) :
  includes dev "--port" = false ->
  replacePort (dev ++ " --port " ++ digits) ("--port " ++ digits)
  = (dev ++ " --port " ++ digits)%string.
Proof using All.
  change (" --port " ++ digits)%string
    with (String " " ("--port " ++ digits)).
  induction dev as [|c dev IH]; intros Hdev.
  - change (EmptyString ++ String " " ("--port " ++ digits))%string
      with (String " " ("--port " ++ digits)).
    rewrite replacePort_eq.
    change (matchPortAt (String " " ("--port " ++ digits))) with (@None string).
    f_equal. rewrite replacePort_eq.
    pose proof (matchPortAt_replacement EmptyString eq_refl) as Hm.
    rewrite append_empty_r in Hm. rewrite Hm. apply append_empty_r.
  - cbn [includes] in Hdev. apply orb_false_iff in Hdev.
    destruct Hdev as [Hs Hi].
    rewrite replacePort_eq. unfold matchPortAt at 1.
    rewrite (startsWith_app_stop "--port" (String c dev) _ eq_refl Hs).
    rewrite append_cons. f_equal. now apply IH.
Qed.

End Replacement.

Section PatchTwice.
Context {H : Host}.

(** X18. Patching the dev script is idempotent.  For a port that is an
    integer between 1 and 65535, applying the rewrite of [setDevPort] to
    its own result changes nothing: a script without [--port] gets one
    [--port <n>] appended and never a second one; a script in which the
    pattern matched holds the new port and is left alone; a script with
    [--port] in a form the pattern misses stays as it was both times. *)
Theorem patchDevScript_idempotent (dev : string) (port : number) :
  validPort port ->
  patchDevScript (patchDevScript dev port) port = patchDevScript dev port.
Proof.
  intros (n & Hn & Hd).
  pose proof digits_checked as Hall. rewrite forallb_forall in Hall.
  specialize (Hall n (zrange_In 1 65535 n ltac:(lia))).
  apply andb_true_iff in Hall. destruct Hall as [Hdigits Hne].
  unfold patchDevScript. rewrite (validPort_toString port n Hn Hd).
  destruct (includes dev "--port") eqn:Ei.
  - destruct (hasPortMatch dev) eqn:Em.
    + assert (Hinc : includes (replacePort dev ("--port " ++ decimal n))
                       "--port" = true).
      { apply (includes_prefix "--port" (" " ++ decimal n)).
        change ("--port" ++ " " ++ decimal n)%string
          with ("--port " ++ decimal n)%string.
        now apply replacePort_match. }
      rewrite Hinc. now apply replacePort_idem.
    + rewrite (replacePort_no_match _ _ Em), Ei.
      now apply replacePort_no_match.
  - assert (Hinc : includes (dev ++ " --port " ++ decimal n) "--port" = true).
    { replace (dev ++ " --port " ++ decimal n)%string
        with ((dev ++ " ") ++ "--port" ++ (" " ++ decimal n))%string
        by (now rewrite append_assoc').
      apply includes_append. }
    rewrite Hinc. now apply append_port_stable.
Qed.

End PatchTwice.

(** X18, witness: port 4000 on [vite dev], where the first pass appends
    the option. *)
Lemma patchDevScript_idempotent_witness :
  patchDevScript (H := Demo.happyHost)
    (patchDevScript (H := Demo.happyHost) "vite dev" (ofZ 4000)) (ofZ 4000)
  = patchDevScript (H := Demo.happyHost) "vite dev" (ofZ 4000).
Proof.
  apply (@patchDevScript_idempotent Demo.happyHost "vite dev" (ofZ 4000)).
  exists 4000. split; [lia | reflexivity].
Defined.

(** ** Child processes of [init] *)

Lemma quiet_existsSync (P : call -> Prop) (p : path) :
  callsAll P (existsSync p).
Proof. now apply callsAll_silent. Qed.

Lemma quiet_writeStdout (P : call -> Prop) (s : string) :
  callsAll P (writeStdout s).
Proof. now apply callsAll_silent. Qed.

Lemma quiet_readdirTypesSync (P : call -> Prop) (p : path) :
  callsAll P (readdirTypesSync p).
Proof.
  apply callsAll_silent. intros w. unfold readdirTypesSync.
  now destruct (lookup p (fs w)) as [[|]|].
Qed.

Lemma quiet_readFileSync (P : call -> Prop) (p : path) :
  callsAll P (readFileSync p).
Proof.
  apply callsAll_silent. intros w. unfold readFileSync.
  now destruct (getFile p (fs w)).
Qed.

Lemma quiet_isDirEmpty (P : call -> Prop) (targetDir : path) :
  callsAll P (isDirEmpty targetDir).
Proof.
  apply callsAll_bind; [apply quiet_existsSync|]. intros [|]; cbn [negb].
  - apply callsAll_bind; [|intros; apply callsAll_ret].
    apply callsAll_bind; [apply quiet_readdirTypesSync|].
    intros; apply callsAll_ret.
  - apply callsAll_ret.
Qed.

Lemma quiet_resolveEnvFile (P : call -> Prop) (targetDir : path) :
  callsAll P (resolveEnvFile targetDir).
Proof. apply callsAll_silent. intros w. now rewrite resolveEnvFile_run. Qed.

Lemma quiet_banner (P : call -> Prop) (b : bool) :
  callsAll P (when b printBanner).
Proof.
  apply callsAll_silent. intros w. destruct b; [|reflexivity].
  cbn [when]. now rewrite printBanner_run.
Qed.

Lemma spawnless_ensureDir (p : path) : callsAll notSpawn (ensureDir p).
Proof.
  apply callsAll_bind; [apply quiet_existsSync|].
  intros [|]; cbn [negb]; [apply callsAll_ret | now apply callsAll_mutate].
Qed.

Lemma spawnless_copyDir (fuel : nat) (sourceDir targetDir : path) :
  callsAll notSpawn (copyDir fuel sourceDir targetDir).
Proof.
  apply (callsAll_mono (mirrored sourceDir targetDir));
    [|apply callsAll_copyDir].
  now intros [].
Qed.

Lemma spawnless_writeEnvFile (targetDir : path) (env : EnvValues) :
  callsAll notSpawn (writeEnvFile targetDir env).
Proof.
  apply callsAll_bind; [apply quiet_resolveEnvFile|]. intros envFile.
  apply callsAll_bind; [apply spawnless_ensureDir|]. intros _.
  apply callsAll_bind; [now apply callsAll_mutate|]. intros _.
  apply quiet_writeStdout.
Qed.

Section InitChildren.
Context {H : Host}.

Lemma quiet_getLocalTemplateSource (P : call -> Prop) :
  callsAll P getLocalTemplateSource.
Proof.
  unfold getLocalTemplateSource. cbv zeta.
  apply callsAll_bind; [apply quiet_existsSync|]. intros hasRoot.
  apply callsAll_bind.
  { destruct hasRoot; [apply quiet_existsSync | apply callsAll_ret]. }
  intros hasApp. destruct (negb hasRoot || negb hasApp); apply callsAll_ret.
Qed.

Lemma quiet_askQuestion (P : call -> Prop) (question : string) :
  callsAll P (askQuestion question).
Proof.
  apply callsAll_bind; [|intros; apply callsAll_ret].
  apply callsAll_bind; [apply quiet_writeStdout|]. intros _.
  now apply callsAll_silent.
Qed.

Lemma quiet_detectPackageManager (P : call -> Prop) (dir : path) :
  callsAll P (detectPackageManager dir).
Proof.
  apply callsAll_silent. intros w. now rewrite detectPackageManager_run.
Qed.

Lemma yields_detectPackageManager (dir : path) :
  yields (detectPackageManager dir)
    (fun packageManager => In packageManager ["pnpm"; "yarn"; "npm"]).
Proof.
  intros w pm w'. rewrite detectPackageManager_run. intros [= <- _].
  unfold packageManagerOf.
  destruct (lookup (join1 dir "pnpm-lock.yaml") (fs w)); [cbn; tauto|].
  destruct (lookup (join1 dir "yarn.lock") (fs w)); cbn; tauto.
Qed.

Lemma spawnless_setDevPort (targetDir : path) (port : number) :
  callsAll notSpawn (setDevPort targetDir port).
Proof.
  unfold setDevPort.
  apply callsAll_bind; [apply quiet_existsSync|]. intros nested. cbv zeta.
  apply callsAll_bind; [apply quiet_existsSync|]. intros [|]; cbn [negb];
    [|apply callsAll_ret].
  apply callsAll_bind; [apply quiet_readFileSync|]. intros text.
  destruct (JSON_parse text) as [e|packageJson]; [now apply callsAll_silent|].
  destruct packageJson; try (now apply callsAll_silent);
    (destruct (negb (isTruthy _)); [apply callsAll_ret|]);
    try apply callsAll_ret.
  all: destruct (getProp _ _) as [[]|]; try apply callsAll_ret.
  all: destruct (getField _ _) as [[]|]; try apply callsAll_ret.
  all: now apply callsAll_mutate.
Qed.

Lemma spawnless_maybeSetupEnv (targetDir : path) (options : gset string)
    (env : option EnvValues) :
  callsAll notSpawn (maybeSetupEnv targetDir options env).
Proof.
  unfold maybeSetupEnv.
  destruct (bool_decide ("--skip-env" ∈ options)); [apply callsAll_ret|].
  destruct env as [values|]; [apply spawnless_writeEnvFile|].
  destruct (negb stdinIsTTY || negb stdoutIsTTY); [apply callsAll_ret|].
  apply callsAll_bind; [apply quiet_resolveEnvFile|]. intros envFile.
  apply callsAll_finally; [|apply callsAll_ret].
  apply callsAll_bind; [apply quiet_askQuestion|]. intros createAnswer.
  destruct (negb _); [apply quiet_writeStdout|].
  apply callsAll_bind; [apply quiet_existsSync|]. intros present.
  apply callsAll_bind.
  { destruct present; [|apply callsAll_ret].
    apply callsAll_bind; [apply quiet_askQuestion|]. intros overwriteAnswer.
    destruct (negb _); [|apply callsAll_ret].
    apply callsAll_bind; [apply quiet_writeStdout|].
    intros; apply callsAll_ret. }
  intros [|]; [apply callsAll_ret|].
  apply callsAll_bind; [apply quiet_askQuestion|]. intros url.
  apply callsAll_bind; [apply quiet_askQuestion|]. intros token.
  apply spawnless_writeEnvFile.
Qed.

Lemma callsAll_mkdtempSync (P : call -> Prop) (prefix : path) :
  P (MkdtempCall prefix) -> callsAll P (mkdtempSync prefix).
Proof.
  intros Hc w. unfold mkdtempSync. cbv zeta.
  apply (callsAll_bind P (mutate _ _ _ _) (fun _ => ret _));
    [now apply callsAll_mutate | intros; apply callsAll_ret].
Qed.

Lemma callsAll_runCommand (P : call -> Prop) (command : string)
    (args : list string) (dir : path) :
  P (SpawnCall command args dir) -> callsAll P (runCommand command args dir).
Proof.
  intros Hc. apply callsAll_bind.
  { intros w. exists [SpawnCall command args dir].
    rewrite spawnSync_afterChild. split; [reflexivity | now constructor]. }
  intros result. destruct (spawnError result); [now apply callsAll_silent|].
  destruct (spawnStatus result) as [status|]; [|apply callsAll_ret].
  destruct (negb (status =? 0)); [now apply callsAll_silent | apply callsAll_ret].
Qed.

Variables (targetDir : path) (auto : bool).

Lemma child_local {A} (m : M A) :
  callsAll notSpawn m -> callsAll (startsChild targetDir auto) m.
Proof. apply callsAll_mono. now intros []. Qed.

Lemma child_clone (dest : path) :
  callsAll (startsChild targetDir auto) (cloneRepo dest).
Proof.
  apply callsAll_runCommand. left. repeat split. now exists (toString dest).
Qed.

Lemma child_populateTemplate (fuel : nat) (isCurrentDir : bool) :
  callsAll (startsChild targetDir auto)
    (populateTemplate fuel targetDir isCurrentDir).
Proof.
  unfold populateTemplate.
  apply callsAll_bind; [apply quiet_getLocalTemplateSource|].
  intros [source|].
  - destruct (negb isCurrentDir); apply child_local, spawnless_copyDir.
  - destruct (negb isCurrentDir); [apply child_clone|].
    apply callsAll_bind; [now apply callsAll_mkdtempSync|].
    intros tempRoot. cbv zeta.
    apply callsAll_bind; [apply child_clone|]. intros _.
    apply callsAll_bind; [apply child_local, spawnless_copyDir|]. intros _.
    now apply callsAll_mutate.
Qed.

Lemma child_ensureGitRepository :
  callsAll (startsChild targetDir auto) (ensureGitRepository targetDir).
Proof.
  apply callsAll_bind; [apply quiet_existsSync|]. intros [|].
  - apply callsAll_ret.
  - apply callsAll_bind.
    { intros w. exists [SpawnCall "git" ["init"] targetDir].
      rewrite spawnSync_afterChild. split; [reflexivity|].
      constructor; [|constructor]. right. left. now repeat split. }
    intros result.
    destruct (spawnStatus result) as [[|p|p]|];
      first [apply quiet_writeStdout | apply callsAll_ret].
Qed.

Lemma child_clearTarget :
  callsAll (startsChild targetDir auto) (clearTarget targetDir).
Proof.
  unfold clearTarget. apply callsAll_bind.
  { apply callsAll_bind; [apply quiet_readdirTypesSync|].
    intros; apply callsAll_ret. }
  intros entries. apply callsAll_forEach. intros entry.
  destruct (String.eqb entry ".git"); [apply callsAll_ret|].
  now apply callsAll_mutate.
Qed.

Lemma child_finishInit (options : gset string)
    (bootstrapConfig : option BootstrapConfig) :
  autoStarts bootstrapConfig = auto ->
  callsAll (startsChild targetDir auto)
    (finishInit targetDir options bootstrapConfig).
Proof.
  intros Hauto. unfold finishInit.
  apply callsAll_bind; [apply child_ensureGitRepository|]. intros _.
  apply callsAll_bind.
  { destruct bootstrapConfig;
      [apply child_local, spawnless_setDevPort | apply callsAll_ret]. }
  intros _.
  apply callsAll_bind; [apply child_local, spawnless_maybeSetupEnv|].
  intros _.
  apply callsAll_bind; [apply quiet_writeStdout|]. intros _. cbv zeta.
  assert (Hnext : callsAll (startsChild targetDir auto)
    (writeStdout ("Next steps:" ++ nl) ;;
     writeStdout ("  cd " ++ (let r := relative cwd targetDir in
                              if truthy r then r else ".") ++ nl) ;;
     writeStdout ("  pnpm install" ++ nl) ;;
     writeStdout ("  pnpm dev" ++ nl ++ nl))).
  { repeat (apply callsAll_bind; [apply quiet_writeStdout|intros _]).
    apply quiet_writeStdout. }
  destruct bootstrapConfig as [config|]; [|exact Hnext].
  cbn [autoStarts] in Hauto.
  destruct (autoStart config); [|exact Hnext]. subst auto.
  apply callsAll_bind; [apply quiet_writeStdout|]. intros _.
  apply callsAll_bind.
  { unfold installDependencies.
    apply (callsAll_bind_yields _
             (fun pm => In pm ["pnpm"; "yarn"; "npm"]));
      [apply quiet_detectPackageManager | apply yields_detectPackageManager|].
    intros pm Hpm.
    destruct (String.eqb pm "yarn"); apply callsAll_runCommand;
      right; right; repeat split; cbn; auto. }
  intros _.
  apply callsAll_bind; [apply quiet_writeStdout|]. intros _.
  unfold startProject.
  apply (callsAll_bind_yields _ (fun pm => In pm ["pnpm"; "yarn"; "npm"]));
    [apply quiet_detectPackageManager | apply yields_detectPackageManager|].
  intros pm Hpm. apply callsAll_runCommand.
  right; right; repeat split; cbn; auto.
Qed.

End InitChildren.

Section InitChildrenTheorem.
Context {H : Host}.

(** X19. The child processes of [initProject].  Whatever the arguments,
    the options, the host and the outcome, every process it starts is
    [git clone --depth 1 <repository> <destination>] from the current
    directory, [git init] in the target, or (only when a configuration
    with auto start is given) [install] or [run dev] of [pnpm], [yarn] or
    [npm] in the target.  So [webclaw init] and the bootstrap command with
    [--no-start] never run a package manager. *)
Theorem initProject_children (fuel : nat) (rawTarget : option string)
    (options : gset string) (bootstrapConfig : option BootstrapConfig)
    (w : world) :
  exists delta,
    calls (snd (initProject fuel rawTarget options bootstrapConfig w))
    = calls w ++ delta
    /\ Forall (startsChild (targetOf rawTarget) (autoStarts bootstrapConfig))
         delta.
Proof.
  revert w.
  change (callsAll
            (startsChild (targetOf rawTarget) (autoStarts bootstrapConfig))
            (initProject fuel rawTarget options bootstrapConfig)).
  unfold initProject. fold (targetOf rawTarget).
  apply callsAll_bind; [apply quiet_banner|]. intros _. cbv zeta.
  apply callsAll_bind; [apply child_local, spawnless_ensureDir|]. intros _.
  apply callsAll_bind.
  { destruct (negb _); [|apply callsAll_ret].
    apply callsAll_bind; [apply quiet_isDirEmpty|].
    intros; apply callsAll_ret. }
  intros [|].
  { apply callsAll_bind; [now apply callsAll_silent|].
    intros _. now apply callsAll_silent. }
  apply callsAll_bind.
  { destruct (bool_decide _); [|apply callsAll_ret].
    apply callsAll_bind; [apply quiet_isDirEmpty|].
    intros; apply callsAll_ret. }
  intros [|].
  { apply callsAll_bind; [now apply callsAll_silent|].
    intros _. now apply callsAll_silent. }
  apply callsAll_bind.
  { destruct (bool_decide _); [|apply callsAll_ret].
    apply callsAll_bind; [apply quiet_isDirEmpty|].
    intros; apply callsAll_ret. }
  intros clearing. apply callsAll_bind.
  { unfold when. destruct clearing; [apply child_clearTarget|].
    apply callsAll_ret. }
  intros _. unfold provision.
  apply callsAll_bind; [apply quiet_existsSync|]. intros hasGit.
  apply callsAll_bind.
  { destruct (negb hasGit); [apply quiet_isDirEmpty | apply callsAll_ret]. }
  intros empty. apply callsAll_bind.
  { unfold when. destruct (negb hasGit && empty); [|apply callsAll_ret].
    apply child_populateTemplate. }
  intros _. now apply child_finishInit.
Qed.

End InitChildrenTheorem.

(** ** A copy into a fresh place returns *)

Lemma height_cons (k : string) (c : node) (es : list (string * node)) :
  height (Dir ((k, c) :: es)) = S (Nat.max (height c) (pred (height (Dir es)))).
Proof. reflexivity. Qed.

Lemma tidy_cons (k : string) (c : node) (es : list (string * node)) :
  tidy (Dir ((k, c) :: es))
  = negb (existsb (String.eqb k) (List.map fst es)) && tidy c && tidy (Dir es).
Proof. reflexivity. Qed.

Lemma height_entry (es : list (string * node)) (k : string) (c : node) :
  In (k, c) es -> (height c < height (Dir es))%nat.
Proof.
  induction es as [|[k' c'] es IH]; [intros []|].
  rewrite height_cons. intros [[= -> ->]|Hin]; [lia|].
  specialize (IH Hin). lia.
Qed.

Lemma tidy_entry (es : list (string * node)) (k : string) (c : node) :
  tidy (Dir es) = true -> In (k, c) es -> tidy c = true.
Proof.
  induction es as [|[k' c'] es IH]; [intros _ []|].
  rewrite tidy_cons. intros Ht. apply andb_true_iff in Ht.
  destruct Ht as [Ht Hes]. apply andb_true_iff in Ht. destruct Ht as [_ Hc].
  intros [[= -> ->]|Hin]; [exact Hc | now apply IH].
Qed.

Lemma tidy_NoDup (es : list (string * node)) :
  tidy (Dir es) = true -> List.NoDup (List.map fst es).
Proof.
  induction es as [|[k c] es IH]; [intros _; apply List.NoDup_nil|].
  rewrite tidy_cons. intros Ht. apply andb_true_iff in Ht.
  destruct Ht as [Ht Hes]. apply andb_true_iff in Ht. destruct Ht as [Hk _].
  cbn [List.map fst]. apply List.NoDup_cons; [|now apply IH].
  intros Hin. apply negb_true_iff in Hk.
  assert (existsb (String.eqb k) (List.map fst es) = true); [|congruence].
  apply existsb_exists. exists k. split; [exact Hin | apply String.eqb_refl].
Qed.

Lemma getEntry_first (es : list (string * node)) (k : string) (c : node) :
  List.NoDup (List.map fst es) -> In (k, c) es -> getEntry k es = Some c.
Proof.
  induction es as [|[k' c'] es IH]; [intros _ []|].
  cbn [List.map fst getEntry]. intros Hnd Hin.
  apply List.NoDup_cons_iff in Hnd. destruct Hnd as [Hk' Hnd].
  destruct Hin as [[= -> ->]|Hin]; [now rewrite String.eqb_refl|].
  destruct (String.eqb_spec k' k) as [->|_]; [|now apply IH].
  exfalso. apply Hk'. apply in_map_iff. now exists (k, c).
Qed.

Lemma apart_nil_r (q : path) : apart q [] = false.
Proof. now destruct q. Qed.

Lemma apart_siblings (t : path) (a b : string) (x y : path) :
  a <> b -> apart (t ++ a :: x) (t ++ b :: y) = true.
Proof.
  intros Hab. induction t as [|c t IH]; cbn [app apart].
  - now destruct (String.eqb_spec a b).
  - now rewrite String.eqb_refl.
Qed.

Lemma apart_under (q t r : path) :
  apart q t = true -> apart q (t ++ r) = true.
Proof.
  intros Hap. rewrite <- (app_nil_r q). now apply apart_app.
Qed.

Lemma mkdirp_frame (p : path) :
  forall n n' q,
    mkdirp p n = Ok n' -> apart q p = true -> lookup q n' = lookup q n.
Proof.
  induction p as [|a p IH]; intros n n' q Hmk Hap.
  - now rewrite apart_nil_r in Hap.
  - destruct n as [|es]; [discriminate|]. cbn [mkdirp] in Hmk.
    destruct q as [|b q]; [discriminate|]. cbn [apart] in Hap.
    destruct (mkdirp p _) as [c'|] eqn:Ec; [|discriminate].
    injection Hmk as <-. cbn [lookup].
    destruct (String.eqb_spec b a) as [->|Hba].
    + rewrite getEntry_setEntry, (IH _ _ _ Ec Hap).
      destruct (getEntry a es); [reflexivity|].
      destruct q; [discriminate | reflexivity].
    + rewrite getEntry_setEntry_ne; [reflexivity | congruence].
Qed.

Lemma put_frame (dir : path) (name data : string) :
  forall n n' q,
    alterDir dir (putEntry name data) n = Ok n' ->
    apart q (dir ++ [name]) = true -> lookup q n' = lookup q n.
Proof.
  induction dir as [|a dir IH]; intros n n' q Hput Hap;
    destruct n as [|es]; try discriminate; cbn in Hput;
    (destruct q as [|b q]; [discriminate|]); cbn [app apart] in Hap;
    cbn [lookup].
  - assert (n' = Dir (setEntry name (File data) es)) as ->.
    { unfold putEntry in Hput.
      destruct (getEntry name es) as [[|]|]; congruence. }
    destruct (String.eqb_spec b name) as [->|Hbn].
    + now rewrite apart_nil_r in Hap.
    + cbn [lookup]. rewrite getEntry_setEntry_ne; [reflexivity | congruence].
  - destruct (getEntry a es) as [c|] eqn:Ea; [|discriminate].
    destruct (alterDir dir (putEntry name data) c) as [c'|] eqn:Ec;
      [|discriminate].
    injection Hput as <-. cbn [lookup].
    destruct (String.eqb_spec b a) as [->|Hba].
    + now rewrite getEntry_setEntry, Ea, (IH _ _ _ Ec Hap).
    + rewrite getEntry_setEntry_ne; [reflexivity | congruence].
Qed.

Lemma mkdirp_dir_kept (p : path) :
  forall n n' q e,
    mkdirp p n = Ok n' -> lookup q n = Some (Dir e) ->
    exists e', lookup q n' = Some (Dir e').
Proof.
  induction p as [|a p IH]; intros n n' q e Hmk Hq.
  - cbn in Hmk. destruct n; [discriminate|]. injection Hmk as <-. eauto.
  - destruct n as [|es]; [discriminate|]. cbn [mkdirp] in Hmk.
    destruct (mkdirp p _) as [c'|] eqn:Ec; [|discriminate].
    injection Hmk as <-. destruct q as [|b q]; [cbn; eauto|].
    cbn [lookup] in Hq |- *.
    destruct (getEntry b es) as [c|] eqn:Eb; [|discriminate].
    destruct (String.eqb_spec a b) as [->|Hab].
    + rewrite getEntry_setEntry. rewrite Eb in Ec. exact (IH _ _ _ _ Ec Hq).
    + rewrite (getEntry_setEntry_ne a b _ es Hab), Eb. eauto.
Qed.

Lemma put_dir_kept (dir : path) (name data : string) :
  forall n n' q e,
    alterDir dir (putEntry name data) n = Ok n' ->
    lookup q n = Some (Dir e) -> exists e', lookup q n' = Some (Dir e').
Proof.
  induction dir as [|a dir IH]; intros n n' q e Hput Hq;
    destruct n as [|es]; try discriminate; cbn in Hput.
  - unfold putEntry in Hput.
    destruct q as [|b q].
    { destruct (getEntry name es) as [[|]|]; try discriminate;
        injection Hput as <-; cbn; eauto. }
    cbn [lookup] in Hq.
    destruct (getEntry b es) as [c|] eqn:Eb; [|discriminate].
    destruct (String.eqb_spec name b) as [->|Hnb].
    + rewrite Eb in Hput. destruct c as [d0|sub]; [|discriminate].
      destruct q; discriminate.
    + assert (n' = Dir (setEntry name (File data) es)) as ->
        by (destruct (getEntry name es) as [[|]|]; congruence).
      cbn [lookup]. rewrite (getEntry_setEntry_ne name b _ es Hnb), Eb. eauto.
  - destruct (getEntry a es) as [c|] eqn:Ea; [|discriminate].
    destruct (alterDir dir (putEntry name data) c) as [c'|] eqn:Ec;
      [|discriminate].
    injection Hput as <-. destruct q as [|b q]; [cbn; eauto|].
    cbn [lookup] in Hq |- *.
    destruct (String.eqb_spec a b) as [->|Hab].
    + rewrite getEntry_setEntry. rewrite Ea in Hq. exact (IH _ _ _ _ Ec Hq).
    + rewrite (getEntry_setEntry_ne a b _ es Hab). eauto.
Qed.

Lemma mkdirp_child_ok (dir : path) (name : string) :
  forall n ed,
    lookup dir n = Some (Dir ed) -> lookup (dir ++ [name]) n = None ->
    exists n', mkdirp (dir ++ [name]) n = Ok n'.
Proof.
  induction dir as [|a dir IH]; intros n ed Hdir Hnone.
  - cbn in Hdir. injection Hdir as ->. cbn in Hnone |- *.
    destruct (getEntry name ed); [discriminate|]. eauto.
  - destruct n as [|es]; [discriminate|]. cbn [app lookup] in Hdir, Hnone.
    cbn [app mkdirp].
    destruct (getEntry a es) as [c|]; [|discriminate].
    destruct (IH c ed Hdir Hnone) as [c' ->]. eauto.
Qed.

Lemma lookup_child (dir : path) (name : string) (n : node)
    (ed : list (string * node)) :
  lookup dir n = Some (Dir ed) ->
  lookup (dir ++ [name]) n = getEntry name ed.
Proof.
  intros Hdir. rewrite lookup_join, Hdir. cbn.
  now destruct (getEntry name ed).
Qed.

Lemma settled_refl (t : path) (n : node) : settled t n n.
Proof. split; eauto. Qed.

Lemma settled_trans (t : path) (a b c : node) :
  settled t a b -> settled t b c -> settled t a c.
Proof.
  intros [F1 D1] [F2 D2]. split.
  - intros q Hq. now rewrite (F2 q Hq), (F1 q Hq).
  - intros q e Hq. destruct (D1 q e Hq) as [e' He']. exact (D2 q e' He').
Qed.

Lemma settled_under (t r : path) (a b : node) :
  settled (t ++ r) a b -> settled t a b.
Proof.
  intros [F D]. split; [|exact D].
  intros q Hq. apply F. now apply apart_under.
Qed.

Lemma ensureDir_receives (t : path) (names : list string) (w : world) :
  receives t names (fs w) ->
  exists w1,
    ensureDir t w = (Ret tt, w1)
    /\ settled t (fs w) (fs w1)
    /\ (exists et, lookup t (fs w1) = Some (Dir et))
    /\ (forall name, In name names -> lookup (t ++ [name]) (fs w1) = None).
Proof.
  unfold receives. intros Hrec.
  destruct (lookup t (fs w)) as [[d|et]|] eqn:Et; [contradiction| |].
  - exists w. split; [apply ensureDir_present; congruence|].
    split; [apply settled_refl|]. split; [eauto|].
    intros name Hin. now rewrite (lookup_child t name _ et Et), (Hrec name Hin).
  - destruct Hrec as (parent & last & ep & -> & Hparent).
    destruct (mkdirp_child_ok parent last _ ep Hparent Et) as [n1 Hmk].
    pose proof (mkdirp_fresh _ _ _ Et Hmk) as Hfresh.
    exists (mkWorld n1 (stdout w) (stderr w)
              (calls w ++ [MkdirCall (parent ++ [last])]) (asked w)).
    split.
    { unfold ensureDir.
      rewrite (bind_run _ _ _ _ _ (existsSync_run _ _)), Et. cbn [negb].
      unfold mkdirSync. apply mutate_ok. exact Hmk. }
    cbn [fs]. split; [|split; [eauto|]].
    + split.
      * intros q Hq. exact (mkdirp_frame _ _ _ _ Hmk Hq).
      * intros q e Hq. exact (mkdirp_dir_kept _ _ _ _ _ Hmk Hq).
    + intros name _. now rewrite (lookup_child _ name _ [] Hfresh).
Qed.

Lemma copy_step_returns (fuel : nat) (s t : path) (k : string) (c : node)
    (cur : world) :
  (forall s' t' w es,
     lookup s' (fs w) = Some (Dir es) -> tidy (Dir es) = true ->
     (height (Dir es) <= fuel)%nat -> apart s' t' = true ->
     receives t' (copiedNames es) (fs w) ->
     exists w', copyDir fuel s' t' w = (Ret tt, w')
                /\ settled t' (fs w) (fs w')) ->
  apart s t = true ->
  lookup (s ++ [k]) (fs cur) = Some c -> tidy c = true ->
  (height c <= fuel)%nat ->
  (exists et, lookup t (fs cur) = Some (Dir et)) ->
  (copySkipped k = false -> lookup (t ++ [k]) (fs cur) = None) ->
  exists cur1,
    (if copySkipped k then ret tt
     else if isDirectory c then copyDir fuel (join1 s k) (join1 t k)
          else copyFileSync (join1 s k) (join1 t k)) cur
    = (Ret tt, cur1)
    /\ settled (t ++ [k]) (fs cur) (fs cur1).
Proof.
  intros IH Hap Hsrc Htidy Hheight [et Ht] Hfree.
  destruct (copySkipped k); [exists cur; split; [reflexivity|]|].
  { apply settled_refl. }
  specialize (Hfree eq_refl). unfold join1.
  destruct c as [data|ec]; cbn [isDirectory].
  - pose proof Hfree as Hk. rewrite (lookup_child t k _ et Ht) in Hk.
    destruct (alterDir_ok t (putEntry k data) (fs cur) et
                (setEntry k (File data) et) Ht) as (n' & Hput & _).
    { unfold putEntry. now rewrite Hk. }
    eexists. split.
    + unfold copyFileSync. apply mutate_ok. unfold getFile.
      rewrite Hsrc, putFile_join. exact Hput.
    + cbn [fs]. split.
      * intros q Hq. exact (put_frame _ _ _ _ _ _ Hput Hq).
      * intros q e Hq. exact (put_dir_kept _ _ _ _ _ _ _ Hput Hq).
  - apply (IH (s ++ [k]) (t ++ [k]) cur ec Hsrc Htidy Hheight).
    + now apply apart_app.
    + unfold receives. rewrite Hfree. now exists t, k, et.
Qed.

Lemma copy_loop_returns (fuel : nat) (s t : path) :
  (forall s' t' w es,
     lookup s' (fs w) = Some (Dir es) -> tidy (Dir es) = true ->
     (height (Dir es) <= fuel)%nat -> apart s' t' = true ->
     receives t' (copiedNames es) (fs w) ->
     exists w', copyDir fuel s' t' w = (Ret tt, w')
                /\ settled t' (fs w) (fs w')) ->
  apart s t = true ->
  forall (rest : list (string * node)) (cur : world),
    (forall k c, In (k, c) rest ->
                 lookup (s ++ [k]) (fs cur) = Some c /\ tidy c = true
                 /\ (height c <= fuel)%nat) ->
    List.NoDup (List.map fst rest) ->
    (exists et, lookup t (fs cur) = Some (Dir et)) ->
    (forall k, In k (List.map fst rest) -> copySkipped k = false ->
               lookup (t ++ [k]) (fs cur) = None) ->
    exists cur',
      forEach (List.map (fun e => (fst e, isDirectory (snd e))) rest)
        (fun entry =>
           let '(name, isDir) := entry in
           if copySkipped name then ret tt
           else if isDir then copyDir fuel (join1 s name) (join1 t name)
                else copyFileSync (join1 s name) (join1 t name)) cur
      = (Ret tt, cur')
      /\ settled t (fs cur) (fs cur').
Proof.
  intros IH Hap.
  induction rest as [|[k c] rest IHl]; intros cur Hsrc Hnd Ht Hfree.
  - exists cur. split; [reflexivity | apply settled_refl].
  - cbn [List.map fst] in Hnd. apply List.NoDup_cons_iff in Hnd.
    destruct Hnd as [Hk Hnd].
    destruct (Hsrc k c (or_introl eq_refl)) as (Hkc & Htidy & Hheight).
    destruct (copy_step_returns fuel s t k c cur IH Hap Hkc Htidy Hheight Ht)
      as (cur1 & Hstep & Hset1).
    { intros Hskip. apply Hfree; [now left | exact Hskip]. }
    destruct Hset1 as [F1 D1].
    destruct (IHl cur1) as (cur' & Hrest & Hset2).
    + intros k' c' Hin. destruct (Hsrc k' c' (or_intror Hin)) as (Hl & Hrest).
      split; [|exact Hrest]. rewrite F1; [exact Hl|].
      now apply apart_app.
    + exact Hnd.
    + destruct Ht as [et Ht]. exact (D1 t et Ht).
    + intros k' Hin Hskip. rewrite F1; [apply Hfree; [now right | exact Hskip]|].
      apply apart_siblings. intros ->. contradiction.
    + exists cur'. split.
      * cbn [List.map forEach fst snd]. now rewrite (bind_run _ _ _ _ _ Hstep).
      * apply (settled_trans t _ (fs cur1)); [|exact Hset2].
        apply (settled_under t [k]). now split.
Qed.

Lemma copyDir_settles (fuel : nat) :
  forall s t w es,
    lookup s (fs w) = Some (Dir es) -> tidy (Dir es) = true ->
    (height (Dir es) <= fuel)%nat -> apart s t = true ->
    receives t (copiedNames es) (fs w) ->
    exists w', copyDir fuel s t w = (Ret tt, w')
               /\ settled t (fs w) (fs w').
Proof.
  induction fuel as [|fuel IH]; intros s t w es Hs Htidy Hheight Hap Hrec.
  - cbn in Hheight. lia.
  - destruct (ensureDir_receives t _ w Hrec)
      as (w1 & Hens & [F1 D1] & Ht & Hfree).
    assert (Hs1 : lookup s (fs w1) = Some (Dir es)).
    { rewrite F1; [exact Hs|]. rewrite <- (app_nil_r s), <- (app_nil_r t).
      now apply apart_app. }
    destruct (copy_loop_returns fuel s t IH Hap es w1) as (w' & Hloop & Hset).
    + intros k c Hin. split; [|split].
      * rewrite (lookup_child s k _ es Hs1).
        exact (getEntry_first es k c (tidy_NoDup es Htidy) Hin).
      * exact (tidy_entry es k c Htidy Hin).
      * pose proof (height_entry es k c Hin). lia.
    + now apply tidy_NoDup.
    + exact Ht.
    + intros k Hin Hskip. apply Hfree. unfold copiedNames.
      apply filter_In. split; [exact Hin | now rewrite Hskip].
    + exists w'. split.
      * cbn [copyDir]. rewrite (bind_run _ _ _ _ _ Hens).
        assert (Hread : readdirTypesSync s w1
                        = (Ret (List.map (fun e => (fst e, isDirectory (snd e)))
                                  es), w1)).
        { unfold readdirTypesSync. now rewrite Hs1. }
        now rewrite (bind_run _ _ _ _ _ Hread).
      * apply (settled_trans t _ (fs w1)); [now split | exact Hset].
Qed.

(** X20. A copy into a fresh place returns.  Let the source be a
    directory in which no name occurs twice at any level, let source and
    target part ways at some segment, and let the target be either a
    directory that holds none of the source's top-level names that are not
    skipped, or a missing path whose parent is a directory.  Then, with
    fuel for the height of the source tree, [copyDir] returns normally;
    every path that parts ways with the target looks up as before, and
    every directory is still a directory. *)
Theorem copyDir_returns (fuel : nat) (sourceDir targetDir : path) (w : world)
    (entries : list (string * node)) :
  lookup sourceDir (fs w) = Some (Dir entries) ->
  tidy (Dir entries) = true ->
  (height (Dir entries) <= fuel)%nat ->
  apart sourceDir targetDir = true ->
  receives targetDir (copiedNames entries) (fs w) ->
  exists w',
    copyDir fuel sourceDir targetDir w = (Ret tt, w')
    /\ settled targetDir (fs w) (fs w').
Proof. apply copyDir_settles. Qed.

(** X20, witness: the small template goes into [/dst], which holds only a
    file of another name. *)
Lemma copyDir_returns_witness :
  exists w',
    copyDir 4 ["src"] ["dst"] templateWorld = (Ret tt, w')
    /\ settled ["dst"] (fs templateWorld) (fs w').
Proof.
  refine (copyDir_returns 4 ["src"] ["dst"] templateWorld _
            eq_refl eq_refl _ eq_refl _).
  - cbn. lia.
  - cbn. intros name [<-|[<-|[]]]; reflexivity.
Defined.

(** ** Where [init] writes *)

Lemma under_app (dir rel : path) : under dir (dir ++ rel).
Proof. now exists rel. Qed.

Lemma under_refl (dir : path) : under dir dir.
Proof. exists []. now rewrite app_nil_r. Qed.

Lemma under_join (dir p : path) (name : string) :
  under dir p -> under dir (join1 p name).
Proof.
  intros [rel ->]. exists (rel ++ [name]). unfold join1.
  now rewrite app_assoc.
Qed.

Section Confinement.
Context {H : Host}.
Variable targetDir : path.

Lemma confined_spawn (command : string) (args : list string) (dir : path) :
  callsAll (confined targetDir) (runCommand command args dir).
Proof. now apply callsAll_runCommand. Qed.

Lemma confined_ensureDir (p : path) :
  under targetDir p -> callsAll (confined targetDir) (ensureDir p).
Proof.
  intros Hp. apply callsAll_bind; [apply quiet_existsSync|].
  intros [|]; cbn [negb]; [apply callsAll_ret|].
  apply callsAll_mutate. now left.
Qed.

Lemma confined_copyDir (fuel : nat) (sourceDir : path) :
  callsAll (confined targetDir) (copyDir fuel sourceDir targetDir).
Proof.
  apply (callsAll_mono (mirrored sourceDir targetDir));
    [|apply callsAll_copyDir].
  intros [p|src dst|p data|p|prefix|command args dir]; cbn; try tauto.
  - intros (rel & -> & _). left. apply under_app.
  - intros (rel & _ & _ & -> & _). left. apply under_app.
Qed.

Lemma yields_resolveEnvFile :
  yields (resolveEnvFile targetDir)
    (fun envFile => exists dir,
       under targetDir dir /\ envFile = join1 dir ".env.local").
Proof.
  intros w envFile w'. rewrite resolveEnvFile_run. intros [= <- _].
  exists (envDirOf targetDir (fs w)). split; [|reflexivity].
  unfold envDirOf.
  destruct (lookup (join1 (join1 targetDir "apps") "webclaw") (fs w)).
  - apply under_join, under_join, under_refl.
  - apply under_refl.
Qed.

Lemma confined_writeEnvFile (env : EnvValues) :
  callsAll (confined targetDir) (writeEnvFile targetDir env).
Proof.
  unfold writeEnvFile.
  apply (callsAll_bind_yields _ _ _ _ (quiet_resolveEnvFile _ _)
           yields_resolveEnvFile).
  intros envFile (dir & Hdir & ->).
  apply callsAll_bind.
  { apply confined_ensureDir. unfold dirname, join1.
    now rewrite removelast_last. }
  intros _. apply callsAll_bind; [|intros _; apply quiet_writeStdout].
  apply callsAll_mutate. left. now apply under_join.
Qed.

Lemma confined_setDevPort (port : number) :
  callsAll (confined targetDir) (setDevPort targetDir port).
Proof.
  unfold setDevPort.
  apply callsAll_bind; [apply quiet_existsSync|]. intros nested. cbv zeta.
  assert (Hpath : under targetDir
            (if nested
             then join1 (join1 (join1 targetDir "apps") "webclaw")
                    "package.json"
             else join1 targetDir "package.json")).
  { destruct nested; repeat apply under_join; apply under_refl. }
  apply callsAll_bind; [apply quiet_existsSync|]. intros [|]; cbn [negb];
    [|apply callsAll_ret].
  apply callsAll_bind; [apply quiet_readFileSync|]. intros text.
  destruct (JSON_parse text) as [e|packageJson]; [now apply callsAll_silent|].
  destruct packageJson; try (now apply callsAll_silent);
    (destruct (negb (isTruthy _)); [apply callsAll_ret|]);
    try apply callsAll_ret.
  all: destruct (getProp _ _) as [[]|]; try apply callsAll_ret.
  all: destruct (getField _ _) as [[]|]; try apply callsAll_ret.
  all: apply callsAll_mutate; now left.
Qed.

Lemma confined_maybeSetupEnv (options : gset string)
    (env : option EnvValues) :
  callsAll (confined targetDir) (maybeSetupEnv targetDir options env).
Proof.
  unfold maybeSetupEnv.
  destruct (bool_decide ("--skip-env" ∈ options)); [apply callsAll_ret|].
  destruct env as [values|]; [apply confined_writeEnvFile|].
  destruct (negb stdinIsTTY || negb stdoutIsTTY); [apply callsAll_ret|].
  apply callsAll_bind; [apply quiet_resolveEnvFile|]. intros envFile.
  apply callsAll_finally; [|apply callsAll_ret].
  apply callsAll_bind; [apply quiet_askQuestion|]. intros createAnswer.
  destruct (negb _); [apply quiet_writeStdout|].
  apply callsAll_bind; [apply quiet_existsSync|]. intros present.
  apply callsAll_bind.
  { destruct present; [|apply callsAll_ret].
    apply callsAll_bind; [apply quiet_askQuestion|]. intros overwriteAnswer.
    destruct (negb _); [|apply callsAll_ret].
    apply callsAll_bind; [apply quiet_writeStdout|].
    intros; apply callsAll_ret. }
  intros [|]; [apply callsAll_ret|].
  apply callsAll_bind; [apply quiet_askQuestion|]. intros url.
  apply callsAll_bind; [apply quiet_askQuestion|]. intros token.
  apply confined_writeEnvFile.
Qed.

Lemma confined_populateTemplate (fuel : nat) (isCurrentDir : bool) :
  callsAll (confined targetDir) (populateTemplate fuel targetDir isCurrentDir).
Proof.
  unfold populateTemplate.
  apply callsAll_bind; [apply quiet_getLocalTemplateSource|].
  intros [source|].
  - destruct (negb isCurrentDir); apply confined_copyDir.
  - destruct (negb isCurrentDir); [apply confined_spawn|].
    apply (callsAll_bind_yields _
             (fun tempRoot => exists name, tempRoot = join1 tmpdir name)).
    + apply callsAll_mkdtempSync. cbn. apply under_join, under_refl.
    + apply yields_mkdtempSync.
    + intros tempRoot [name ->]. cbv zeta.
      apply callsAll_bind; [apply confined_spawn|]. intros _.
      apply callsAll_bind; [apply confined_copyDir|]. intros _.
      apply callsAll_mutate. right. apply under_join, under_refl.
Qed.

Lemma confined_finishInit (options : gset string)
    (bootstrapConfig : option BootstrapConfig) :
  callsAll (confined targetDir)
    (finishInit targetDir options bootstrapConfig).
Proof.
  unfold finishInit.
  apply callsAll_bind.
  { apply callsAll_bind; [apply quiet_existsSync|]. intros [|].
    - apply callsAll_ret.
    - apply callsAll_bind.
      { intros w. exists [SpawnCall "git" ["init"] targetDir].
        rewrite spawnSync_afterChild. split; [reflexivity|].
        now repeat constructor. }
      intros result.
      destruct (spawnStatus result) as [[|p|p]|];
        first [apply quiet_writeStdout | apply callsAll_ret]. }
  intros _. apply callsAll_bind.
  { destruct bootstrapConfig;
      [apply confined_setDevPort | apply callsAll_ret]. }
  intros _.
  apply callsAll_bind; [apply confined_maybeSetupEnv|]. intros _.
  apply callsAll_bind; [apply quiet_writeStdout|]. intros _. cbv zeta.
  assert (Hnext : callsAll (confined targetDir)
    (writeStdout ("Next steps:" ++ nl) ;;
     writeStdout ("  cd " ++ (let r := relative cwd targetDir in
                              if truthy r then r else ".") ++ nl) ;;
     writeStdout ("  pnpm install" ++ nl) ;;
     writeStdout ("  pnpm dev" ++ nl ++ nl))).
  { repeat (apply callsAll_bind; [apply quiet_writeStdout|intros _]).
    apply quiet_writeStdout. }
  destruct bootstrapConfig as [config|]; [|exact Hnext].
  destruct (autoStart config); [|exact Hnext].
  apply callsAll_bind; [apply quiet_writeStdout|]. intros _.
  apply callsAll_bind.
  { unfold installDependencies.
    apply callsAll_bind; [apply quiet_detectPackageManager|]. intros pm.
    destruct (String.eqb pm "yarn"); apply confined_spawn. }
  intros _.
  apply callsAll_bind; [apply quiet_writeStdout|]. intros _.
  unfold startProject.
  apply callsAll_bind; [apply quiet_detectPackageManager|]. intros pm.
  apply confined_spawn.
Qed.

End Confinement.

Section ConfinementTheorem.
Context {H : Host}.

(** X21. The paths [initProject] names in its file-system calls.
    Whatever the arguments, the options, the host and the outcome, every
    file-system call it issues names a path at or under the target
    directory or under [os.tmpdir()]: the path argument of every [mkdir],
    [writeFile] and [rm], the destination of every [copyFile], and the
    prefix of [mkdtemp].  This bounds the arguments of the calls, not all
    they create: the recursive [mkdir] of a missing target also makes the
    target's missing ancestors, which lie above the target.  (Child
    processes act on their own; what a copy reads may lie anywhere.) *)
Theorem initProject_confined (fuel : nat) (rawTarget : option string)
    (options : gset string) (bootstrapConfig : option BootstrapConfig)
    (w : world) :
  exists delta,
    calls (snd (initProject fuel rawTarget options bootstrapConfig w))
    = calls w ++ delta
    /\ Forall (confined (targetOf rawTarget)) delta.
Proof.
  revert w.
  change (callsAll (confined (targetOf rawTarget))
            (initProject fuel rawTarget options bootstrapConfig)).
  unfold initProject. fold (targetOf rawTarget).
  apply callsAll_bind; [apply quiet_banner|]. intros _. cbv zeta.
  apply callsAll_bind; [apply confined_ensureDir, under_refl|]. intros _.
  apply callsAll_bind.
  { destruct (negb _); [|apply callsAll_ret].
    apply callsAll_bind; [apply quiet_isDirEmpty|].
    intros; apply callsAll_ret. }
  intros [|].
  { apply callsAll_bind; [now apply callsAll_silent|].
    intros _. now apply callsAll_silent. }
  apply callsAll_bind.
  { destruct (bool_decide _); [|apply callsAll_ret].
    apply callsAll_bind; [apply quiet_isDirEmpty|].
    intros; apply callsAll_ret. }
  intros [|].
  { apply callsAll_bind; [now apply callsAll_silent|].
    intros _. now apply callsAll_silent. }
  apply callsAll_bind.
  { destruct (bool_decide _); [|apply callsAll_ret].
    apply callsAll_bind; [apply quiet_isDirEmpty|].
    intros; apply callsAll_ret. }
  intros clearing. apply callsAll_bind.
  { unfold when. destruct clearing; [|apply callsAll_ret].
    unfold clearTarget. apply callsAll_bind.
    { apply callsAll_bind; [apply quiet_readdirTypesSync|].
      intros; apply callsAll_ret. }
    intros entries. apply callsAll_forEach. intros entry.
    destruct (String.eqb entry ".git"); [apply callsAll_ret|].
    apply callsAll_mutate. left. apply under_join, under_refl. }
  intros _. unfold provision.
  apply callsAll_bind; [apply quiet_existsSync|]. intros hasGit.
  apply callsAll_bind.
  { destruct (negb hasGit); [apply quiet_isDirEmpty | apply callsAll_ret]. }
  intros empty. apply callsAll_bind.
  { unfold when. destruct (negb hasGit && empty); [|apply callsAll_ret].
    apply confined_populateTemplate. }
  intros _. apply confined_finishInit.
Qed.

End ConfinementTheorem.

(** ** What a copy leaves alone, however it ends *)

Lemma leaves_same (Q : path -> Prop) {A} (m : M A) :
  (forall w, fs (snd (m w)) = fs w) -> leaves Q m.
Proof. intros Hm w q _. now rewrite Hm. Qed.

Lemma leaves_bind (Q : path -> Prop) {A B} (m : M A) (k : A -> M B) :
  leaves Q m -> (forall a, leaves Q (k a)) -> leaves Q (bind m k).
Proof.
  intros Hm Hk w q Hq. specialize (Hm w q Hq). unfold bind.
  destruct (m w) as [[a| e | c |] w1]; cbn [snd] in *; try exact Hm.
  now rewrite (Hk a w1 q Hq).
Qed.

Lemma leaves_forEach (Q : path -> Prop) {A} (l : list A)
    (body : A -> M unit) :
  (forall x, leaves Q (body x)) -> leaves Q (forEach l body).
Proof.
  intros Hb. induction l as [|x l IH]; cbn [forEach].
  - now apply leaves_same.
  - apply leaves_bind; [apply Hb | intros _; exact IH].
Qed.

Lemma leaves_mutate (Q : path -> Prop) (c : call) (syscall : string)
    (p : path) f :
  (forall n n', f n = Ok n' -> forall q, Q q -> lookup q n' = lookup q n) ->
  leaves Q (mutate c syscall p f).
Proof.
  intros Hf w q Hq. unfold mutate, bind, logCall. cbn.
  destruct (f (fs w)) as [n'|e] eqn:E; cbn; [|reflexivity].
  exact (Hf _ _ E q Hq).
Qed.

Lemma copyDir_leaves (fuel : nat) :
  forall s t, leaves (fun q => apart q t = true) (copyDir fuel s t).
Proof.
  induction fuel as [|fuel IH]; intros s t; cbn [copyDir].
  - now apply leaves_same.
  - apply leaves_bind.
    { unfold ensureDir. apply leaves_bind; [now apply leaves_same|].
      intros [|]; cbn [negb]; [now apply leaves_same|].
      apply leaves_mutate. intros n n' Hmk q Hq.
      exact (mkdirp_frame _ _ _ _ Hmk Hq). }
    intros _. apply leaves_bind.
    { apply leaves_same. intros w. unfold readdirTypesSync.
      now destruct (lookup s (fs w)) as [[|]|]. }
    intros entries. apply leaves_forEach. intros [name isDir].
    destruct (copySkipped name); [now apply leaves_same|].
    destruct isDir.
    + intros w q Hq. apply IH. unfold join1. now apply apart_under.
    + apply leaves_mutate. intros n n' Hput q Hq.
      unfold getFile, join1 in Hput.
      destruct (lookup (s ++ [name]) n) as [[data|sub]|]; try discriminate.
      rewrite putFile_join in Hput.
      apply (put_frame _ _ _ _ _ _ Hput). now apply apart_under.
Qed.

Lemma apart_complete (q t : path) :
  (forall r, q <> t ++ r) -> (forall r, t <> q ++ r) -> apart q t = true.
Proof.
  revert t. induction q as [|a q IH]; intros [|b t] Hq Ht.
  - now destruct (Hq []).
  - now destruct (Ht (b :: t)).
  - now destruct (Hq (a :: q)).
  - cbn [apart]. destruct (String.eqb_spec a b) as [->|_]; [|reflexivity].
    apply IH.
    + intros r E. apply (Hq r). cbn [app]. now rewrite E.
    + intros r E. apply (Ht r). cbn [app]. now rewrite E.
Qed.

(** X12. The calls of a copy and what it leaves alone.  The only
    file-system calls [copyDir] issues are recursive [mkdir]s and file
    copies, and each names the same relative path under the target as
    under the source, no segment of which is one of the skipped names
    ([node_modules], [.git], [.env.local], [.openclaw], [.webclaw],
    [.tanstack], [.DS_Store]): the exclusions hold at every level and it
    issues no removal.  And however the copy ends (it completes, throws
    or runs out of fuel), every path that is neither at or under the
    target nor one of its ancestors looks up afterwards exactly as
    before.  (The recursive
    [mkdir] of a missing target makes the target's missing ancestors
    too, so a copy can make directories above the target.) *)
Theorem copyDir_mirrors (fuel : nat) (sourceDir targetDir : path) (w : world) :
  (exists delta,
     calls (snd (copyDir fuel sourceDir targetDir w)) = calls w ++ delta
     /\ Forall (mirrored sourceDir targetDir) delta)
  /\ forall q,
       (forall rel, q <> targetDir ++ rel) ->
       (forall rel, targetDir <> q ++ rel) ->
       lookup q (fs (snd (copyDir fuel sourceDir targetDir w)))
       = lookup q (fs w).
Proof.
  split; [apply callsAll_copyDir|].
  intros q Hunder Habove.
  apply (copyDir_leaves fuel sourceDir targetDir w q).
  now apply apart_complete.
Qed.

(** ** What [init] removes *)

Lemma Forall_weaken {A} (P Q : A -> Prop) (l : list A) :
  (forall x, P x -> Q x) -> Forall P l -> Forall Q l.
Proof.
  intros HPQ F. induction F as [|x l Hx F IH]; constructor; auto.
Qed.

Lemma persists_refl (n : node) : persists n n.
Proof. now intros q. Qed.

Lemma persists_trans (a b c : node) :
  persists a b -> persists b c -> persists a c.
Proof. intros Hab Hbc q Hq. now apply Hbc, Hab. Qed.

Lemma mkdirp_persists (p : path) (n n' : node) :
  mkdirp p n = Ok n' -> persists n n'.
Proof.
  intros Hmk q Hq. destruct (lookup q n) as [[data|es]|] eqn:E; [| |congruence].
  - now rewrite (mkdirp_file_kept _ _ _ _ _ Hmk E).
  - destruct (mkdirp_dir_kept _ _ _ _ _ Hmk E) as [es' ->]. discriminate.
Qed.

Lemma quietly_same {A} (m : M A) :
  (forall w, calls (snd (m w)) = calls w /\ fs (snd (m w)) = fs w) ->
  quietly m.
Proof.
  intros Hm w. destruct (Hm w) as [Hc Hf]. split.
  - exists []. rewrite app_nil_r. split; [exact Hc | constructor].
  - rewrite Hf. apply persists_refl.
Qed.

Lemma quietly_ret {A} (a : A) : quietly (ret a).
Proof. now apply quietly_same. Qed.

Lemma quietly_bind {A B} (m : M A) (k : A -> M B) :
  quietly m -> (forall a, quietly (k a)) -> quietly (bind m k).
Proof.
  intros Hm Hk w. destruct (Hm w) as [(d1 & E1 & F1) P1]. unfold bind.
  destruct (m w) as [[a| e | c |] w1]; cbn [snd] in *; [|split; eauto..].
  destruct (Hk a w1) as [(d2 & E2 & F2) P2]. split.
  - exists (d1 ++ d2). split; [now rewrite E2, E1, <- app_assoc|].
    apply Forall_app. now split.
  - exact (persists_trans _ _ _ P1 P2).
Qed.

Lemma quietly_existsSync (p : path) : quietly (existsSync p).
Proof. now apply quietly_same. Qed.

Lemma quietly_isDirEmpty (targetDir : path) : quietly (isDirEmpty targetDir).
Proof.
  apply quietly_same. intros w.
  destruct (lookup targetDir (fs w)) as [[data|es]|] eqn:E.
  - now rewrite (isDirEmpty_file _ _ _ E).
  - now rewrite (isDirEmpty_dir _ _ _ E).
  - now rewrite (isDirEmpty_missing _ _ E).
Qed.

Lemma quietly_ensureDir (p : path) : quietly (ensureDir p).
Proof.
  intros w. split; [apply rmFree_ensureDir|].
  unfold ensureDir. rewrite (bind_run _ _ _ _ _ (existsSync_run _ _)).
  destruct (lookup p (fs w)); cbn [negb]; [apply persists_refl|].
  unfold mkdirSync, mutate, bind, logCall. cbn.
  destruct (mkdirp p (fs w)) as [n'|e] eqn:E; cbn; [|apply persists_refl].
  exact (mkdirp_persists _ _ _ E).
Qed.

Lemma quietly_banner (b : bool) : quietly (when b printBanner).
Proof.
  apply quietly_same. intros w. destruct b; [|now split].
  cbn [when]. now rewrite printBanner_run.
Qed.

Lemma quietly_refusal (message : string) :
  quietly (A := unit) (writeStderr message ;; exit 1).
Proof. now apply quietly_same. Qed.

Section Removals.
Context {H : Host}.
Variables (targetDir : path) (force : bool).

Lemma removesOwn_notRm (n : node) (c : call) :
  notRm c -> removesOwn targetDir force n c.
Proof. now destruct c. Qed.

Lemma removesOwn_earlier (n n' : node) (c : call) :
  persists n n' -> removesOwn targetDir force n' c ->
  removesOwn targetDir force n c.
Proof.
  intros Hp. destruct c as [| | |p| |]; auto. cbn.
  intros [Hforce|[Hname Hnone]]; [now left|]. right. split; [exact Hname|].
  destruct (lookup p n) eqn:E; [|reflexivity].
  exfalso. apply (Hp p); congruence.
Qed.

Lemma callsFrom_rmFree {A} (m : M A) :
  rmFree m -> callsFrom (removesOwn targetDir force) m.
Proof.
  intros Hm w. destruct (Hm w) as (delta & E & F). exists delta.
  split; [exact E|].
  apply (Forall_weaken notRm); [apply removesOwn_notRm | exact F].
Qed.

Lemma callsFrom_quietly {A} (m : M A) :
  quietly m -> callsFrom (removesOwn targetDir force) m.
Proof. intros Hm. apply callsFrom_rmFree. intros w. apply (Hm w). Qed.

(** After a quiet start, a removal that is justified from where the rest
    starts is justified from the beginning. *)
Lemma callsFrom_after_quiet {A B} (Q : A -> Prop) (m : M A) (k : A -> M B) :
  quietly m -> yields m Q ->
  (forall a, Q a -> callsFrom (removesOwn targetDir force) (k a)) ->
  callsFrom (removesOwn targetDir force) (bind m k).
Proof.
  intros Hm Hq Hk w. destruct (Hm w) as [(d1 & E1 & F1) P1]. unfold bind.
  destruct (m w) as [[a| e | c |] w1] eqn:Em; cbn [snd] in *.
  2-4: exists d1; split; [exact E1|];
       apply (Forall_weaken notRm); [apply removesOwn_notRm | exact F1].
  destruct (Hk a (Hq _ _ _ Em) w1) as (d2 & E2 & F2). exists (d1 ++ d2).
  split; [now rewrite E2, E1, <- app_assoc|]. apply Forall_app. split.
  - apply (Forall_weaken notRm); [apply removesOwn_notRm | exact F1].
  - apply (Forall_weaken (removesOwn targetDir force (fs w1))); [|exact F2].
    intros c. now apply removesOwn_earlier.
Qed.

Lemma callsFrom_then_quiet {A B} (m : M A) (k : A -> M B) :
  quietly m ->
  (forall a, callsFrom (removesOwn targetDir force) (k a)) ->
  callsFrom (removesOwn targetDir force) (bind m k).
Proof.
  intros Hm Hk.
  apply (callsFrom_after_quiet (fun _ => True)); [exact Hm | easy | auto].
Qed.

Lemma callsFrom_then_rmFree {A B} (m : M A) (k : A -> M B) :
  callsFrom (removesOwn targetDir force) m -> (forall a, rmFree (k a)) ->
  callsFrom (removesOwn targetDir force) (bind m k).
Proof.
  intros Hm Hk w. destruct (Hm w) as (d1 & E1 & F1). unfold bind.
  destruct (m w) as [[a| e | c |] w1]; cbn [snd] in *; eauto.
  destruct (Hk a w1) as (d2 & E2 & F2). exists (d1 ++ d2).
  split; [now rewrite E2, E1, <- app_assoc|]. apply Forall_app.
  split; [exact F1|].
  apply (Forall_weaken notRm); [apply removesOwn_notRm | exact F2].
Qed.

Lemma alterDir_ok_inv (p : path) f :
  forall n n',
    alterDir p f n = Ok n' ->
    exists es es', lookup p n = Some (Dir es) /\ f es = Ok es'.
Proof.
  induction p as [|a p IH]; intros n n' Hrun;
    destruct n as [|es]; try discriminate; cbn in Hrun.
  - destruct (f es) as [es'|] eqn:E; [|discriminate]. now exists es, es'.
  - destruct (getEntry a es) as [c|] eqn:Ea; [|discriminate].
    destruct (alterDir p f c) as [c'|] eqn:Ec; [|discriminate].
    cbn [lookup]. rewrite Ea. exact (IH _ _ Ec).
Qed.

(** The directory [mkdtempSync] returns did not exist before. *)
Lemma mkdtempSync_fresh (w w1 : world) (tempRoot : path) :
  mkdtempSync (join1 tmpdir "webclaw-") w = (Ret tempRoot, w1) ->
  lookup tempRoot (fs w) = None.
Proof.
  intros Hrun.
  pose proof (mkdtempSync_under_tmpdir _ _ _ Hrun) as ->.
  revert Hrun. unfold mkdtempSync, join1. rewrite unsnoc_app. unfold bind.
  destruct (mutate _ _ _ _ w) as [[[]| | |] w'] eqn:Em; try discriminate.
  intros _. apply mutate_ret_inv in Em. unfold mkdir1 in Em.
  rewrite unsnoc_app in Em.
  destruct (alterDir_ok_inv _ _ _ _ Em) as (es & es' & Hdir & Hfree).
  rewrite (lookup_child _ _ _ es Hdir).
  now destruct (getEntry _ es).
Qed.

Lemma callsFrom_populateTemplate (fuel : nat) (isCurrentDir : bool) :
  callsFrom (removesOwn targetDir force)
    (populateTemplate fuel targetDir isCurrentDir).
Proof.
  unfold populateTemplate. apply callsFrom_then_quiet.
  { unfold getLocalTemplateSource. cbv zeta.
    apply quietly_bind; [apply quietly_existsSync|]. intros hasRoot.
    apply quietly_bind.
    { destruct hasRoot; [apply quietly_existsSync | apply quietly_ret]. }
    intros hasApp. destruct (negb hasRoot || negb hasApp); apply quietly_ret. }
  intros [source|].
  - destruct (negb isCurrentDir); apply callsFrom_rmFree, rmFree_copyDir.
  - destruct (negb isCurrentDir); [apply callsFrom_rmFree, rmFree_runCommand|].
    intros w.
    destruct (rmFree_mkdtempSync (join1 tmpdir "webclaw-") w)
      as (d1 & E1 & F1).
    unfold bind at 1.
    destruct (mkdtempSync (join1 tmpdir "webclaw-") w)
      as [[tempRoot| e | c |] w1] eqn:Em; cbn [snd] in *.
    2-4: exists d1; split; [exact E1|];
         apply (Forall_weaken notRm); [apply removesOwn_notRm | exact F1].
    cbv zeta.
    assert (Hrest : callsAll
              (fun c => match c with RmCall p => p = tempRoot | _ => True end)
              (cloneRepo (join1 tempRoot "repo") ;;
               copyDir fuel (join1 tempRoot "repo") targetDir ;;
               rmSync tempRoot)).
    { apply callsAll_bind.
      { apply (callsAll_mono notRm); [now intros [] | apply rmFree_runCommand]. }
      intros _. apply callsAll_bind.
      { apply (callsAll_mono notRm); [now intros [] | apply rmFree_copyDir]. }
      intros _. now apply callsAll_mutate. }
    destruct (Hrest w1) as (d2 & E2 & F2). exists (d1 ++ d2).
    split; [now rewrite E2, E1, <- app_assoc|]. apply Forall_app. split.
    + apply (Forall_weaken notRm); [apply removesOwn_notRm | exact F1].
    + eapply Forall_weaken; [|exact F2]. intros c Hc.
      destruct c as [| | |p| |]; auto. cbn in Hc |- *. subst p. right.
      split.
      * exists (mkdtempSuffix (fs w)).
        exact (mkdtempSync_under_tmpdir _ _ _ Em).
      * exact (mkdtempSync_fresh _ _ _ Em).
Qed.

Lemma callsFrom_clearTarget :
  force = true -> callsFrom (removesOwn targetDir force) (clearTarget targetDir).
Proof.
  intros Hforce w.
  assert (Hclear : callsAll
            (fun c => match c with
                      | RmCall p =>
                          exists entry,
                            entry <> ".git" /\ p = join1 targetDir entry
                      | _ => True
                      end) (clearTarget targetDir)).
  { unfold clearTarget. apply callsAll_bind.
    { apply callsAll_bind; [apply quiet_readdirTypesSync|].
      intros; apply callsAll_ret. }
    intros entries. apply callsAll_forEach. intros entry.
    destruct (String.eqb_spec entry ".git") as [_|Hne]; [apply callsAll_ret|].
    apply callsAll_mutate. now exists entry. }
  destruct (Hclear w) as (delta & E & F). exists delta. split; [exact E|].
  eapply Forall_weaken; [|exact F]. intros c Hc.
  destruct c; auto. cbn. now left.
Qed.

End Removals.

Section RemovalsTheorem.
Context {H : Host}.

Lemma rmFree_provision_elsewhere (fuel : nat) (targetDir : path)
    (options : gset string) (bootstrapConfig : option BootstrapConfig) :
  rmFree (provision fuel targetDir false options bootstrapConfig).
Proof.
  unfold provision.
  apply rmFree_bind; [apply rmFree_existsSync|]. intros hasGit.
  apply rmFree_bind.
  { destruct (negb hasGit); [apply rmFree_isDirEmpty | apply rmFree_ret]. }
  intros empty. apply rmFree_bind; [|intros _; apply rmFree_finishInit].
  unfold when. destruct (negb hasGit && empty); [|apply rmFree_ret].
  unfold populateTemplate.
  apply rmFree_bind; [apply rmFree_getLocalTemplateSource|].
  intros [source|]; cbn [negb]; [apply rmFree_copyDir|].
  apply rmFree_runCommand.
Qed.

(** X13. What [initProject] removes.  Whatever the arguments, the options,
    the host and the outcome, every [rmSync] it issues is of one of two
    kinds: with [--force], a direct entry of the target whose name is not
    [.git]; or a path [<os.tmpdir()>/webclaw-<suffix>] (the shape of the
    staging directory [mkdtemp] returns) that did not exist when
    [initProject] started.  Hence it never issues a removal of the
    target's [.git], and without [--force] every path it asks to remove
    did not exist when it started. *)
Theorem initProject_removals (fuel : nat) (rawTarget : option string)
    (options : gset string) (bootstrapConfig : option BootstrapConfig)
    (w : world) :
  exists delta,
    calls (snd (initProject fuel rawTarget options bootstrapConfig w))
    = calls w ++ delta
    /\ Forall (removesOwn (targetOf rawTarget)
                 (bool_decide ("--force" ∈ options)) (fs w)) delta
    /\ ~ In (RmCall (join1 (targetOf rawTarget) ".git")) delta
    /\ ("--force" ∉ options ->
        forall p, In (RmCall p) delta -> lookup p (fs w) = None).
Proof.
  assert (Hmain : callsFrom
            (removesOwn (targetOf rawTarget)
               (bool_decide ("--force" ∈ options)))
            (initProject fuel rawTarget options bootstrapConfig)).
  { unfold initProject. fold (targetOf rawTarget).
    apply callsFrom_then_quiet; [apply quietly_banner|]. intros _. cbv zeta.
    apply callsFrom_then_quiet; [apply quietly_ensureDir|]. intros _.
    apply callsFrom_then_quiet.
    { destruct (negb _); [|apply quietly_ret].
      apply quietly_bind; [apply quietly_isDirEmpty|].
      intros; apply quietly_ret. }
    intros [|]; [apply callsFrom_quietly, quietly_refusal|].
    apply callsFrom_then_quiet.
    { destruct (bool_decide _); [|apply quietly_ret].
      apply quietly_bind; [apply quietly_isDirEmpty|].
      intros; apply quietly_ret. }
    intros [|]; [apply callsFrom_quietly, quietly_refusal|].
    apply (callsFrom_after_quiet _ _
             (fun clearing =>
                clearing = true ->
                bool_decide ("--force" ∈ options) = true
                /\ Path.eqb (targetOf rawTarget) cwd = false)).
    { destruct (bool_decide _); [|apply quietly_ret].
      apply quietly_bind; [apply quietly_isDirEmpty|].
      intros; apply quietly_ret. }
    { destruct (bool_decide ("--force" ∈ options)).
      - apply yields_bind. intros empty. apply yields_ret.
        intros Hc. split; [reflexivity|].
        destruct (Path.eqb (targetOf rawTarget) cwd); [|reflexivity].
        now rewrite andb_false_r in Hc.
      - now apply yields_ret. }
    intros [|] Hclearing; cbn [when].
    - destruct (Hclearing eq_refl) as [Hforce Hcwd].
      apply callsFrom_then_rmFree;
        [now apply callsFrom_clearTarget|].
      intros _. rewrite Hcwd. apply rmFree_provision_elsewhere.
    - apply callsFrom_then_quiet; [apply quietly_ret|]. intros _.
      unfold provision.
      apply callsFrom_then_quiet; [apply quietly_existsSync|]. intros hasGit.
      apply callsFrom_then_quiet.
      { destruct (negb hasGit); [apply quietly_isDirEmpty | apply quietly_ret]. }
      intros empty.
      apply callsFrom_then_rmFree; [|intros _; apply rmFree_finishInit].
      unfold when. destruct (negb hasGit && empty).
      + apply callsFrom_populateTemplate.
      + apply callsFrom_quietly, quietly_ret. }
  destruct (Hmain w) as (delta & E & F). exists delta.
  split; [exact E|]. split; [exact F|].
  rewrite List.Forall_forall in F. split.
  - intros Hin. specialize (F _ Hin). cbn in F. unfold join1 in F.
    destruct F as [[_ (entry & Hne & Heq)]|[(suffix & Heq) _]];
      apply app_inj_tail in Heq; destruct Heq as [_ Heq].
    + congruence.
    + change ("webclaw-" ++ suffix)%string
        with (String "w" ("ebclaw-" ++ suffix)) in Heq.
      discriminate.
  - intros Hforce p Hin. specialize (F _ Hin). cbn in F.
    destruct F as [[Hf _]|[_ Hnone]]; [|exact Hnone].
    now rewrite (bool_decide_eq_false_2 _ Hforce) in Hf.
Qed.

End RemovalsTheorem.
